(** * Ensemble: sheet-music transcription pipeline

    A shallow embedding of the post-detection pipeline of the Ensemble
    server ([app.py], [utils/image_processing.py],
    [utils/midi_generation.py], [utils/validation.py]) and of the dataset
    preparation ([utils/prepare_dataset.py]), and the theorems that relate
    them to the specification.

    Conventions of the embedding.
    - Python [int] is [Z]; pixel boxes are records of four [Z].
    - A finite Python / numpy [float] is modelled by the rational [Q] it
      denotes.  The arithmetic on the corners of a detection, which numpy
      does in single precision, and the arithmetic of the dataset
      preparation, which Python does in double precision, round to the
      nearest number of the format ([Np.float32], [Np.float64]); the
      overflow of a format, beyond any pixel coordinate, is not modelled.
      The staff computations on integer line heights are exact.  A numpy
      division by zero gives [nan] or an infinity, on which [int] raises.
    - [str] is [string]; dictionaries are [gmap]; [list] is [list].
    - A Python exception is the [Raise] branch of [result]; a [try/except]
      is a [match] on it.
    - OpenCV, the YOLO predictor, the file system and the MIDI writer are
      external: their outcomes are inputs of the model ([Env]), and a call
      of [MIDIFile.addNote] is recorded as a [NoteEvent]. *)

From Stdlib Require Import ZArith QArith Qabs Qround String Ascii List Sorted Permutation Lia Lqa Bool.
From stdpp Require Import gmap strings list fin_maps.
From Equations Require Import Equations.
Import ListNotations.

Open Scope string_scope.
Open Scope list_scope.
Open Scope Z_scope.

(** ** Exceptions *)

Inductive exn : Type :=
| ValueError (msg : string)
| OverflowError (msg : string)
| ArithmeticError          (* ZeroDivisionError *)
| OSError.

Inductive result (A : Type) : Type :=
| Ok (a : A)
| Raise (e : exn).
Arguments Ok {A} a.
Arguments Raise {A} e.

#[global] Instance result_ret : MRet result := fun _ a => Ok a.
#[global] Instance result_bind : MBind result := fun _ _ f m =>
  match m with
  | Ok a => f a
  | Raise e => Raise e
  end.
#[global] Instance result_fmap : FMap result := fun _ _ f m =>
  match m with
  | Ok a => Ok (f a)
  | Raise e => Raise e
  end.

(** [for x in xs: ys.append(f(x))] where [f] may raise. *)
Fixpoint mapM_result {A B} (f : A -> result B) (xs : list A) : result (list B) :=
  match xs with
  | [] => Ok []
  | x :: xs' =>
      y ← f x;
      ys ← mapM_result f xs';
      mret (y :: ys)
  end.

(** ** Python primitives *)

Module Py.

(** [sub in s] on strings. *)
Fixpoint str_contains (sub s : string) : bool :=
  String.prefix sub s ||
  match s with
  | EmptyString => false
  | String _ s' => str_contains sub s'
  end.

(** [s.replace(old, new)] for a one-character [old]. *)
Fixpoint str_replace (old : ascii) (new s : string) : string :=
  match s with
  | EmptyString => EmptyString
  | String c s' =>
      if Ascii.eqb c old then new +:+ str_replace old new s'
      else String c (str_replace old new s')
  end.

(** [x in [a, b, ...]] on strings. *)
Definition str_in (x : string) (l : list string) : bool :=
  existsb (String.eqb x) l.

(** [int(c)] for a one-character string: a decimal digit or [ValueError]. *)
Definition int_of_char (c : ascii) : result Z :=
  let n := Z.of_nat (nat_of_ascii c) in
  if (48 <=? n) && (n <=? 57) then Ok (n - 48)
  else Raise (ValueError "invalid literal for int()").

(** [int(x)] on a float: truncation towards zero. *)
Definition int_of_float (q : Q) : Z := Z.quot (Qnum q) (Z.pos (Qden q)).

(** [a / b] on floats. *)
Definition float_div (a b : Q) : result Q :=
  if Qeq_bool b 0 then Raise ArithmeticError else Ok (a / b)%Q.

(** [sum(l)], [min(l)], [max(l)] on non-empty integer lists. *)
Definition sum (l : list Z) : Z := fold_left Z.add l 0.
Definition min (l : list Z) : Z :=
  match l with
  | [] => 0
  | x :: l' => fold_left Z.min l' x
  end.
Definition max (l : list Z) : Z :=
  match l with
  | [] => 0
  | x :: l' => fold_left Z.max l' x
  end.

(** [sorted(l, key=key)]: a stable sort. *)
Section Sorted.
Context {A : Type} (key : A -> Z).

Fixpoint insert (x : A) (l : list A) : list A :=
  match l with
  | [] => [x]
  | y :: l' => if key x <=? key y then x :: l else y :: insert x l'
  end.

Fixpoint sorted (l : list A) : list A :=
  match l with
  | [] => []
  | x :: l' => insert x (sorted l')
  end.
End Sorted.

End Py.

(** ** numpy floating point *)

Module Np.

(** The nearest integer, a tie going to the even one. *)
Definition round_half_even (q : Q) : Z :=
  let f := Qfloor q in
  match (q - inject_Z f ?= 1 # 2)%Q with
  | Lt => f
  | Eq => if Z.even f then f else f + 1
  | Gt => f + 1
  end.

(** The unit in the last place of [q] in the binary format with [prec]
    bits of precision whose least positive number is [2 ^ (- least)]:
    with [t] the integer part of [|q|] counted in least numbers, the
    significand keeps the [prec] leading bits of [t]. *)
Definition ulp (prec least : Z) (q : Q) : Q :=
  let t := Qfloor (Qabs q * inject_Z (2 ^ least)) in
  let shift := Z.max 0 (Z.log2 t + 1 - prec) in
  (inject_Z (2 ^ shift) / inject_Z (2 ^ least))%Q.

(** Rounding to the nearest number of the format, ties to even. *)
Definition round (prec least : Z) (q : Q) : Q :=
  let u := ulp prec least q in
  (inject_Z (round_half_even (q / u)) * u)%Q.

(** IEEE 754 binary32 ([numpy.float32]) and binary64 ([float]). *)
Definition float32 : Q -> Q := round 24 149.
Definition float64 : Q -> Q := round 53 1074.

(** The value of a numpy division: a number, an infinity or [nan]. *)
Inductive float : Type :=
| finite (q : Q)
| inf (negative : bool)
| nan.

(** [a / b] on numpy floats, [b] not negative: a division by zero gives
    [nan] or an infinity (and a warning), it does not raise. *)
Definition divide (a b : Q) : float :=
  if Qeq_bool b 0
  then (if Qeq_bool a 0 then nan else inf (negb (Qle_bool 0 a)))
  else finite (a / b).

(** [int(x)] on a numpy float. *)
Definition int (x : float) : result Z :=
  match x with
  | finite q => Ok (Py.int_of_float q)
  | inf _ => Raise (OverflowError "cannot convert float infinity to integer")
  | nan => Raise (ValueError "cannot convert float NaN to integer")
  end.

End Np.

(** ** Data model *)

(** [box = [x, y, width, height]]: [box[0]] is [bx], [box[1]] is [by]. *)
Record Box : Type := mkBox { bx : Z; by_ : Z; bw : Z; bh : Z }.

(** The symbol dictionaries built by [process_detections_enhanced]; the key
    ['accidental'] is absent until [apply_accidentals_to_notes] sets it. *)
Record Symbol : Type := mkSymbol {
  class : string;
  confidence : Q;
  box : Box;
  pitch : string;
  duration : Q;
  accidental : option string
}.

(** A detection of the YOLO model: [xyxy], [conf], [cls]; the corners are
    single-precision numbers. *)
Record Detection : Type := mkDetection {
  x1 : Q; y1 : Q; x2 : Q; y2 : Q;
  conf : Q;
  cls : Z
}.

(** ['note' in symbol['class']] *)
Definition is_note_class (c : string) : bool := Py.str_contains "note" c.

(** ** app.py: tables *)

Definition MUSICAL_SYMBOL_CLASSES : gmap Z string :=
  list_to_map [
    (0, "whole_note"); (1, "half_note"); (2, "quarter_note"); (3, "eighth_note");
    (4, "sixteenth_note"); (5, "thirty_second_note"); (6, "sixty_fourth_note");
    (7, "whole_rest"); (8, "half_rest"); (9, "quarter_rest"); (10, "eighth_rest");
    (11, "sixteenth_rest"); (12, "thirty_second_rest"); (13, "sixty_fourth_rest");
    (14, "treble_clef"); (15, "bass_clef"); (16, "alto_clef"); (17, "tenor_clef");
    (18, "sharp"); (19, "flat"); (20, "natural"); (21, "double_sharp"); (22, "double_flat");
    (23, "time_signature_2_4"); (24, "time_signature_3_4"); (25, "time_signature_4_4");
    (26, "time_signature_6_8"); (27, "time_signature_9_8"); (28, "time_signature_12_8");
    (29, "common_time"); (30, "cut_time"); (31, "bar_line"); (32, "double_bar_line");
    (33, "repeat_start"); (34, "repeat_end"); (35, "tie"); (36, "slur");
    (37, "beam"); (38, "dot"); (39, "staccato"); (40, "accent");
    (41, "fermata"); (42, "trill"); (43, "mordent"); (44, "turn");
    (45, "grace_note"); (46, "chord")
  ].

Definition SYMBOL_DURATIONS : gmap string Q :=
  list_to_map [
    ("whole_note", 4); ("half_note", 2); ("quarter_note", 1);
    ("eighth_note", 1 # 2); ("sixteenth_note", 1 # 4); ("thirty_second_note", 1 # 8);
    ("sixty_fourth_note", 1 # 16); ("whole_rest", 4); ("half_rest", 2);
    ("quarter_rest", 1); ("eighth_rest", 1 # 2); ("sixteenth_rest", 1 # 4);
    ("thirty_second_rest", 1 # 8); ("sixty_fourth_rest", 1 # 16)
  ]%Q.

(** ** utils/midi_generation.py *)

Module MidiGeneration.

Definition note_map : gmap string Z :=
  list_to_map [
    ("C", 0); ("C#", 1); ("Db", 1); ("D", 2); ("D#", 3); ("Eb", 3);
    ("E", 4); ("F", 5); ("F#", 6); ("Gb", 6); ("G", 7); ("G#", 8);
    ("Ab", 8); ("A", 9); ("A#", 10); ("Bb", 10); ("B", 11)
  ].

(** The body of the [try] block: [None] stands for the early
    [return 60] of the [else] branch. *)
Definition parse_pitch (pitch : string) : result (option (string * Z)) :=
  match pitch with
  | String c0 (String c1 EmptyString) =>
      octave ← Py.int_of_char c1;
      mret (Some (String c0 EmptyString, octave))
  | String c0 (String c1 (String c2 EmptyString)) =>
      octave ← Py.int_of_char c2;
      mret (Some (String c0 (String c1 EmptyString), octave))
  | _ => mret None
  end.

Definition pitch_to_midi_number (pitch : string) : Z :=
  match parse_pitch pitch with
  | Ok (Some (note, octave)) =>
      let midi_number := (octave + 1) * 12 + default 0 (note_map !! note) in
      Z.max 0 (Z.min 127 midi_number)
  | Ok None => 60
  | Raise _ => 60
  end.

(** One call [midi.addNote(track, channel, pitch, time, duration, volume)]:
    a note-on at [ev_time] and the matching note-off at
    [ev_time + ev_duration]. *)
Record NoteEvent : Type := mkNoteEvent {
  ev_track : Z;
  ev_channel : Z;
  ev_pitch : Z;
  ev_time : Q;
  ev_duration : Q;
  ev_velocity : Z
}.

Definition note_off (e : NoteEvent) : Q := (ev_time e + ev_duration e)%Q.

(** The state of the loop of [generate_midi_file]: the notes added so far
    (oldest first) and [current_time]. *)
Record MidiState : Type := mkMidiState {
  events : list NoteEvent;
  current_time : Q
}.

Definition midi_init : MidiState := mkMidiState [] 0.

(** One iteration of [for symbol in symbols]. *)
Definition midi_step (st : MidiState) (symbol : Symbol) : MidiState :=
  if is_note_class (class symbol) then
    let pitch_num := pitch_to_midi_number (pitch symbol) in
    let duration := duration symbol in
    let velocity := 100 in
    mkMidiState
      (events st ++ [mkNoteEvent 0 0 pitch_num (current_time st) duration velocity])
      (current_time st + duration)%Q
  else st.

Definition midi_run (symbols : list Symbol) : MidiState :=
  fold_left midi_step symbols midi_init.

(** [generate_midi_file]: [write_ok] is the outcome of opening and writing
    [output_path]; a failure is logged and raised again. *)
Definition generate_midi_file (symbols : list Symbol) (bpm : Z) (write_ok : bool)
  : result (list NoteEvent) :=
  let st := midi_run symbols in
  if write_ok then Ok (events st) else Raise OSError.

End MidiGeneration.

(** ** utils/image_processing.py *)

Module ImageProcessing.

(** A segment of [cv2.HoughLinesP]: [x1, y1, x2, y2 = line[0]]. *)
Record Line : Type := mkLine { lx1 : Z; ly1 : Z; lx2 : Z; ly2 : Z }.

(** [spacings = [staff_lines[i+1] - staff_lines[i] for i in range(4)]] *)
Definition spacings_of (staff_lines : list Z) : list Z :=
  map (fun i => staff_lines !!! S i - staff_lines !!! i) (seq 0 4).

(** [avg_spacing = sum(spacings) / len(spacings)] *)
Definition avg_spacing_of (spacings : list Z) : Q :=
  (inject_Z (Py.sum spacings) / inject_Z (Z.of_nat (length spacings)))%Q.

(** [abs(spacing - avg_spacing) > avg_spacing * 0.2] *)
Definition spacing_off (avg_spacing : Q) (spacing : Z) : bool :=
  negb (Qle_bool (Qabs (inject_Z spacing - avg_spacing)) (avg_spacing * (2 # 10))).

Definition validate_staff_spacing (staff_lines : list Z) : bool :=
  if negb (length staff_lines =? 5)%nat then false
  else
    let spacings := spacings_of staff_lines in
    let avg_spacing := avg_spacing_of spacings in
    negb (existsb (spacing_off avg_spacing) spacings).

(** The first loop of [group_staff_lines]: keep the nearly horizontal
    segments, each collapsed to its middle height. *)
Definition horizontal_lines_of (lines : list Line) : list Z :=
  flat_map
    (fun line =>
       if Z.abs (ly2 line - ly1 line) <? 10 then [(ly1 line + ly2 line) / 2] else [])
    lines.

(** The [while i < len(horizontal_lines) - 4] loop, from index [i] on. *)
Equations? group_loop (horizontal_lines : list Z) (i : nat) : list (list Z)
  by wf (length horizontal_lines - i)%nat lt :=
group_loop horizontal_lines i
  with decide (Z.of_nat i < Z.of_nat (length horizontal_lines) - 4) := {
  | right _ => [];
  | left _ with validate_staff_spacing (take 5 (drop i horizontal_lines)) := {
    | true => take 5 (drop i horizontal_lines) :: group_loop horizontal_lines (i + 5);
    | false => group_loop horizontal_lines (i + 1) } }.
Proof. all: lia. Qed.

(** [lines] is [None] when the Hough transform finds nothing. *)
Definition group_staff_lines (lines : option (list Line)) (image_height : Z)
  : list (list Z) :=
  match lines with
  | None => []
  | Some lines =>
      let horizontal_lines := Py.sorted (fun y => y) (horizontal_lines_of lines) in
      group_loop horizontal_lines 0
  end.

(** [cv] is the outcome of the OpenCV calls of the [try] block: an
    exception, or the value of [cv2.HoughLinesP]. *)
Definition detect_staff_lines_enhanced
  (cv : result (option (list Line))) (image_height : Z) : list (list Z) :=
  match cv with
  | Ok lines => group_staff_lines lines image_height
  | Raise _ => []
  end.

Definition pitches : list string :=
  ["F5"; "E5"; "D5"; "C5"; "B4"; "A4"; "G4"; "F4"; "E4"; "D4"; "C4"].

(** [y_pos] is the numpy number that [process_detections_enhanced] passes,
    so the division is numpy's. *)
Definition calculate_pitch_from_staff_position (y_pos : Q) (staff_lines : list Z)
  : result string :=
  match staff_lines with
  | [] => Ok "C4"
  | _ =>
      let staff_top := Py.min staff_lines in
      let staff_bottom := Py.max staff_lines in
      let staff_height := staff_bottom - staff_top in
      let line_spacing := (inject_Z staff_height / 4)%Q in
      let relative_pos := Np.divide (y_pos - inject_Z staff_top)%Q line_spacing in
      pitch_index ← Np.int relative_pos;
      if (0 <=? pitch_index) && (pitch_index <? Z.of_nat (length pitches))
      then Ok (pitches !!! Z.to_nat pitch_index)
      else Ok "C4"
  end.

(** The body of [for i in range(len(boxes))]. *)
Definition process_detection (d : Detection) (staff_lines : list Z) : result Symbol :=
  let width := Np.float32 (x2 d - x1 d) in
  let height := Np.float32 (y2 d - y1 d) in
  let center_y := Np.float32 (Np.float32 (y1 d + y2 d) / 2) in
  let symbol_class := default "unknown" (MUSICAL_SYMBOL_CLASSES !! cls d) in
  pitch ← (if is_note_class symbol_class
           then calculate_pitch_from_staff_position center_y staff_lines
           else Ok "C4");
  let duration := default 1%Q (SYMBOL_DURATIONS !! symbol_class) in
  mret (mkSymbol symbol_class (conf d)
          (mkBox (Py.int_of_float (x1 d)) (Py.int_of_float (y1 d))
                 (Py.int_of_float width) (Py.int_of_float height))
          pitch duration None).

(** [results] is [None] when [results.boxes] is missing or [None]. *)
Definition process_detections_enhanced
  (results : option (list Detection)) (staff_lines : list Z) : result (list Symbol) :=
  match results with
  | None => Ok []
  | Some boxes => mapM_result (fun d => process_detection d staff_lines) boxes
  end.

End ImageProcessing.

(** ** app.py *)

Module App.

Import ImageProcessing MidiGeneration.

Definition treble_pitches : list string :=
  ["E5"; "D5"; "C5"; "B4"; "A4"; "G4"; "F4"; "E4"; "D4"; "C4"; "B3"].
Definition bass_pitches : list string :=
  ["G3"; "F3"; "E3"; "D3"; "C3"; "B2"; "A2"; "G2"; "F2"; "E2"; "D2"].
Definition alto_pitches : list string :=
  ["G4"; "F4"; "E4"; "D4"; "C4"; "B3"; "A3"; "G3"; "F3"; "E3"; "D3"].

Definition pitch_mapping : gmap string (list string) :=
  list_to_map [("treble", treble_pitches); ("bass", bass_pitches); ("alto", alto_pitches)].

(** Defined in [app.py]; no other function of the program calls it. *)
Definition calculate_pitch_from_position
  (y_pos : Q) (staff_lines : list Z) (clef_type : string) : result string :=
  match staff_lines with
  | [] => Ok "C4"
  | _ =>
      let pitches := default treble_pitches (pitch_mapping !! clef_type) in
      let staff_center :=
        (inject_Z (Py.sum staff_lines) / inject_Z (Z.of_nat (length staff_lines)))%Q in
      let staff_spacing :=
        (inject_Z (Py.max staff_lines - Py.min staff_lines) / 4)%Q in
      relative_pos ← Py.float_div (y_pos - staff_center)%Q staff_spacing;
      let pitch_index := Py.int_of_float (5 + relative_pos)%Q in
      if (0 <=? pitch_index) && (pitch_index <? Z.of_nat (length pitches))
      then Ok (pitches !!! Z.to_nat pitch_index)
      else Ok "C4"
  end.

Definition accidental_classes : list string := ["sharp"; "flat"; "natural"].

Definition is_accidental (s : Symbol) : bool := Py.str_in (class s) accidental_classes.

(** [acc_x < note_x and abs(acc_y - note_y) < 20] *)
Definition in_window (note accidental : Symbol) : bool :=
  (bx (box accidental) <? bx (box note))
  && (Z.abs (by_ (box accidental) - by_ (box note)) <? 20).

(** The state of the inner loop: [closest_accidental] and [min_distance],
    where [None] stands for [None] and for [float('inf')]. *)
Definition closest_step (note : Symbol) (st : option Symbol * option Z) (accidental : Symbol)
  : option Symbol * option Z :=
  if in_window note accidental then
    let distance := bx (box note) - bx (box accidental) in
    match snd st with
    | None => (Some accidental, Some distance)
    | Some min_distance =>
        if distance <? min_distance then (Some accidental, Some distance) else st
    end
  else st.

Definition closest_accidental (note : Symbol) (accidentals : list Symbol) : option Symbol :=
  fst (fold_left (closest_step note) accidentals (None, None)).

(** [pitch.replace('4', c + '4') if '4' in pitch else pitch + c] *)
Definition alter_pitch (c : string) (pitch : string) : string :=
  if Py.str_contains "4" pitch then Py.str_replace "4"%char (c +:+ "4") pitch
  else pitch +:+ c.

(** The body of [for note in notes]: the note after the in-place update. *)
Definition apply_accidental (accidentals : list Symbol) (note : Symbol) : Symbol :=
  match closest_accidental note accidentals with
  | Some closest =>
      let pitch := pitch note in
      let pitch' :=
        if String.eqb (class closest) "sharp" then alter_pitch "#" pitch
        else if String.eqb (class closest) "flat" then alter_pitch "b" pitch
        else pitch in
      mkSymbol (class note) (confidence note) (box note) pitch' (duration note)
               (Some (class closest))
  | None => note
  end.

(** The symbols of [notes] are the dictionaries of [symbols] themselves, so
    the update of a note shows in the returned list. *)
Definition accidentals_of (symbols : list Symbol) : list Symbol :=
  filter (fun s => is_accidental s = true) symbols.

(** A symbol of [symbols] once the loop is over: updated if it was put in
    [notes], untouched otherwise. *)
Definition resolve_symbol (accidentals : list Symbol) (s : Symbol) : Symbol :=
  if is_accidental s then s
  else if is_note_class (class s) then apply_accidental accidentals s
  else s.

Definition apply_accidentals_to_notes (symbols : list Symbol) : list Symbol :=
  let accidentals := accidentals_of symbols in
  let updated := map (resolve_symbol accidentals) symbols in
  filter (fun s => is_accidental s = false) updated.

(** [s['class'] in ['bar_line', 'double_bar_line']] *)
Definition is_bar_line (s : Symbol) : bool :=
  Py.str_in (class s) ["bar_line"; "double_bar_line"].

(** ['bar_line' not in s['class']] *)
Definition not_bar_line_class (s : Symbol) : bool :=
  negb (Py.str_contains "bar_line" (class s)).

(** One iteration of [for bar_line in bar_lines], on the state
    ([measures], [measure_start]). *)
Definition measure_step (sorted_symbols : list Symbol)
  (st : list (list Symbol) * Z) (bar_line : Symbol) : list (list Symbol) * Z :=
  let '(measures, measure_start) := st in
  let bar_x := bx (box bar_line) in
  let measure_symbols :=
    filter (fun s => ((measure_start <=? bx (box s)) && (bx (box s) <? bar_x)
                      && not_bar_line_class s) = true)
           sorted_symbols in
  (match measure_symbols with
   | [] => measures
   | _ => measures ++ [measure_symbols]
   end, bar_x).

Definition group_symbols_by_measure (symbols : list Symbol) (staff_lines : list (list Z))
  : list (list Symbol) :=
  let sorted_symbols := Py.sorted (fun s => bx (box s)) symbols in
  let bar_lines := filter (fun s => is_bar_line s = true) sorted_symbols in
  match last bar_lines with
  | None => [sorted_symbols]
  | Some last_bar =>
      let '(measures, _) := fold_left (measure_step sorted_symbols) bar_lines ([], 0) in
      let final_symbols :=
        filter (fun s => ((bx (box last_bar) <? bx (box s)) && not_bar_line_class s) = true)
               sorted_symbols in
      match final_symbols with
      | [] => measures
      | _ => measures ++ [final_symbols]
      end
  end.

(** What [analyze_sheet_music] gets from the outside world.  [model] is
    [None] when no model was loaded, and otherwise holds the boxes of the
    result that [model.predict] returned. *)
Record Env : Type := mkEnv {
  imread_ok : bool;                          (* [cv2.imread] returned an image *)
  image_height : Z;
  hough : result (option (list Line));       (* the OpenCV calls of the detector *)
  model : option (option (list Detection));  (* [None]: no model was loaded *)
  write_ok : bool                            (* the MIDI file could be written *)
}.

Record NoteView : Type := mkNoteView {
  nv_pitch : string;
  nv_duration : string;
  nv_box : Box
}.

Record Analysis : Type := mkAnalysis {
  bpm : Z;
  time_signature : string;
  key_signature : string;
  notes : list NoteView;
  measures : nat;
  symbols_detected : nat
}.

(** The returned dictionary; [midi_file] is the content written at
    [midi_url]. *)
Inductive Response : Type :=
| Success (analysis : Analysis) (midi_file : list NoteEvent)
| Error (e : exn).

Definition fallback_staff : list (list Z) := [[100; 150; 200; 250; 300]].

Definition mock_symbols : list Symbol :=
  [ mkSymbol "quarter_note" (85 # 100) (mkBox 150 180 20 25) "E4" 1 None;
    mkSymbol "half_note" (90 # 100) (mkBox 200 160 20 25) "G4" 2 None ].

(** [staff_lines] after the fallback of lines 209-212. *)
Definition staff_lines_of (env : Env) : list (list Z) :=
  match detect_staff_lines_enhanced (hough env) (image_height env) with
  | [] => fallback_staff
  | staff_lines => staff_lines
  end.

(** [symbols] of lines 214-242; [staff_lines] is never empty there. *)
Definition detect_symbols (env : Env) (staff_lines : list (list Z)) : result (list Symbol) :=
  match model env with
  | Some results => process_detections_enhanced results (staff_lines !!! 0%nat)
  | None => Ok mock_symbols
  end.

(** The [try] block of [analyze_sheet_music]. *)
Definition analyze_try (env : Env) : result (Analysis * list NoteEvent) :=
  if negb (imread_ok env) then Raise (ValueError "Could not load image")
  else
    let staff_lines := staff_lines_of env in
    symbols ← detect_symbols env staff_lines;
    let symbols := apply_accidentals_to_notes symbols in
    let measures := group_symbols_by_measure symbols staff_lines in
    let bpm := 120 in
    midi ← generate_midi_file symbols bpm (write_ok env);
    mret (mkAnalysis bpm "4/4" "C major"
            (map (fun symbol =>
                    mkNoteView (pitch symbol)
                      (if Qeq_bool (duration symbol) 1 then "quarter" else "half")
                      (box symbol))
                 (filter (fun symbol => is_note_class (class symbol) = true) symbols))
            (length measures) (length symbols),
          midi).

Definition analyze_sheet_music (env : Env) : Response :=
  match analyze_try env with
  | Ok (analysis, midi) => Success analysis midi
  | Raise e => Error e
  end.

End App.

(** ** More Python primitives: [os.path.splitext], [str.lower], [str.rfind] *)

Module PyOs.

(** [p.rfind(c)] for a one-character [c]: the last index of [c], or -1. *)
Fixpoint rfind_from (c : ascii) (p : string) (i last : Z) : Z :=
  match p with
  | EmptyString => last
  | String x p' => rfind_from c p' (i + 1) (if Ascii.eqb x c then i else last)
  end.

Definition rfind (c : ascii) (p : string) : Z := rfind_from c p 0 (-1).

(** [p[i:j]] for [0 <= i <= j]. *)
Definition slice (p : string) (i j : Z) : string :=
  String.substring (Z.to_nat i) (Z.to_nat (j - i)) p.

(** Some character of [s] is not [c]. *)
Fixpoint has_other (c : ascii) (s : string) : bool :=
  match s with
  | EmptyString => false
  | String x s' => negb (Ascii.eqb x c) || has_other c s'
  end.

(** [os.path.splitext(p)] on POSIX ([genericpath._splitext] with [sep = '/'],
    no [altsep], [extsep = '.']): the extension starts at the last dot,
    provided that dot comes after the last slash and after some character of
    the file name that is not a dot. *)
Definition splitext (p : string) : string * string :=
  let sepIndex := rfind "/" p in
  let dotIndex := rfind "." p in
  if (sepIndex <? dotIndex) && has_other "." (slice p (sepIndex + 1) dotIndex)
  then (slice p 0 dotIndex, slice p dotIndex (Z.of_nat (String.length p)))
  else (p, EmptyString).

(** [c.lower()] and [s.lower()] on ASCII. *)
Definition lower_char (c : ascii) : ascii :=
  let n := nat_of_ascii c in
  if (65 <=? n)%nat && (n <=? 90)%nat then ascii_of_nat (n + 32) else c.

Fixpoint lower (s : string) : string :=
  match s with
  | EmptyString => EmptyString
  | String c s' => String (lower_char c) (lower s')
  end.

End PyOs.

(** ** utils/validation.py *)

Module Validation.

Definition ALLOWED_EXTENSIONS : gset string :=
  {[ ".jpg"; ".jpeg"; ".png"; ".bmp"; ".tiff" ]}.

Definition MAX_FILE_SIZE : Z := 10 * 1024 * 1024.

(** An uploaded file: its name and the position [file.tell()] reports at the
    end of the stream.  A [FileStorage] is true when its file name is. *)
Record FileStorage : Type := mkFileStorage {
  filename : string;
  stream_size : Z
}.

Definition truthy (file : FileStorage) : bool := negb (String.eqb (filename file) "").

Section Validate.

(** [werkzeug.utils.secure_filename], a function of the library, and the
    text of [', '.join(ALLOWED_EXTENSIONS)], which lists the extensions in
    the iteration order of the set. *)
Variable secure_filename : string -> string.
Variable allowed_listing : string.

Definition validate_upload_file (file : option FileStorage) : result bool :=
  match file with
  | None => Raise (ValueError "No file provided")
  | Some file =>
      if negb (truthy file) then Raise (ValueError "No file provided")
      else if String.eqb (filename file) "" then Raise (ValueError "No file selected")
      else
        let filename := secure_filename (filename file) in
        let file_ext := PyOs.lower (snd (PyOs.splitext filename)) in
        if negb (bool_decide (file_ext ∈ ALLOWED_EXTENSIONS))
        then Raise (ValueError ("File type " +:+ file_ext +:+ " not supported. Allowed: "
                                +:+ allowed_listing))
        else
          let file_size := stream_size file in
          if MAX_FILE_SIZE <? file_size
          then Raise (ValueError "File too large (max 10MB)")
          else Ok true
  end.

End Validate.

End Validation.

(** ** app.py: the endpoint *)

Module Api.

Import App Validation.

(** [get_cached_analysis]: the cache holds nothing. *)
Definition get_cached_analysis (image_hash : string) : option Response := None.

(** What the endpoint gets from the outside world besides the request: the
    outcome of saving the upload, the hash of the saved file or the failure
    to read it, and the world of the analysis. *)
Record Upload : Type := mkUpload {
  save_ok : bool;
  image_hash : result string;
  analysis_env : Env
}.

(** The JSON body of the answer. *)
Inductive Body : Type :=
| AnalysisBody (r : Response)
| ErrorBody (e : exn).

Section Endpoint.

Variable secure_filename : string -> string.
Variable allowed_listing : string.

(** The [try] block of [analyze_sheet_music_endpoint]. *)
Definition endpoint_try (file : option FileStorage) (upload : Upload) : result Response :=
  _ ← validate_upload_file secure_filename allowed_listing file;
  _ ← (if save_ok upload then Ok tt else Raise OSError);
  image_hash ← image_hash upload;
  match get_cached_analysis image_hash with
  | Some cached_result => Ok cached_result
  | None => Ok (analyze_sheet_music (analysis_env upload))
  end.

(** The body and the HTTP status of the answer. *)
Definition analyze_sheet_music_endpoint (file : option FileStorage) (upload : Upload)
  : Body * Z :=
  match endpoint_try file upload with
  | Ok r => (AnalysisBody r, 200)
  | Raise e => (ErrorBody e, 400)
  end.

End Endpoint.

End Api.

(** ** utils/prepare_dataset.py *)

Module PrepareDataset.

Definition CLASS_MAPPING : gmap string Z :=
  list_to_map [
    ("whole_note", 0); ("half_note", 1); ("quarter_note", 2); ("eighth_note", 3);
    ("sixteenth_note", 4); ("thirty_second_note", 5); ("sixty_fourth_note", 6);
    ("whole_rest", 7); ("half_rest", 8); ("quarter_rest", 9); ("eighth_rest", 10);
    ("sixteenth_rest", 11); ("thirty_second_rest", 12); ("sixty_fourth_rest", 13);
    ("treble_clef", 14); ("bass_clef", 15); ("alto_clef", 16); ("tenor_clef", 17);
    ("sharp", 18); ("flat", 19); ("natural", 20); ("double_sharp", 21); ("double_flat", 22);
    ("time_signature_2_4", 23); ("time_signature_3_4", 24); ("time_signature_4_4", 25);
    ("time_signature_6_8", 26); ("time_signature_9_8", 27); ("time_signature_12_8", 28);
    ("common_time", 29); ("cut_time", 30); ("bar_line", 31); ("double_bar_line", 32);
    ("repeat_start", 33); ("repeat_end", 34); ("tie", 35); ("slur", 36);
    ("beam", 37); ("dot", 38); ("staccato", 39); ("accent", 40);
    ("fermata", 41); ("trill", 42); ("mordent", 43); ("turn", 44);
    ("grace_note", 45); ("chord", 46)
  ].

(** A box of four numbers of the JSON file, Python floats: corners
    [x_min, y_min, x_max, y_max], a COCO box [x_min, y_min, width, height],
    or a YOLO box [x_center, y_center, width, height].  Every operation
    rounds its result to double precision. *)
Definition Box4 : Type := (Q * Q * Q * Q)%type.

Definition convert_to_yolo_format (img_width img_height : Z) (bbox : Box4)
  : result Box4 :=
  let '(x_min, y_min, x_max, y_max) := bbox in
  let x_center := Np.float64 (Np.float64 (x_min + x_max) / 2) in
  let y_center := Np.float64 (Np.float64 (y_min + y_max) / 2) in
  let width := Np.float64 (x_max - x_min) in
  let height := Np.float64 (y_max - y_min) in
  x_center ← Np.float64 <$> Py.float_div x_center (inject_Z img_width);
  y_center ← Np.float64 <$> Py.float_div y_center (inject_Z img_height);
  width ← Np.float64 <$> Py.float_div width (inject_Z img_width);
  height ← Np.float64 <$> Py.float_div height (inject_Z img_height);
  mret (x_center, y_center, width, height).

(** Lines 109-116 of [process_dataset]: the YOLO box of a COCO box. *)
Definition yolo_of_coco (img_width img_height : Z) (bbox : Box4) : result Box4 :=
  let '(x_min, y_min, width, height) := bbox in
  let x_max := Np.float64 (x_min + width) in
  let y_max := Np.float64 (y_min + height) in
  convert_to_yolo_format img_width img_height (x_min, y_min, x_max, y_max).

(** An annotation of the JSON file; the key ['image_id'] may be absent. *)
Record Annotation : Type := mkAnnotation {
  image_id : option Z;
  category_id : Z;
  ann_bbox : Box4
}.

(** Lines 65-71 of [process_dataset]: [ann_by_img]. *)
Definition group_step (ann_by_img : gmap Z (list Annotation)) (ann : Annotation)
  : gmap Z (list Annotation) :=
  match image_id ann with
  | Some img_id =>
      let ann_by_img :=
        match ann_by_img !! img_id with
        | None => <[img_id := []]> ann_by_img
        | Some _ => ann_by_img
        end in
      <[img_id := default [] (ann_by_img !! img_id) ++ [ann]]> ann_by_img
  | None => ann_by_img
  end.

Definition group_annotations (annotations : list Annotation) : gmap Z (list Annotation) :=
  fold_left group_step annotations ∅.

End PrepareDataset.

(** ** The specification's own vocabulary

    Definitions that follow the words of the specification, to be compared
    with the functions above. *)

Module Spec.

Import App.

(** Pitch: [{letter: A..G, accidental: {none, sharp, flat}, octave}]. *)
Inductive Letter : Type := LC | LD | LE | LF | LG | LA | LB.
Inductive Alteration : Type := NoAlteration | Sharp | Flat.

(** "standard 12-tone chromatic assignment (C=0 ... B=11, sharp +1, flat -1)" *)
Definition semitone_offset (l : Letter) (a : Alteration) : Z :=
  match l with
  | LC => 0 | LD => 2 | LE => 4 | LF => 5 | LG => 7 | LA => 9 | LB => 11
  end
  + match a with NoAlteration => 0 | Sharp => 1 | Flat => -1 end.

(** "number = (octave + 1) * 12 + semitoneOffset(letter, accidental),
    clamped into [0,127]" *)
Definition midi_number (l : Letter) (a : Alteration) (octave : Z) : Z :=
  Z.max 0 (Z.min 127 ((octave + 1) * 12 + semitone_offset l a)).

Definition letter_char (l : Letter) : ascii :=
  match l with
  | LC => "C" | LD => "D" | LE => "E" | LF => "F" | LG => "G" | LA => "A" | LB => "B"
  end%char.

(** The note name: the letter and the optional accidental. *)
Definition note_name (l : Letter) (a : Alteration) : string :=
  String (letter_char l)
    match a with NoAlteration => "" | Sharp => "#" | Flat => "b" end.

Definition digit_char (d : Z) : ascii := ascii_of_nat (Z.to_nat (48 + d)).

(** The well-formed pitch strings: letter, optional accidental, octave digit. *)
Definition pitch_string (l : Letter) (a : Alteration) (octave : Z) : string :=
  note_name l a +:+ String (digit_char octave) "".

Definition is_digit (c : ascii) : bool :=
  let n := Z.of_nat (nat_of_ascii c) in (48 <=? n) && (n <=? 57).

Definition is_letter (c : ascii) : bool :=
  let n := Z.of_nat (nat_of_ascii c) in (65 <=? n) && (n <=? 71).

Definition well_formed (pitch : string) : bool :=
  match pitch with
  | String l (String d "") => is_letter l && is_digit d
  | String l (String a (String d "")) =>
      is_letter l && (Ascii.eqb a "#" || Ascii.eqb a "b") && is_digit d
  | _ => false
  end.

(** "the vertical centers differ by <20px" and "the accidental's x is
    strictly left of the note's x" *)
Definition center_y (s : Symbol) : Q :=
  (inject_Z (by_ (box s)) + inject_Z (bh (box s)) / 2)%Q.

Definition in_window (note accidental : Symbol) : bool :=
  (bx (box accidental) <? bx (box note))
  && negb (Qle_bool 20 (Qabs (center_y accidental - center_y note))).

(** "the StaffSystem nearest to their vertical position": the distance of a
    height to the span of a staff, and the first staff at the least distance. *)
Definition staff_distance (y : Q) (staff : list Z) : Q :=
  let top := inject_Z (Py.min staff) in
  let bottom := inject_Z (Py.max staff) in
  if Qle_bool y top then (top - y)%Q
  else if Qle_bool bottom y then (y - bottom)%Q
  else 0%Q.

Fixpoint nearest_staff (y : Q) (first : list Z) (others : list (list Z)) : list Z :=
  match others with
  | [] => first
  | next :: others' =>
      let best := nearest_staff y next others' in
      if Qle_bool (staff_distance y first) (staff_distance y best) then first else best
  end.

(** "index = round(5 + (y - center)/spacing)", looked up in "the
    clef-specific pitch ladder", "default to middle-C-equivalent when the
    staff is empty or the index is out of range".  Halves are rounded to
    the even neighbour, as Python's [round] does. *)
Definition round (q : Q) : Z :=
  let f := Qfloor q in
  let r := (q - inject_Z f)%Q in
  if Qle_bool r (1 # 2)
  then (if Qeq_bool r (1 # 2) then (if Z.even f then f else f + 1) else f)
  else f + 1.

(** The entry of a pitch ladder at an index, "middle-C-equivalent when
    ... the index is out of range". *)
Definition ladder_lookup (ladder : list string) (index : Z) : string :=
  if (0 <=? index) && (index <? Z.of_nat (length ladder))
  then ladder !!! Z.to_nat index
  else "C4".

Definition pitch_of_position (y : Q) (staff_lines : list Z) (clef_type : string) : string :=
  match staff_lines with
  | [] => "C4"
  | _ =>
      let ladder := default treble_pitches (pitch_mapping !! clef_type) in
      let center :=
        (inject_Z (Py.sum staff_lines) / inject_Z (Z.of_nat (length staff_lines)))%Q in
      let spacing := (inject_Z (Py.max staff_lines - Py.min staff_lines) / 4)%Q in
      let index := round (5 + (y - center) / spacing)%Q in
      ladder_lookup ladder index
  end.

(** The pitch rule as it is corrected below: "top = min(staffLineYs),
    spacing = (max - min)/4, index = (y - top)/spacing truncated towards
    zero, looked up in the single 11-entry ladder F5 E5 D5 C5 B4 A4 G4 F4
    E4 D4 C4; the result is C4 when the staff is empty or the index is
    outside the ladder". *)
Definition truncate (q : Q) : Z := if Qle_bool 0 q then Qfloor q else Qceiling q.

Definition staff_ladder : list string :=
  ["F5"; "E5"; "D5"; "C5"; "B4"; "A4"; "G4"; "F4"; "E4"; "D4"; "C4"].

Definition staff_pitch (y : Q) (staff_lines : list Z) : string :=
  match staff_lines with
  | [] => "C4"
  | line :: lines =>
      let top := foldr Z.min line lines in
      let bottom := foldr Z.max line lines in
      let spacing := (inject_Z (bottom - top) / 4)%Q in
      let index := truncate ((y - inject_Z top) / spacing) in
      if index <? 0 then "C4" else nth (Z.to_nat index) staff_ladder "C4"
  end.

(** The rule of the specification with "truncated" for "round". *)
Definition truncated_pitch_of_position (y : Q) (staff_lines : list Z) (clef_type : string)
  : string :=
  match staff_lines with
  | [] => "C4"
  | _ =>
      let ladder := default treble_pitches (pitch_mapping !! clef_type) in
      let center :=
        (inject_Z (Py.sum staff_lines) / inject_Z (Z.of_nat (length staff_lines)))%Q in
      let spacing := (inject_Z (Py.max staff_lines - Py.min staff_lines) / 4)%Q in
      let index := truncate (5 + (y - center) / spacing)%Q in
      ladder_lookup ladder index
  end.

(** The duration of the note-like classes: the note values of the duration
    table, and the default of one beat for the grace note, which the table
    does not have. *)
Definition note_durations : list (string * Q) :=
  [ ("whole_note", 4); ("half_note", 2); ("quarter_note", 1); ("eighth_note", 1 # 2);
    ("sixteenth_note", 1 # 4); ("thirty_second_note", 1 # 8);
    ("sixty_fourth_note", 1 # 16); ("grace_note", 1) ]%Q.

(** "Rests": the rest kinds of the symbol table. *)
Definition is_rest_class (c : string) : bool := Py.str_contains "rest" c.

End Spec.

#[global] Arguments MUSICAL_SYMBOL_CLASSES : simpl never.
#[global] Arguments SYMBOL_DURATIONS : simpl never.
#[global] Arguments MidiGeneration.note_map : simpl never.
#[global] Arguments App.pitch_mapping : simpl never.

(** ** Sample inputs *)

Module Ex.

Import ImageProcessing.

Definition symbol (class : string) (x y w h : Z) (pitch : string) (duration : Q) : Symbol :=
  mkSymbol class 1 (mkBox x y w h) pitch duration None.

(** A tall sharp sign and a small note head with the same top edge. *)
Definition tall_sharp : Symbol := symbol "sharp" 150 100 20 80 "C4" 1.
Definition small_note : Symbol := symbol "quarter_note" 200 100 20 20 "C4" 1.

(** A sharp in front of a note of the fifth octave. *)
Definition sharp_sign : Symbol := symbol "sharp" 150 100 20 25 "C4" 1.
Definition note_E5 : Symbol := symbol "quarter_note" 200 100 20 25 "E5" 1.

(** A note to the left of the sharp. *)
Definition note_G4_left : Symbol := symbol "quarter_note" 100 100 20 25 "G4" 1.
Definition note_C4 : Symbol := symbol "quarter_note" 200 100 20 25 "C4" 1.
Definition flat_sign : Symbol := symbol "flat" 150 100 20 25 "C4" 1.
Definition natural_sign : Symbol := symbol "natural" 150 100 20 25 "C4" 1.

(** A note whose box starts at the x of the only bar line. *)
Definition bar_at_100 : Symbol := symbol "bar_line" 100 50 5 200 "C4" 1.
Definition note_at_100 : Symbol := symbol "quarter_note" 100 180 20 25 "E4" 1.
Definition bar_at_200 : Symbol := symbol "bar_line" 200 50 5 200 "C4" 1.

Definition staff_100 : list Z := [100; 150; 200; 250; 300].
Definition staff_500 : list Z := [500; 550; 600; 650; 700].

(** Full-width segments at the given heights. *)
Definition segments (ys : list Z) : list Line := map (fun y => mkLine 0 y 800 y) ys.

(** A quarter note whose box is centred at height [y]. *)
Definition quarter_at (y : Z) : Detection :=
  mkDetection 40 (inject_Z y - 10) 60 (inject_Z y + 10) (9 # 10) 2.

Definition grace_at (y : Z) : Detection :=
  mkDetection 40 (inject_Z y - 10) 60 (inject_Z y + 10) (9 # 10) 45.

(** A page with two staff systems and one quarter note inside the lower
    one; the predictor is loaded and the disk is writable. *)
Definition two_staff_page : App.Env :=
  App.mkEnv true 1000
    (Ok (Some (segments [100; 150; 200; 250; 300; 500; 550; 600; 650; 700])))
    (Some (Some [quarter_at 550])) true.

(** A blank page: the Hough transform finds nothing. *)
Definition blank_page : App.Env :=
  App.mkEnv true 1000 (Ok None) (Some (Some [quarter_at 230; grace_at 200])) true.

End Ex.

(** ** More sample inputs *)

Module Ex2.

Import ImageProcessing.

(** A sharp sign, a quarter note, a quarter rest and a grace note found on
    a blank page. *)
Definition sharp_detection : Detection := mkDetection 10 215 30 245 (8 # 10) 18.
Definition rest_detection : Detection := mkDetection 70 215 90 245 (7 # 10) 9.

Definition four_symbols : App.Env :=
  App.mkEnv true 1000 (Ok None)
    (Some (Some [sharp_detection; Ex.quarter_at 230; rest_detection; Ex.grace_at 200]))
    true.

(** Five segments at height 7 and one quarter note. *)
Definition flat_staff_page : App.Env :=
  App.mkEnv true 1000 (Ok (Some (Ex.segments [7; 7; 7; 7; 7])))
    (Some (Some [Ex.quarter_at 7])) true.

(** A sharp in front of a quarter note, on a blank page: the note is
    centred at height [y] and the sharp starts 5 pixels above it. *)
Definition sharp_before (y : Z) : App.Env :=
  App.mkEnv true 1000 (Ok None)
    (Some (Some [mkDetection 10 (inject_Z y - 15) 30 (inject_Z y + 15) (8 # 10) 18;
                 Ex.quarter_at y]))
    true.

(** A G of the fourth octave at the place of [Ex.note_E5]. *)
Definition note_G4 : Symbol := Ex.symbol "quarter_note" 200 100 20 25 "G4" 1.

(** A half note whose box is centred at height [y]. *)
Definition half_at (y : Z) : Detection :=
  mkDetection 40 (inject_Z y - 10) 60 (inject_Z y + 10) (9 # 10) 1.

(** A blank page with a half note. *)
Definition half_note_page : App.Env :=
  App.mkEnv true 1000 (Ok None) (Some (Some [half_at 230])) true.

(** No model was loaded. *)
Definition no_model (hough : result (option (list Line))) : App.Env :=
  App.mkEnv true 1000 hough None true.

End Ex2.

(** ** Auxiliary definitions *)

Import ImageProcessing MidiGeneration App.

(** The invariant of the inner loop of [apply_accidentals_to_notes]: what it
    holds is an accidental of the list, inside the window, at the distance
    it recorded. *)
Definition closest_inv (note : Symbol) (accidentals : list Symbol)
  (st : option Symbol * option Z) : Prop :=
  match st with
  | (None, None) => True
  | (Some a, Some distance) =>
      In a accidentals /\ in_window note a = true
      /\ distance = bx (box note) - bx (box a)
  | _ => False
  end.

(** The symbol dictionary that [process_detections_enhanced] builds for a
    detection of class [name], with its pitch left open. *)
Definition symbol_of (d : Detection) (name pitch : string) : Symbol :=
  mkSymbol name (conf d)
    (mkBox (Py.int_of_float (x1 d)) (Py.int_of_float (y1 d))
           (Py.int_of_float (Np.float32 (x2 d - x1 d)))
           (Py.int_of_float (Np.float32 (y2 d - y1 d))))
    pitch (default 1%Q (SYMBOL_DURATIONS !! name)) None.

(** What [int] raises on the quotient by the spacing of a staff whose lines
    are all at one height: 0 / 0 is [nan], anything else over 0 an
    infinity. *)
Definition nan_error : exn := ValueError "cannot convert float NaN to integer".
Definition infinity_error : exn :=
  OverflowError "cannot convert float infinity to integer".

Definition flat_staff_error (y : Q) (staff_lines : list Z) : exn :=
  if Qeq_bool (y - inject_Z (Py.min staff_lines)) 0 then nan_error else infinity_error.

(** The vertical centre of a detection, [center_y = (y1 + y2) / 2] in
    single precision. *)
Definition center_of (d : Detection) : Q :=
  Np.float32 (Np.float32 (y1 d + y2 d) / 2).

(** The candidate measure of the symbols with [lo <= x < hi], and the
    final candidate with [x > lo], as [group_symbols_by_measure] filters
    them out of [sorted_symbols]. *)
Definition measure_between (sorted_symbols : list Symbol) (lo hi : Z) : list Symbol :=
  filter (fun s => ((lo <=? bx (box s)) && (bx (box s) <? hi)
                    && not_bar_line_class s) = true)
         sorted_symbols.

Definition measure_after (sorted_symbols : list Symbol) (lo : Z) : list Symbol :=
  filter (fun s => ((lo <? bx (box s)) && not_bar_line_class s) = true) sorted_symbols.

(** Left to right: no symbol starts after a later one. *)
Definition left_to_right (symbols : list Symbol) : Prop :=
  StronglySorted (fun s t => bx (box s) <= bx (box t)) symbols.

(** The class name of a detection: [MUSICAL_SYMBOL_CLASSES.get(class_id,
    'unknown')]. *)
Definition class_of (d : Detection) : string :=
  default "unknown" (MUSICAL_SYMBOL_CLASSES !! cls d).

(** The box of a detection: [[int(x1), int(y1), int(width), int(height)]]. *)
Definition box_of (d : Detection) : Box :=
  mkBox (Py.int_of_float (x1 d)) (Py.int_of_float (y1 d))
        (Py.int_of_float (Np.float32 (x2 d - x1 d)))
        (Py.int_of_float (Np.float32 (y2 d - y1 d))).

(** The full invariant of the inner loop of [apply_accidentals_to_notes]
    over the accidentals [seen] so far: nothing is held while none of them is
    in the window, and otherwise the one held is in the window and no other
    of them in the window is nearer. *)
Definition closest_min_inv (note : Symbol) (seen : list Symbol)
  (st : option Symbol * option Z) : Prop :=
  match st with
  | (None, None) => forall a, In a seen -> in_window note a = false
  | (Some acc, Some distance) =>
      In acc seen /\ in_window note acc = true
      /\ distance = bx (box note) - bx (box acc)
      /\ forall a, In a seen -> in_window note a = true ->
                   distance <= bx (box note) - bx (box a)
  | _ => False
  end.

(** Notes played one after the other from [start] to [stop]: each begins
    where the one before ends. *)
Fixpoint chained (start : Q) (events : list NoteEvent) (stop : Q) : Prop :=
  match events with
  | [] => start = stop
  | e :: events' => ev_time e = start /\ chained (note_off e) events' stop
  end.

(** The one way the symbol stage can fail: the predictor found a note-like
    symbol and the lines of the first staff system are all at one height. *)
Definition zero_height_note (env : Env) : Prop :=
  exists boxes first others d,
    model env = Some (Some boxes) /\ staff_lines_of env = first :: others
    /\ Py.min first = Py.max first
    /\ In d boxes /\ is_note_class (class_of d) = true.

(** The annotations of one image, in the order of the file. *)
Definition annotations_of (img_id : Z) (annotations : list PrepareDataset.Annotation)
  : list PrepareDataset.Annotation :=
  List.filter (fun ann => bool_decide (PrepareDataset.image_id ann = Some img_id))
    annotations.

(** * Theorems *)

(** ** MidiEncoder: [pitch_to_midi_number] *)

Lemma digit_cases (o : Z) :
  0 <= o <= 9 ->
  o = 0 \/ o = 1 \/ o = 2 \/ o = 3 \/ o = 4 \/ o = 5 \/ o = 6 \/ o = 7 \/ o = 8 \/ o = 9.
Proof. lia. Qed.

Lemma pitch_to_midi_number_range (pitch : string) :
  0 <= pitch_to_midi_number pitch <= 127.
Proof.
  unfold pitch_to_midi_number.
  destruct (parse_pitch pitch) as [[[note octave]|]|]; lia.
Qed.

Lemma pitch_to_midi_number_bad_length (pitch : string) :
  String.length pitch <> 2%nat -> String.length pitch <> 3%nat ->
  pitch_to_midi_number pitch = 60.
Proof.
  destruct pitch as [|c0 [|c1 [|c2 [|c3 rest]]]]; cbn [String.length]; intros H2 H3;
    try reflexivity; congruence.
Qed.

Lemma parse_pitch_bad_octave (name : string) (c : ascii) :
  Spec.is_digit c = false ->
  parse_pitch (name +:+ String c "") = Ok None
  \/ exists e, parse_pitch (name +:+ String c "") = Raise e.
Proof.
  intros Hc.
  assert (Hraise : exists e, Py.int_of_char c = Raise e).
  { unfold Py.int_of_char. unfold Spec.is_digit in Hc. rewrite Hc. eauto. }
  destruct Hraise as [e He].
  unfold parse_pitch.
  destruct name as [|c0 [|c1 [|c2 rest]]]; simpl; rewrite ?He; eauto.
  destruct rest; eauto.
Qed.

Lemma pitch_to_midi_number_bad_octave (name : string) (c : ascii) :
  Spec.is_digit c = false ->
  pitch_to_midi_number (name +:+ String c "") = 60.
Proof.
  intros Hc. unfold pitch_to_midi_number.
  destruct (parse_pitch_bad_octave name c Hc) as [-> | [e ->]]; reflexivity.
Qed.

Lemma int_of_digit_char (o : Z) :
  0 <= o <= 9 -> Py.int_of_char (Spec.digit_char o) = Ok o.
Proof.
  intros Ho.
  destruct (digit_cases o Ho) as [-> | [-> | [-> | [-> | [-> | [-> | [-> | [-> | [-> | ->]]]]]]]]];
    reflexivity.
Qed.

Lemma parse_pitch_string (l : Spec.Letter) (a : Spec.Alteration) (o : Z) :
  0 <= o <= 9 ->
  parse_pitch (Spec.pitch_string l a o) = Ok (Some (Spec.note_name l a, o)).
Proof.
  intros Ho. unfold parse_pitch, Spec.pitch_string, Spec.note_name.
  destruct a; simpl; rewrite (int_of_digit_char o Ho); reflexivity.
Qed.

Lemma pitch_to_midi_number_parsed (l : Spec.Letter) (a : Spec.Alteration) (o : Z) :
  0 <= o <= 9 ->
  pitch_to_midi_number (Spec.pitch_string l a o)
  = 0 `max` (127 `min` ((o + 1) * 12 + default 0 (note_map !! Spec.note_name l a))).
Proof.
  intros Ho. unfold pitch_to_midi_number.
  rewrite (parse_pitch_string l a o Ho). reflexivity.
Qed.

(** The table holds the chromatic offset of every name it has. *)
Lemma note_map_lookup (l : Spec.Letter) (a : Spec.Alteration) :
  note_map !! Spec.note_name l a = None
  \/ note_map !! Spec.note_name l a = Some (Spec.semitone_offset l a).
Proof. destruct l, a; vm_compute; auto. Qed.

(** C6, the claim at fault: E sharp in octave 4 is well formed and should
    map to 65, but is not in [note_map] and maps to 60; and the malformed
    "H5" maps to 72, not to the default 60. *)
Lemma pitch_to_midi_number_counterexample :
  Spec.well_formed (Spec.pitch_string Spec.LE Spec.Sharp 4) = true
  /\ Spec.midi_number Spec.LE Spec.Sharp 4 = 65
  /\ pitch_to_midi_number (Spec.pitch_string Spec.LE Spec.Sharp 4) = 60
  /\ Spec.well_formed "H5" = false
  /\ pitch_to_midi_number "H5" = 72.
Proof. vm_compute. repeat split. Qed.

(** C6, amended: [pitch_to_midi_number] maps a pitch string made of a note
    name of its table (every letter with an optional sharp or flat, except
    E#, B#, Cb and Fb) and an octave digit to
    [(octave + 1) * 12 + semitoneOffset] clamped into [0,127], so that C4 is
    60, A4 is 69, C#4 is 61 and B3 is 59; it never raises, every result lies
    in [0,127], and it returns 60 for every string whose length is neither 2
    nor 3 or whose last character is not a decimal digit. *)
Theorem pitch_to_midi_number_spec :
  (forall l a o,
      0 <= o <= 9 ->
      note_map !! Spec.note_name l a <> None ->
      pitch_to_midi_number (Spec.pitch_string l a o) = Spec.midi_number l a o)
  /\ (pitch_to_midi_number "C4" = 60 /\ pitch_to_midi_number "A4" = 69
      /\ pitch_to_midi_number "C#4" = 61 /\ pitch_to_midi_number "B3" = 59)
  /\ (forall pitch,
         String.length pitch <> 2%nat -> String.length pitch <> 3%nat ->
         pitch_to_midi_number pitch = 60)
  /\ (forall name c,
         Spec.is_digit c = false ->
         pitch_to_midi_number (name +:+ String c "") = 60)
  /\ (forall pitch, 0 <= pitch_to_midi_number pitch <= 127).
Proof.
  split; [| split; [| split; [| split]]].
  - intros l a o Ho Hin.
    rewrite pitch_to_midi_number_parsed by exact Ho.
    unfold Spec.midi_number.
    destruct (note_map_lookup l a) as [Hnone | Hsome]; [contradiction |].
    rewrite Hsome. reflexivity.
  - vm_compute. repeat split.
  - apply pitch_to_midi_number_bad_length.
  - apply pitch_to_midi_number_bad_octave.
  - apply pitch_to_midi_number_range.
Qed.

Lemma pitch_to_midi_number_spec_witness :
  pitch_to_midi_number (Spec.pitch_string Spec.LG Spec.Sharp 9) = 127
  /\ pitch_to_midi_number "C#-1" = 60
  /\ pitch_to_midi_number ("E5" +:+ String "#"%char "") = 60.
Proof.
  destruct pitch_to_midi_number_spec as (Htable & _ & Hlength & Hoctave & _).
  split; [| split].
  - rewrite (Htable Spec.LG Spec.Sharp 9); [reflexivity | lia | vm_compute; discriminate].
  - apply Hlength; vm_compute; discriminate.
  - apply Hoctave. reflexivity.
Defined.

(** ** The symbol table *)

(** A property of every entry of [MUSICAL_SYMBOL_CLASSES], checked entry
    by entry. *)
Lemma symbol_class_cases (P : Z -> string -> bool) :
  forallb (fun e => P (fst e) (snd e)) (map_to_list MUSICAL_SYMBOL_CLASSES) = true ->
  forall id name, MUSICAL_SYMBOL_CLASSES !! id = Some name -> P id name = true.
Proof.
  intros Hall id name Hlookup.
  rewrite forallb_forall in Hall.
  apply (Hall (id, name)).
  apply list_elem_of_In, elem_of_map_to_list, Hlookup.
Qed.

(** The classes with ['note'] in their name are the seven note values and
    [grace_note]; no rest is among them. *)
Lemma note_class_ids (id : Z) (name : string) :
  MUSICAL_SYMBOL_CLASSES !! id = Some name ->
  is_note_class name = (0 <=? id) && (id <=? 6) || (id =? 45).
Proof.
  intros H.
  apply (symbol_class_cases
           (fun id name => Bool.eqb (is_note_class name)
                             ((0 <=? id) && (id <=? 6) || (id =? 45)))) in H.
  - apply Bool.eqb_prop, H.
  - vm_compute. reflexivity.
Qed.

Lemma rest_class_not_note (id : Z) (name : string) :
  MUSICAL_SYMBOL_CLASSES !! id = Some name ->
  Spec.is_rest_class name = true -> is_note_class name = false.
Proof.
  intros H.
  apply (symbol_class_cases
           (fun _ name => implb (Spec.is_rest_class name) (negb (is_note_class name)))) in H.
  - destruct (Spec.is_rest_class name), (is_note_class name); simpl in H; congruence.
  - vm_compute. reflexivity.
Qed.

(** ** MidiEncoder: the time cursor *)

Lemma midi_run_snoc (pre : list Symbol) (s : Symbol) :
  midi_run (pre ++ [s]) = midi_step (midi_run pre) s.
Proof. unfold midi_run. rewrite fold_left_app. reflexivity. Qed.

(** C2, the claim at fault: a quarter rest leaves the cursor at 0 instead of
    moving it to 1, and the note after it starts at 0. *)
Lemma midi_rest_counterexample :
  let rest := mkSymbol "quarter_rest" 1 (mkBox 10 180 20 25) "C4" 1 None in
  let note := mkSymbol "quarter_note" 1 (mkBox 40 180 20 25) "E4" 1 None in
  Spec.is_rest_class (class rest) = true
  /\ ~ (current_time (midi_run [rest]) == current_time midi_init + duration rest)%Q
  /\ map ev_time (events (midi_run [rest; note])) = [0%Q].
Proof.
  cbv zeta. split; [reflexivity | split; [| reflexivity]].
  vm_compute. discriminate.
Qed.

(** C2, amended: the time cursor starts at 0 beats; every note-like symbol
    produces a note-on at the current cursor position and a note-off after
    the cursor has advanced by that symbol's duration, with fixed velocity
    100; every other symbol, and so every rest of the symbol table, emits no
    event and leaves the cursor where it is. *)
Theorem midi_cursor_spec :
  current_time midi_init = 0%Q /\ events midi_init = []
  /\ (forall pre s,
         is_note_class (class s) = true ->
         exists ev,
           midi_run (pre ++ [s])
           = mkMidiState (events (midi_run pre) ++ [ev])
                         (current_time (midi_run pre) + duration s)%Q
           /\ ev_time ev = current_time (midi_run pre)
           /\ note_off ev = current_time (midi_run (pre ++ [s]))
           /\ ev_pitch ev = pitch_to_midi_number (pitch s)
           /\ ev_velocity ev = 100)
  /\ (forall pre s,
         is_note_class (class s) = false ->
         midi_run (pre ++ [s]) = midi_run pre)
  /\ (forall pre s id,
         MUSICAL_SYMBOL_CLASSES !! id = Some (class s) ->
         Spec.is_rest_class (class s) = true ->
         midi_run (pre ++ [s]) = midi_run pre).
Proof.
  split; [reflexivity | split; [reflexivity | split; [| split]]].
  - intros pre s Hnote.
    rewrite midi_run_snoc. unfold midi_step. rewrite Hnote.
    eexists. split; [reflexivity |]. cbn. repeat split.
  - intros pre s Hnote.
    rewrite midi_run_snoc. unfold midi_step. rewrite Hnote. reflexivity.
  - intros pre s id Hid Hrest.
    rewrite midi_run_snoc. unfold midi_step.
    rewrite (rest_class_not_note id (class s) Hid Hrest). reflexivity.
Qed.

Lemma midi_cursor_spec_witness :
  let rest := mkSymbol "half_rest" 1 (mkBox 10 180 20 25) "C4" 2 None in
  let note := mkSymbol "grace_note" 1 (mkBox 40 180 20 25) "A4" 1 None in
  midi_run ([note] ++ [rest]) = midi_run [note]
  /\ exists ev, events (midi_run ([rest] ++ [note])) = [ev] /\ ev_pitch ev = 69.
Proof.
  destruct midi_cursor_spec as (_ & _ & Hnote & _ & Hrest).
  cbv zeta. split.
  - apply (Hrest _ _ 8); reflexivity.
  - match goal with |- context [[?r] ++ [?n]] =>
      destruct (Hnote [r] n eq_refl) as (ev & Hrun & _ & _ & Hpitch & _)
    end.
    exists ev. rewrite Hrun. split; [reflexivity | exact Hpitch].
Defined.

(** ** AccidentalBinder *)

Lemma note_class_not_accidental (s : Symbol) :
  is_note_class (class s) = true -> is_accidental s = false.
Proof.
  intros Hnote. unfold is_accidental, accidental_classes, Py.str_in. cbn [existsb].
  destruct (String.eqb_spec (class s) "sharp") as [E | _];
    [rewrite E in Hnote; discriminate |].
  destruct (String.eqb_spec (class s) "flat") as [E | _];
    [rewrite E in Hnote; discriminate |].
  destruct (String.eqb_spec (class s) "natural") as [E | _];
    [rewrite E in Hnote; discriminate |].
  reflexivity.
Qed.

(** The inner loop keeps its state over accidentals outside the window. *)
Lemma closest_fold_outside (note : Symbol) (accidentals : list Symbol) :
  forall st,
    (forall a, In a accidentals -> in_window note a = false) ->
    fold_left (closest_step note) accidentals st = st.
Proof.
  induction accidentals as [| a accidentals IH]; intros st Hout; [reflexivity |].
  cbn [fold_left]. unfold closest_step at 2.
  rewrite (Hout a (or_introl eq_refl)).
  apply IH. intros a' Ha'. apply Hout. right. exact Ha'.
Qed.

Lemma closest_fold_inv (note : Symbol) (all : list Symbol) (accidentals : list Symbol) :
  forall st,
    (forall a, In a accidentals -> In a all) ->
    closest_inv note all st ->
    closest_inv note all (fold_left (closest_step note) accidentals st).
Proof.
  induction accidentals as [| a accidentals IH]; intros st Hsub Hinv; [exact Hinv |].
  cbn [fold_left]. apply IH; [intros a' Ha'; apply Hsub; right; exact Ha' |].
  unfold closest_step.
  destruct (in_window note a) eqn:Hwin; [| exact Hinv].
  assert (Hnew : closest_inv note all (Some a, Some (bx (box note) - bx (box a)))).
  { cbn. split; [apply Hsub; left; reflexivity | split; [exact Hwin | reflexivity]]. }
  destruct st as [closest [min_distance |]]; cbn [snd]; [| exact Hnew].
  destruct (bx (box note) - bx (box a) <? min_distance); [exact Hnew | exact Hinv].
Qed.

Lemma closest_accidental_outside (note : Symbol) (accidentals : list Symbol) :
  (forall a, In a accidentals -> in_window note a = false) ->
  closest_accidental note accidentals = None.
Proof.
  intros Hout. unfold closest_accidental.
  rewrite closest_fold_outside by exact Hout. reflexivity.
Qed.

Lemma closest_accidental_inside (note : Symbol) (accidentals : list Symbol) (acc : Symbol) :
  closest_accidental note accidentals = Some acc ->
  In acc accidentals /\ in_window note acc = true.
Proof.
  unfold closest_accidental. intros Hsome.
  pose proof (closest_fold_inv note accidentals accidentals (None, None)
                (fun a Ha => Ha) I) as Hinv.
  destruct (fold_left (closest_step note) accidentals (None, None))
    as [[a |] [distance |]]; cbn in Hsome, Hinv; try discriminate; try contradiction.
  injection Hsome as ->. tauto.
Qed.

Lemma apply_accidental_class (accidentals : list Symbol) (note : Symbol) :
  class (apply_accidental accidentals note) = class note.
Proof.
  unfold apply_accidental. destruct (closest_accidental note accidentals); reflexivity.
Qed.

Lemma accidentals_of_spec (symbols : list Symbol) (a : Symbol) :
  In a (accidentals_of symbols) <-> In a symbols /\ is_accidental a = true.
Proof.
  unfold accidentals_of. rewrite <- !list_elem_of_In, list_elem_of_filter. tauto.
Qed.

(** A note-like symbol stays in the output, at its place, after the update
    with the accidentals of the whole input. *)
Lemma apply_accidentals_at (pre post : list Symbol) (note : Symbol) :
  is_note_class (class note) = true ->
  let accidentals := accidentals_of (pre ++ note :: post) in
  apply_accidentals_to_notes (pre ++ note :: post)
  = filter (fun s => is_accidental s = false) (map (resolve_symbol accidentals) pre)
    ++ apply_accidental accidentals note
    :: filter (fun s => is_accidental s = false) (map (resolve_symbol accidentals) post).
Proof.
  intros Hnote accidentals. unfold apply_accidentals_to_notes.
  fold accidentals. rewrite map_app, filter_app. cbn [map].
  assert (Hres : resolve_symbol accidentals note = apply_accidental accidentals note).
  { unfold resolve_symbol. rewrite (note_class_not_accidental note Hnote), Hnote.
    reflexivity. }
  rewrite Hres, filter_cons_True; [reflexivity |].
  unfold is_accidental. rewrite apply_accidental_class.
  apply (note_class_not_accidental note Hnote).
Qed.

Lemma alter_pitch_octave_4 (l : Spec.Letter) :
  alter_pitch "#" (Spec.pitch_string l Spec.NoAlteration 4) = Spec.pitch_string l Spec.Sharp 4
  /\ alter_pitch "b" (Spec.pitch_string l Spec.NoAlteration 4) = Spec.pitch_string l Spec.Flat 4.
Proof. destruct l; split; reflexivity. Qed.

(** In the table, a sharpened name is one semitone above the plain one and a
    flattened name one semitone below. *)
Lemma altered_name_semitone (l : Spec.Letter) (a : Spec.Alteration) (o : Z) :
  0 <= o <= 8 ->
  note_map !! Spec.note_name l a <> None ->
  pitch_to_midi_number (Spec.pitch_string l a o)
  = pitch_to_midi_number (Spec.pitch_string l Spec.NoAlteration o)
    + match a with Spec.NoAlteration => 0 | Spec.Sharp => 1 | Spec.Flat => -1 end.
Proof.
  intros Ho Hin.
  rewrite !pitch_to_midi_number_parsed by lia.
  destruct (note_map_lookup l a) as [Hnone | ->]; [contradiction |].
  destruct (note_map_lookup l Spec.NoAlteration) as [Hnone | ->];
    [destruct l; vm_compute in Hnone; discriminate |].
  cbn [default from_option]. unfold Spec.semitone_offset.
  destruct l, a; cbn beta iota; unfold id; lia.
Qed.

(** What the binder does when it binds: the note stays at its place in the
    output with the class of the accidental recorded on it; a natural
    leaves the pitch string as it is; on a pitch made of a letter and the
    octave digit 4, a sharp writes '#' and a flat writes 'b' before the 4,
    which raises or lowers the MIDI number by one semitone whenever the new
    name is in the MIDI note table. *)
Lemma accidental_binder_binds (pre post : list Symbol) (note acc : Symbol) :
  is_note_class (class note) = true ->
  closest_accidental note (accidentals_of (pre ++ note :: post)) = Some acc ->
  let accidentals := accidentals_of (pre ++ note :: post) in
  let bound := apply_accidental accidentals note in
  apply_accidentals_to_notes (pre ++ note :: post)
  = filter (fun s => is_accidental s = false) (map (resolve_symbol accidentals) pre)
    ++ bound
    :: filter (fun s => is_accidental s = false) (map (resolve_symbol accidentals) post)
  /\ accidental bound = Some (class acc)
  /\ (class acc = "natural" -> pitch bound = pitch note)
  /\ (forall l,
         pitch note = Spec.pitch_string l Spec.NoAlteration 4 ->
         (class acc = "sharp" ->
          pitch bound = Spec.pitch_string l Spec.Sharp 4
          /\ (note_map !! Spec.note_name l Spec.Sharp <> None ->
              pitch_to_midi_number (pitch bound) = pitch_to_midi_number (pitch note) + 1))
         /\ (class acc = "flat" ->
             pitch bound = Spec.pitch_string l Spec.Flat 4
             /\ (note_map !! Spec.note_name l Spec.Flat <> None ->
                 pitch_to_midi_number (pitch bound) = pitch_to_midi_number (pitch note) - 1))).
Proof.
  intros Hnote Hclosest accidentals bound.
  split; [apply apply_accidentals_at, Hnote |].
  subst bound. unfold apply_accidental. fold accidentals in Hclosest. rewrite Hclosest.
  cbn [accidental pitch].
  split; [reflexivity |].
  split; [intros ->; reflexivity |].
  intros l Hpitch. rewrite Hpitch.
  destruct (alter_pitch_octave_4 l) as [Hsharp Hflat].
  split; intros ->; cbn [String.eqb Ascii.eqb Bool.eqb].
  - rewrite Hsharp. split; [reflexivity |].
    intros Hin. apply (altered_name_semitone l Spec.Sharp 4); [lia | exact Hin].
  - rewrite Hflat. split; [reflexivity |].
    intros Hin. apply (altered_name_semitone l Spec.Flat 4); [lia | exact Hin].
Qed.

(** C3: the binder adjusts the pitch by one semitone in the fourth octave
    only.  A sharp bound to G4 gives "G#4", MIDI 68, one above 67; the same
    sharp bound to E5 gives the string "E5#", which is no pitch and plays
    as 60, where one semitone above 76 is 77.  The same holds through the
    whole analysis of a page, and for every pitch of the fifth octave that
    the staff ladder has, with a sharp or a flat. *)
Theorem accidental_binder_octave_slip :
  (apply_accidentals_to_notes [Ex.sharp_sign; Ex.note_E5]
   = [mkSymbol "quarter_note" 1 (mkBox 200 100 20 25) "E5#" 1 (Some "sharp")]
   /\ pitch_to_midi_number "E5" = 76
   /\ pitch_to_midi_number "E5#" = 60
   /\ Spec.midi_number Spec.LE Spec.Sharp 5 = 77
   /\ Spec.well_formed "E5#" = false)
  /\ (apply_accidentals_to_notes [Ex.sharp_sign; Ex2.note_G4]
      = [mkSymbol "quarter_note" 1 (mkBox 200 100 20 25) "G#4" 1 (Some "sharp")]
      /\ pitch_to_midi_number "G4" = 67
      /\ pitch_to_midi_number "G#4" = 68)
  /\ (exists analysis midi,
         analyze_sheet_music (Ex2.sharp_before 160) = Success analysis midi
         /\ map nv_pitch (notes analysis) = ["E5#"] /\ map ev_pitch midi = [60])
  /\ (exists analysis midi,
         analyze_sheet_music (Ex2.sharp_before 410) = Success analysis midi
         /\ map nv_pitch (notes analysis) = ["G#4"] /\ map ev_pitch midi = [68])
  /\ (forall p,
         In p ["F5"; "E5"; "D5"; "C5"] ->
         pitch_to_midi_number (alter_pitch "#" p) = 60
         /\ pitch_to_midi_number (alter_pitch "b" p) = 60
         /\ 72 <= pitch_to_midi_number p).
Proof.
  split; [vm_compute; repeat split |].
  split; [vm_compute; repeat split |].
  split; [eexists; eexists; vm_compute; repeat split |].
  split; [eexists; eexists; vm_compute; repeat split |].
  intros p [<- | [<- | [<- | [<- | []]]]]; vm_compute; repeat split; discriminate.
Qed.

(** C9, the claim at fault: the centres of the tall sharp and of the small
    note are 30 pixels apart, so no accidental lies in the window of the
    claim, yet the note is sharpened, because the code compares the top
    edges of the boxes. *)
Lemma accidental_window_counterexample :
  accidentals_of [Ex.tall_sharp; Ex.small_note] = [Ex.tall_sharp]
  /\ Spec.in_window Ex.small_note Ex.tall_sharp = false
  /\ apply_accidentals_to_notes [Ex.tall_sharp; Ex.small_note]
     = [mkSymbol "quarter_note" 1 (mkBox 200 100 20 20) "C#4" 1 (Some "sharp")].
Proof. vm_compute. repeat split. Qed.

(** C9, amended: AccidentalBinder leaves a note completely unchanged (same
    pitch, no accidental recorded) whenever no accidental symbol of the
    input has its box x strictly less than the note's box x with the top
    edges y of the two boxes differing by less than 20 pixels. *)
Theorem accidental_binder_unchanged (pre post : list Symbol) (note : Symbol) :
  is_note_class (class note) = true ->
  (forall a,
      In a (pre ++ note :: post) -> is_accidental a = true ->
      ~ (bx (box a) < bx (box note) /\ Z.abs (by_ (box a) - by_ (box note)) < 20)) ->
  let accidentals := accidentals_of (pre ++ note :: post) in
  apply_accidental accidentals note = note
  /\ apply_accidentals_to_notes (pre ++ note :: post)
     = filter (fun s => is_accidental s = false) (map (resolve_symbol accidentals) pre)
       ++ note
       :: filter (fun s => is_accidental s = false) (map (resolve_symbol accidentals) post).
Proof.
  intros Hnote Hfar accidentals.
  assert (Hsame : apply_accidental accidentals note = note).
  { unfold apply_accidental. rewrite closest_accidental_outside; [reflexivity |].
    intros a Ha. apply accidentals_of_spec in Ha as [Hin Hacc].
    specialize (Hfar a Hin Hacc). unfold in_window.
    destruct (Z.ltb_spec (bx (box a)) (bx (box note))); [| reflexivity].
    destruct (Z.ltb_spec (Z.abs (by_ (box a) - by_ (box note))) 20); [| reflexivity].
    exfalso. apply Hfar. split; assumption. }
  split; [exact Hsame |].
  rewrite <- Hsame at 2. apply apply_accidentals_at, Hnote.
Qed.

Lemma accidental_binder_unchanged_witness :
  apply_accidentals_to_notes ([Ex.sharp_sign] ++ Ex.note_G4_left :: [])
  = [Ex.note_G4_left].
Proof.
  refine (eq_trans (proj2 (accidental_binder_unchanged [Ex.sharp_sign] [] Ex.note_G4_left
                             eq_refl _)) eq_refl).
  intros a [<- | [<- | []]] _; vm_compute; intros [H _]; discriminate H.
Defined.

(** ** [sorted] *)

Section SortedFacts.
Context {A : Type} (key : A -> Z).

Lemma insert_In (x y : A) (l : list A) :
  In y (Py.insert key x l) <-> y = x \/ In y l.
Proof.
  induction l as [| z l IH]; cbn [Py.insert In]; [intuition congruence |].
  destruct (key x <=? key z); cbn [In]; [intuition congruence |].
  rewrite IH. intuition congruence.
Qed.

Lemma sorted_In (y : A) (l : list A) :
  In y (Py.sorted key l) <-> In y l.
Proof.
  induction l as [| x l IH]; cbn [Py.sorted In]; [tauto |].
  rewrite insert_In, IH. intuition congruence.
Qed.

Lemma insert_ascending (x : A) (l : list A) :
  StronglySorted (fun a b => key a <= key b) l ->
  StronglySorted (fun a b => key a <= key b) (Py.insert key x l).
Proof.
  induction 1 as [| z l Hsorted IH Hz]; cbn [Py.insert].
  - constructor; constructor.
  - destruct (Z.leb_spec (key x) (key z)) as [Hle | Hgt].
    + constructor; [constructor; assumption |].
      constructor; [exact Hle |].
      rewrite List.Forall_forall in Hz |- *. intros b Hb. specialize (Hz b Hb). lia.
    + constructor; [exact IH |].
      rewrite List.Forall_forall in Hz |- *. intros b Hb.
      apply insert_In in Hb as [-> | Hb]; [lia | apply Hz, Hb].
Qed.

Lemma sorted_ascending (l : list A) :
  StronglySorted (fun a b => key a <= key b) (Py.sorted key l).
Proof.
  induction l as [| x l IH]; cbn [Py.sorted]; [constructor | apply insert_ascending, IH].
Qed.

(** [sorted] keeps the order of the elements with equal keys. *)
Lemma insert_before_equal (x : A) (l : list A) :
  Forall (fun y => key x <= key y) l -> Py.insert key x l = x :: l.
Proof.
  destruct l as [| y l]; [reflexivity |]. intros Hall.
  cbn [Py.insert]. apply Forall_inv in Hall.
  destruct (Z.leb_spec (key x) (key y)); [reflexivity | lia].
Qed.

Lemma sorted_of_ascending (l : list A) :
  StronglySorted (fun a b => key a <= key b) l -> Py.sorted key l = l.
Proof.
  induction 1 as [| x l Hsorted IH Hx]; [reflexivity |].
  cbn [Py.sorted]. rewrite IH. apply insert_before_equal, Hx.
Qed.

End SortedFacts.

(** ** MeasureSegmenter *)

Lemma filter_bool {A} (f : A -> bool) (l : list A) :
  filter (fun x => f x = true) l = List.filter f l.
Proof.
  induction l as [| x l IH]; [reflexivity |].
  rewrite filter_cons. cbn [List.filter]. rewrite IH.
  destruct (f x); case_decide; congruence.
Qed.

Lemma measure_between_cons (s : Symbol) (symbols : list Symbol) (lo hi : Z) :
  measure_between (s :: symbols) lo hi
  = (if (lo <=? bx (box s)) && (bx (box s) <? hi) && not_bar_line_class s
     then [s] else [])
    ++ measure_between symbols lo hi.
Proof.
  unfold measure_between. rewrite !filter_bool. cbn [List.filter].
  destruct ((lo <=? bx (box s)) && (bx (box s) <? hi) && not_bar_line_class s);
    reflexivity.
Qed.

Lemma measure_after_cons (s : Symbol) (symbols : list Symbol) (lo : Z) :
  measure_after (s :: symbols) lo
  = (if (lo <? bx (box s)) && not_bar_line_class s then [s] else [])
    ++ measure_after symbols lo.
Proof.
  unfold measure_after. rewrite !filter_bool. cbn [List.filter].
  destruct ((lo <? bx (box s)) && not_bar_line_class s); reflexivity.
Qed.

(** Nothing lies before [hi] in a list that starts at [hi] or later. *)
Lemma measure_between_none (symbols : list Symbol) (lo hi : Z) :
  Forall (fun s => hi <= bx (box s)) symbols ->
  measure_between symbols lo hi = [].
Proof.
  induction 1 as [| s symbols Hs _ IH]; [reflexivity |].
  rewrite measure_between_cons, IH.
  destruct (Z.ltb_spec (bx (box s)) hi); [lia |].
  rewrite andb_false_r. reflexivity.
Qed.

(** The lower bound does not matter below the first symbol. *)
Lemma measure_between_lower (symbols : list Symbol) (lo lo' hi : Z) :
  Forall (fun s => lo <= bx (box s) /\ lo' <= bx (box s)) symbols ->
  measure_between symbols lo hi = measure_between symbols lo' hi.
Proof.
  induction 1 as [| s symbols [Hlo Hlo'] _ IH]; [reflexivity |].
  rewrite !measure_between_cons, IH.
  destruct (Z.leb_spec lo (bx (box s))); [| lia].
  destruct (Z.leb_spec lo' (bx (box s))); [| lia].
  reflexivity.
Qed.

(** Two candidate measures that meet at [mid] make up the candidate over
    both intervals: the symbol at [mid] itself goes to the second one. *)
Lemma measure_between_split (symbols : list Symbol) (lo mid hi : Z) :
  left_to_right symbols -> lo <= mid -> mid <= hi ->
  measure_between symbols lo mid ++ measure_between symbols mid hi
  = measure_between symbols lo hi.
Proof.
  intros Hsorted Hlo Hhi.
  induction Hsorted as [| s symbols Hsorted IH Hs]; [reflexivity |].
  destruct (Z.lt_ge_cases (bx (box s)) mid) as [Hbefore | Hafter].
  - rewrite !measure_between_cons, <- IH.
    destruct (Z.leb_spec mid (bx (box s))); [lia |].
    destruct (Z.ltb_spec (bx (box s)) mid); [| lia].
    destruct (Z.ltb_spec (bx (box s)) hi); [| lia].
    cbn [andb app]. rewrite andb_true_r.
    destruct ((lo <=? bx (box s)) && not_bar_line_class s); reflexivity.
  - assert (Hall : Forall (fun t => mid <= bx (box t)) (s :: symbols)).
    { constructor; [exact Hafter |].
      rewrite List.Forall_forall in Hs |- *. intros t Ht. specialize (Hs t Ht).
      cbn beta in Hs. lia. }
    rewrite (measure_between_none _ lo mid Hall). cbn [app].
    apply measure_between_lower.
    rewrite List.Forall_forall in Hall |- *. intros t Ht. specialize (Hall t Ht).
    cbn beta in Hall. lia.
Qed.

(** On a list where no kept symbol is left of [lo] or at [mid], the
    candidate up to [mid] and the final candidate after [mid] are all the
    kept symbols. *)
Lemma measure_between_after (symbols : list Symbol) (lo mid : Z) :
  left_to_right symbols -> lo <= mid ->
  (forall s, In s symbols -> not_bar_line_class s = true ->
             lo <= bx (box s) /\ bx (box s) <> mid) ->
  measure_between symbols lo mid ++ measure_after symbols mid
  = List.filter not_bar_line_class symbols.
Proof.
  intros Hsorted Hlo.
  induction Hsorted as [| s symbols Hsorted IH Hs]; intros Hkept; [reflexivity |].
  rewrite measure_between_cons, measure_after_cons. cbn [List.filter].
  rewrite <- IH by (intros t Ht; apply Hkept; right; exact Ht).
  destruct (not_bar_line_class s) eqn:Hclass.
  - destruct (Hkept s (or_introl eq_refl) Hclass) as [Hs_lo Hs_mid].
    destruct (Z.leb_spec lo (bx (box s))); [| lia].
    destruct (Z.ltb_spec (bx (box s)) mid) as [Hbefore | Hafter];
      destruct (Z.ltb_spec mid (bx (box s))); try lia; cbn [andb app].
    + reflexivity.
    + assert (Hall : Forall (fun t => mid <= bx (box t)) symbols).
      { rewrite List.Forall_forall in Hs |- *. intros t Ht. specialize (Hs t Ht).
        cbn beta in Hs. lia. }
      rewrite (measure_between_none _ lo mid Hall). reflexivity.
  - rewrite !andb_false_r. reflexivity.
Qed.

Lemma measure_between_empty (symbols : list Symbol) (lo : Z) :
  measure_between symbols lo lo = [].
Proof.
  induction symbols as [| s symbols IH]; [reflexivity |].
  rewrite measure_between_cons, IH.
  destruct (Z.leb_spec lo (bx (box s))), (Z.ltb_spec (bx (box s)) lo);
    try lia; reflexivity.
Qed.

(** One bar line: the candidate measure up to the bar joins the measures
    unless it is empty, and the next measure starts at the bar. *)
Lemma measure_step_spec
  (sorted_symbols : list Symbol) (measures : list (list Symbol)) (measure_start : Z)
  (bar_line : Symbol) :
  snd (measure_step sorted_symbols (measures, measure_start) bar_line) = bx (box bar_line)
  /\ concat (fst (measure_step sorted_symbols (measures, measure_start) bar_line))
     = concat measures ++ measure_between sorted_symbols measure_start (bx (box bar_line)).
Proof.
  unfold measure_step.
  change (filter _ sorted_symbols)
    with (measure_between sorted_symbols measure_start (bx (box bar_line))).
  split; [reflexivity |]. cbn [fst].
  destruct (measure_between sorted_symbols measure_start (bx (box bar_line))) as [| s m].
  - rewrite app_nil_r. reflexivity.
  - rewrite concat_app. cbn [concat]. rewrite app_nil_r. reflexivity.
Qed.

Lemma left_to_right_filter (f : Symbol -> bool) (symbols : list Symbol) :
  left_to_right symbols -> left_to_right (List.filter f symbols).
Proof.
  induction 1 as [| s symbols Hsorted IH Hs]; cbn [List.filter]; [constructor |].
  destruct (f s); [| exact IH].
  constructor; [exact IH |].
  rewrite List.Forall_forall in Hs |- *. intros t Ht.
  apply filter_In in Ht as [Ht _]. apply Hs, Ht.
Qed.

(** The last symbol of a left-to-right list is the rightmost one. *)
Lemma left_to_right_last (symbols : list Symbol) (rightmost : Symbol) :
  left_to_right symbols -> last symbols = Some rightmost ->
  forall s, In s symbols -> bx (box s) <= bx (box rightmost).
Proof.
  induction 1 as [| t symbols Hsorted IH Ht]; [discriminate |].
  intros Hlast s [<- | Hs].
  - destruct symbols as [| t' symbols].
    + injection Hlast as <-. lia.
    + rewrite last_cons_cons in Hlast.
      rewrite List.Forall_forall in Ht. apply Ht.
      apply last_Some_elem_of, list_elem_of_In in Hlast. exact Hlast.
  - destruct symbols as [| t' symbols]; [contradiction |].
    rewrite last_cons_cons in Hlast. apply IH; assumption.
Qed.

(** The loop over the bar lines: the measures it adds are, joined end to
    end, the candidate from the first start to the last bar line. *)
Lemma measures_fold (sorted_symbols bar_lines : list Symbol) :
  left_to_right sorted_symbols -> left_to_right bar_lines ->
  forall measures measure_start,
    Forall (fun b => measure_start <= bx (box b)) bar_lines ->
    let st := fold_left (measure_step sorted_symbols) bar_lines (measures, measure_start) in
    snd st = from_option (fun b => bx (box b)) measure_start (last bar_lines)
    /\ measure_start <= snd st
    /\ concat (fst st)
       = concat measures ++ measure_between sorted_symbols measure_start (snd st).
Proof.
  intros Hsorted Hbars.
  induction Hbars as [| b bar_lines Hbars IH Hb]; intros measures measure_start Hstart.
  - cbn. rewrite measure_between_empty, app_nil_r. repeat split; lia.
  - cbn [fold_left].
    destruct (measure_step_spec sorted_symbols measures measure_start b) as [Hnext Hconcat].
    destruct (measure_step sorted_symbols (measures, measure_start) b)
      as [measures1 start1]. cbn [fst snd] in Hnext, Hconcat. subst start1.
    destruct (IH measures1 (bx (box b)) Hb) as (Hlast & Hle & Hjoin).
    apply Forall_inv in Hstart.
    split; [| split].
    + rewrite Hlast, last_cons. destruct (last bar_lines); reflexivity.
    + lia.
    + rewrite Hjoin, Hconcat, <- app_assoc.
      rewrite measure_between_split by (assumption || lia). reflexivity.
Qed.

Lemma filter_none_all {A} (f : A -> bool) (l : list A) :
  List.filter f l = [] -> List.filter (fun x => negb (f x)) l = l.
Proof.
  induction l as [| x l IH]; [reflexivity |]. cbn [List.filter].
  destruct (f x); [discriminate |]. intros Hnone. cbn [negb]. rewrite IH by exact Hnone.
  reflexivity.
Qed.

(** X14: Where [group_symbols_by_measure] is a partition: pixel coordinates are
    not negative, the class names are such that the two bar-line tests of
    the code agree, and no other symbol starts at the x of the last bar
    line.  The measures, joined in order, are then the sorted symbols
    without the bar lines. *)
Lemma measures_partition (symbols : list Symbol) (staff_lines : list (list Z)) :
  (forall s, In s symbols -> 0 <= bx (box s)) ->
  (forall s, In s symbols -> not_bar_line_class s = negb (is_bar_line s)) ->
  (forall s b,
      In s symbols -> In b symbols ->
      is_bar_line s = false -> is_bar_line b = true ->
      bx (box s) = bx (box b) ->
      exists b', In b' symbols /\ is_bar_line b' = true /\ bx (box b) < bx (box b')) ->
  concat (group_symbols_by_measure symbols staff_lines)
  = List.filter (fun s => negb (is_bar_line s)) (Py.sorted (fun s => bx (box s)) symbols).
Proof.
  intros Hpixel Hclass Hlast.
  unfold group_symbols_by_measure.
  set (sorted_symbols := Py.sorted (fun s => bx (box s)) symbols).
  assert (Hsorted : left_to_right sorted_symbols) by apply sorted_ascending.
  assert (Hin : forall s, In s sorted_symbols <-> In s symbols)
    by (intros s; apply sorted_In).
  rewrite filter_bool.
  set (bar_lines := List.filter is_bar_line sorted_symbols).
  assert (Hbars : left_to_right bar_lines) by apply left_to_right_filter, Hsorted.
  destruct (last bar_lines) as [last_bar |] eqn:Hlast_bar.
  - assert (Hbar : In last_bar sorted_symbols /\ is_bar_line last_bar = true).
    { apply filter_In. apply last_Some_elem_of, list_elem_of_In in Hlast_bar.
      exact Hlast_bar. }
    destruct (measures_fold sorted_symbols bar_lines Hsorted Hbars [] 0)
      as (Hend & _ & Hjoin).
    { apply List.Forall_forall. intros b Hb. apply filter_In in Hb as [Hb _].
      apply Hpixel, Hin, Hb. }
    rewrite Hlast_bar in Hend. cbn [from_option] in Hend.
    destruct (fold_left (measure_step sorted_symbols) bar_lines ([], 0))
      as [measures measure_end]. cbn [fst snd concat app] in Hend, Hjoin. subst measure_end.
    change (filter _ sorted_symbols) with (measure_after sorted_symbols (bx (box last_bar))).
    assert (Hall : concat measures ++ measure_after sorted_symbols (bx (box last_bar))
                   = List.filter not_bar_line_class sorted_symbols).
    { rewrite Hjoin. apply measure_between_after; [exact Hsorted | |].
      - apply Hpixel, Hin, Hbar.
      - intros s Hs Hkept. split; [apply Hpixel, Hin, Hs |].
        intros Hsame.
        assert (Hs_class : is_bar_line s = false).
        { rewrite (Hclass s) in Hkept by (apply Hin, Hs).
          destruct (is_bar_line s); [discriminate | reflexivity]. }
        destruct (Hlast s last_bar) as (b' & Hb' & Hb'_class & Hb'_right);
          [apply Hin, Hs | apply Hin, Hbar | exact Hs_class | apply Hbar | exact Hsame |].
        assert (Hb'_bar : In b' bar_lines)
          by (apply filter_In; split; [apply Hin, Hb' | exact Hb'_class]).
        pose proof (left_to_right_last bar_lines last_bar Hbars Hlast_bar b' Hb'_bar).
        lia. }
    rewrite (filter_ext_in (fun s => negb (is_bar_line s)) not_bar_line_class)
      by (intros s Hs; symmetry; apply Hclass, Hin, Hs).
    rewrite <- Hall.
    destruct (measure_after sorted_symbols (bx (box last_bar))) as [| s m].
    + rewrite app_nil_r. reflexivity.
    + rewrite concat_app. cbn [concat]. rewrite app_nil_r. reflexivity.
  - apply last_None in Hlast_bar. cbn [concat]. rewrite app_nil_r.
    symmetry. apply filter_none_all, Hlast_bar.
Qed.

(** C1, where the code leaves the claim: a note whose box starts at the x of
    the last bar line is in no measure at all, as the measure before the
    bar takes [x < bar_x] and the final measure [x > bar_x]; the same note
    is kept, in the measure that starts at its bar, once another bar line
    follows. *)
Theorem measure_segmenter_drops_symbol :
  Py.sorted (fun s => bx (box s)) [Ex.bar_at_100; Ex.note_at_100]
  = [Ex.bar_at_100; Ex.note_at_100]
  /\ not_bar_line_class Ex.note_at_100 = true
  /\ group_symbols_by_measure [Ex.bar_at_100; Ex.note_at_100] [Ex.staff_100] = []
  /\ group_symbols_by_measure [Ex.bar_at_100; Ex.note_at_100; Ex.bar_at_200] [Ex.staff_100]
     = [[Ex.note_at_100]].
Proof. vm_compute. repeat split. Qed.

(** ** StaffLineDetector *)

Lemma mean_of_four (a b c d : Z) :
  (avg_spacing_of [a; b; c; d]
   == (inject_Z a + inject_Z b + inject_Z c + inject_Z d) / 4)%Q.
Proof.
  unfold avg_spacing_of, Py.sum. cbn [fold_left length].
  rewrite !inject_Z_plus.
  change (inject_Z (Z.of_nat 4)) with 4%Q. change (inject_Z 0) with 0%Q.
  field.
Qed.

(** A spacing that passes the test of the loop is within 20 % of the mean. *)
Lemma spacing_within (a b c d spacing : Z) :
  spacing_off (avg_spacing_of [a; b; c; d]) spacing = false ->
  let mean := ((inject_Z a + inject_Z b + inject_Z c + inject_Z d) / 4)%Q in
  (Qabs (inject_Z spacing - mean) <= (20 # 100) * mean)%Q.
Proof.
  unfold spacing_off. intros Hoff. cbv zeta.
  apply negb_false_iff, Qle_bool_iff in Hoff.
  rewrite mean_of_four in Hoff.
  set (mean := ((inject_Z a + inject_Z b + inject_Z c + inject_Z d) / 4)%Q) in *.
  clearbody mean.
  rewrite Qabs_Qle_condition in *. lra.
Qed.

Lemma validate_staff_spacing_sound (system : list Z) :
  validate_staff_spacing system = true ->
  length system = 5%nat
  /\ forall i, (i < 4)%nat ->
       let spacing k := inject_Z (system !!! S k - system !!! k) in
       let mean :=
         ((spacing 0%nat + spacing 1%nat + spacing 2%nat + spacing 3%nat) / 4)%Q in
       (Qabs (spacing i - mean) <= (20 # 100) * mean)%Q.
Proof.
  unfold validate_staff_spacing.
  destruct (Nat.eqb_spec (length system) 5) as [Hlen | _]; [| discriminate].
  cbn [negb]. intros Hvalid. split; [exact Hlen |].
  destruct system as [| l0 [| l1 [| l2 [| l3 [| l4 [| l5 rest]]]]]]; try discriminate.
  apply negb_true_iff in Hvalid.
  change (spacings_of [l0; l1; l2; l3; l4])
    with [l1 - l0; l2 - l1; l3 - l2; l4 - l3] in Hvalid.
  cbn [existsb] in Hvalid.
  repeat (apply orb_false_iff in Hvalid; destruct Hvalid as [? Hvalid]).
  intros i Hi.
  destruct i as [| [| [| [| i]]]]; [| | | | lia];
    apply (spacing_within (l1 - l0) (l2 - l1) (l3 - l2) (l4 - l3)); assumption.
Qed.

Lemma group_loop_valid (horizontal_lines : list Z) (i : nat) (system : list Z) :
  In system (group_loop horizontal_lines i) ->
  validate_staff_spacing system = true.
Proof.
  funelim (group_loop horizontal_lines i); intros Hin.
  - contradiction.
  - destruct Hin as [<- | Hin]; [assumption | auto].
  - auto.
Qed.

(** C7: every staff system returned by the grouping has exactly 5 line
    coordinates, and each of its four consecutive spacings deviates from
    the mean of the four by at most 20 % of that mean. *)
Theorem staff_systems_evenly_spaced
  (lines : option (list Line)) (image_height : Z) (system : list Z) :
  In system (group_staff_lines lines image_height) ->
  length system = 5%nat
  /\ forall i, (i < 4)%nat ->
       let spacing k := inject_Z (system !!! S k - system !!! k) in
       let mean :=
         ((spacing 0%nat + spacing 1%nat + spacing 2%nat + spacing 3%nat) / 4)%Q in
       (Qabs (spacing i - mean) <= (20 # 100) * mean)%Q.
Proof.
  intros Hin. apply validate_staff_spacing_sound.
  destruct lines as [lines |]; [| contradiction].
  exact (group_loop_valid _ _ _ Hin).
Qed.

Lemma staff_systems_evenly_spaced_witness :
  group_staff_lines
    (Some (Ex.segments [300; 100; 150; 700; 200; 250; 7; 500; 550; 600; 650])) 1000
  = [Ex.staff_100; Ex.staff_500]
  /\ length Ex.staff_500 = 5%nat.
Proof.
  split; [reflexivity |].
  refine (proj1 (staff_systems_evenly_spaced
                   (Some (Ex.segments [300; 100; 150; 700; 200; 250; 7; 500; 550; 600; 650]))
                   1000 Ex.staff_500 _)).
  vm_compute. right. left. reflexivity.
Defined.

(** ** numpy rounding *)

Ltac name_injections :=
  repeat match goal with
    | |- context [inject_Z ?z] =>
        let v := fresh "v" in set (v := inject_Z z) in *; clearbody v
    | H : context [inject_Z ?z] |- _ =>
        let v := fresh "v" in set (v := inject_Z z) in *; clearbody v
    end.

(** Quotients of integers. *)

Lemma inject_Z_nonzero (b : Z) : 0 < b -> ~ (inject_Z b == 0)%Q.
Proof. intros Hb. unfold Qeq, inject_Z. cbn. lia. Qed.

Lemma Qdiv_inject_eq (a b c d : Z) :
  0 < b -> 0 < d -> a * d = c * b ->
  (inject_Z a / inject_Z b == inject_Z c / inject_Z d)%Q.
Proof.
  intros Hb Hd Heq.
  pose proof (inject_Z_nonzero b Hb). pose proof (inject_Z_nonzero d Hd).
  apply (Qmult_inj_r _ _ (inject_Z b * inject_Z d)).
  { intros Hz. apply Qmult_integral in Hz. tauto. }
  transitivity (inject_Z (a * d)); [rewrite inject_Z_mult; field; assumption |].
  rewrite Heq, inject_Z_mult. field. assumption.
Qed.

Lemma Qdiv_mult_inject (a b c e : Z) :
  0 < b -> a * c = e * b ->
  (inject_Z a / inject_Z b * inject_Z c == inject_Z e)%Q.
Proof.
  intros Hb Heq. pose proof (inject_Z_nonzero b Hb).
  apply (Qmult_inj_r _ _ (inject_Z b)); [assumption |].
  transitivity (inject_Z (a * c)); [rewrite inject_Z_mult; field; assumption |].
  rewrite Heq, inject_Z_mult. reflexivity.
Qed.

Lemma Qdiv_inject_multiple (a b n c d : Z) :
  0 < b -> 0 < d -> a * d = n * c * b ->
  (inject_Z a / inject_Z b == inject_Z n * (inject_Z c / inject_Z d))%Q.
Proof.
  intros Hb Hd Heq.
  rewrite (Qdiv_inject_eq a b (n * c) d Hb Hd Heq), inject_Z_mult.
  field. apply inject_Z_nonzero, Hd.
Qed.

Lemma Qabs_div_inject (a b : Z) :
  0 < b -> (Qabs (inject_Z a / inject_Z b) == inject_Z (Z.abs a) / inject_Z b)%Q.
Proof.
  intros Hb. unfold Qdiv. rewrite Qabs_Qmult.
  rewrite (Qabs_pos (/ inject_Z b)); [reflexivity |].
  apply Qlt_le_weak, Qinv_lt_0_compat. rewrite <- (Zlt_Qlt 0). exact Hb.
Qed.

Lemma inject_Z_lt_succ (a b : Z) : (inject_Z a < inject_Z b + 1)%Q -> a <= b.
Proof. unfold Qlt, Qplus, inject_Z. cbn. lia. Qed.

(** Rounding to the nearest integer. *)

Ltac read_comparison H :=
  match type of H with
  | _ = Eq => apply (proj2 (Qeq_alt _ _)) in H
  | _ = Lt => apply (proj2 (Qlt_alt _ _)) in H
  | _ = Gt => apply (proj2 (Qgt_alt _ _)) in H
  end.

Lemma round_half_even_Qeq (q q' : Q) :
  (q == q')%Q -> Np.round_half_even q = Np.round_half_even q'.
Proof.
  intros Heq. unfold Np.round_half_even.
  rewrite (Qfloor_comp _ _ Heq).
  assert (Hcmp : ((q - inject_Z (Qfloor q') ?= 1 # 2) = (q' - inject_Z (Qfloor q') ?= 1 # 2))%Q).
  { apply Qcompare_comp; [rewrite Heq |]; reflexivity. }
  rewrite Hcmp. reflexivity.
Qed.

Lemma round_half_even_Z (n : Z) : Np.round_half_even (inject_Z n) = n.
Proof.
  unfold Np.round_half_even. rewrite Qfloor_Z.
  assert (Hcmp : ((inject_Z n - inject_Z n ?= 1 # 2) = Lt)%Q).
  { rewrite <- Qlt_alt. name_injections. lra. }
  rewrite Hcmp. reflexivity.
Qed.

Lemma floor_bounds (q : Q) :
  (inject_Z (Qfloor q) <= q)%Q /\ (q < inject_Z (Qfloor q) + 1)%Q.
Proof.
  split; [apply Qfloor_le |].
  pose proof (Qlt_floor q) as Hhi. rewrite inject_Z_plus in Hhi. exact Hhi.
Qed.

Lemma round_half_even_monotone (q q' : Q) :
  (q <= q')%Q -> Np.round_half_even q <= Np.round_half_even q'.
Proof.
  intros Hle. unfold Np.round_half_even.
  pose proof (Qfloor_resp_le _ _ Hle) as Hfloor.
  destruct (floor_bounds q) as [Hlo Hhi]. destruct (floor_bounds q') as [Hlo' Hhi'].
  destruct (Z.eq_dec (Qfloor q) (Qfloor q')) as [Heq | Hne].
  - rewrite <- Heq in *.
    destruct (q - inject_Z (Qfloor q) ?= 1 # 2)%Q eqn:Hcmp;
      destruct (q' - inject_Z (Qfloor q) ?= 1 # 2)%Q eqn:Hcmp';
      read_comparison Hcmp; read_comparison Hcmp';
      destruct (Z.even (Qfloor q)); try lia; exfalso; name_injections; lra.
  - assert (Hlt : Qfloor q + 1 <= Qfloor q') by lia.
    destruct (q - inject_Z (Qfloor q) ?= 1 # 2)%Q;
      destruct (q' - inject_Z (Qfloor q') ?= 1 # 2)%Q;
      destruct (Z.even (Qfloor q)); destruct (Z.even (Qfloor q')); lia.
Qed.

(** Rounding to a binary format. *)

Section Format.

Variables prec least : Z.
Hypothesis prec_pos : 0 < prec.
Hypothesis least_nonneg : 0 <= least.

Lemma pow2_pos (n : Z) : 0 <= n -> (0 < inject_Z (2 ^ n))%Q.
Proof. intros Hn. rewrite <- (Zlt_Qlt 0). apply Z.pow_pos_nonneg; lia. Qed.

Lemma ulp_pos (q : Q) : (0 < Np.ulp prec least q)%Q.
Proof.
  unfold Np.ulp. apply Qlt_shift_div_l; [apply pow2_pos, least_nonneg |].
  rewrite Qmult_0_l. apply pow2_pos. lia.
Qed.

Lemma ulp_Qeq (q q' : Q) : (q == q')%Q -> Np.ulp prec least q = Np.ulp prec least q'.
Proof.
  intros Heq. unfold Np.ulp.
  assert (Ht : Qfloor (Qabs q * inject_Z (2 ^ least))
               = Qfloor (Qabs q' * inject_Z (2 ^ least))).
  { apply Qfloor_comp. rewrite Heq. reflexivity. }
  rewrite Ht. reflexivity.
Qed.

Lemma round_Qeq (q q' : Q) : (q == q')%Q -> Np.round prec least q = Np.round prec least q'.
Proof.
  intros Heq. unfold Np.round. rewrite (ulp_Qeq q q' Heq).
  rewrite (round_half_even_Qeq (q / Np.ulp prec least q') (q' / Np.ulp prec least q'));
    [reflexivity |].
  rewrite Heq. reflexivity.
Qed.

(** A multiple of its own unit is not changed. *)
Lemma round_multiple (q : Q) (n : Z) :
  (q == inject_Z n * Np.ulp prec least q)%Q -> (Np.round prec least q == q)%Q.
Proof.
  intros Hq. unfold Np.round.
  pose proof (ulp_pos q) as Hu.
  rewrite (round_half_even_Qeq (q / Np.ulp prec least q) (inject_Z n)).
  - symmetry. rewrite round_half_even_Z. exact Hq.
  - rewrite Hq at 1. field. lra.
Qed.

(** The numbers [m * 2^k / 2^j] with a significand [m] of [prec] bits and
    [j] not beyond the least exponent are numbers of the format. *)
Lemma round_representable (m k j : Z) :
  Z.abs m < 2 ^ prec -> 0 <= k -> 0 <= j <= least ->
  (Np.round prec least (inject_Z (m * 2 ^ k) / inject_Z (2 ^ j))
   == inject_Z (m * 2 ^ k) / inject_Z (2 ^ j))%Q.
Proof.
  intros Hm Hk Hj.
  set (q := (inject_Z (m * 2 ^ k) / inject_Z (2 ^ j))%Q).
  assert (Hpj : 0 < 2 ^ j) by (apply Z.pow_pos_nonneg; lia).
  assert (Hpl : 0 < 2 ^ least) by (apply Z.pow_pos_nonneg; lia).
  set (r := k + (least - j)).
  assert (Hr : 2 ^ k * 2 ^ least = 2 ^ r * 2 ^ j).
  { unfold r. rewrite <- !Z.pow_add_r by lia. f_equal. lia. }
  assert (Ht : Qfloor (Qabs q * inject_Z (2 ^ least)) = Z.abs m * 2 ^ r).
  { rewrite <- (Qfloor_Z (Z.abs m * 2 ^ r)). apply Qfloor_comp.
    unfold q. rewrite Qabs_div_inject by exact Hpj.
    apply Qdiv_mult_inject; [exact Hpj |].
    rewrite Z.abs_mul, (Z.abs_eq (2 ^ k)) by (apply Z.pow_nonneg; lia).
    rewrite <- !Z.mul_assoc, Hr. reflexivity. }
  set (shift := Z.max 0 (Z.log2 (Z.abs m * 2 ^ r) + 1 - prec)).
  assert (Hshift : 0 <= shift <= r).
  { unfold shift. split; [lia |].
    assert (Hr0 : 0 <= r) by (unfold r; lia).
    destruct (Z.eq_dec m 0) as [-> | Hm0];
      [change (Z.abs 0) with 0; rewrite Z.mul_0_l; change (Z.log2 0) with 0; lia |].
    rewrite Z.log2_mul_pow2 by lia.
    assert (Z.log2 (Z.abs m) < prec) by (apply Z.log2_lt_pow2; lia).
    lia. }
  apply (round_multiple q (m * 2 ^ (r - shift))).
  unfold Np.ulp. rewrite Ht. fold shift. unfold q.
  apply Qdiv_inject_multiple; [exact Hpj | exact Hpl |].
  rewrite <- !Z.mul_assoc. f_equal. rewrite Hr, Z.mul_assoc. f_equal.
  rewrite <- Z.pow_add_r by lia. f_equal. lia.
Qed.

Lemma round_Z (n : Z) :
  Z.abs n < 2 ^ prec -> (Np.round prec least (inject_Z n) == inject_Z n)%Q.
Proof.
  intros Hn.
  pose proof (round_representable n 0 0 Hn ltac:(lia) ltac:(lia)) as Hround.
  change (2 ^ 0) with 1 in Hround. rewrite Z.mul_1_r in Hround.
  rewrite (round_Qeq (inject_Z n) (inject_Z n / inject_Z 1)) by (field; discriminate).
  rewrite Hround. field.
Qed.

(** The number in units of the least number, and the exponent of its
    unit in the last place. *)
Lemma ulp_quotient (q : Q) :
  let shift := Z.max 0 (Z.log2 (Qfloor (Qabs q * inject_Z (2 ^ least))) + 1 - prec) in
  (q / Np.ulp prec least q == q * inject_Z (2 ^ least) / inject_Z (2 ^ shift))%Q.
Proof.
  intros shift. unfold Np.ulp. fold shift.
  assert (Hps : 0 < 2 ^ shift) by (apply Z.pow_pos_nonneg; lia).
  assert (Hpl : 0 < 2 ^ least) by (apply Z.pow_pos_nonneg; lia).
  pose proof (inject_Z_nonzero _ Hps). pose proof (inject_Z_nonzero _ Hpl).
  field. split; assumption.
Qed.

Lemma round_zero : (Np.round prec least 0 == 0)%Q.
Proof. apply (round_Z 0). apply Z.pow_pos_nonneg; lia. Qed.

(** Rounding keeps the order of the numbers that are not negative. *)
Lemma round_monotone (q q' : Q) :
  (0 <= q)%Q -> (q <= q')%Q ->
  (Np.round prec least q <= Np.round prec least q')%Q.
Proof.
  intros Hq Hle.
  assert (Hpl : 0 < 2 ^ least) by (apply Z.pow_pos_nonneg; lia).
  assert (HL : (0 < inject_Z (2 ^ least))%Q) by (rewrite <- (Zlt_Qlt 0); exact Hpl).
  pose proof (ulp_quotient q) as Hquot. pose proof (ulp_quotient q') as Hquot'.
  cbv zeta in Hquot, Hquot'.
  unfold Np.round.
  pose proof (ulp_pos q) as Hu. pose proof (ulp_pos q') as Hu'.
  remember (Np.round_half_even (q / Np.ulp prec least q)) as n eqn:Hn.
  remember (Np.round_half_even (q' / Np.ulp prec least q')) as n' eqn:Hn'.
  rewrite (round_half_even_Qeq _ _ Hquot) in Hn.
  rewrite (round_half_even_Qeq _ _ Hquot') in Hn'.
  unfold Np.ulp in *.
  rewrite (Qabs_pos q) in * by exact Hq.
  rewrite (Qabs_pos q') in * by lra.
  set (t := Qfloor (q * inject_Z (2 ^ least))) in *.
  set (t' := Qfloor (q' * inject_Z (2 ^ least))) in *.
  assert (Ht : 0 <= t).
  { unfold t. rewrite <- (Qfloor_Z 0). apply Qfloor_resp_le.
    apply Qmult_le_0_compat; lra. }
  assert (Htt : t <= t').
  { apply Qfloor_resp_le. apply Qmult_le_compat_r; lra. }
  pose proof (Z.log2_le_mono t t' Htt) as Hlog.
  set (s := Z.max 0 (Z.log2 t + 1 - prec)) in *.
  set (s' := Z.max 0 (Z.log2 t' + 1 - prec)) in *.
  assert (Hs : 0 <= s <= s') by (unfold s, s'; lia).
  assert (Hps : 0 < 2 ^ s) by (apply Z.pow_pos_nonneg; lia).
  assert (Hps' : 0 < 2 ^ s') by (apply Z.pow_pos_nonneg; lia).
  assert (HS : (0 < inject_Z (2 ^ s))%Q) by (rewrite <- (Zlt_Qlt 0); exact Hps).
  assert (HS' : (0 < inject_Z (2 ^ s'))%Q) by (rewrite <- (Zlt_Qlt 0); exact Hps').
  destruct (Z.eq_dec s s') as [Hsame | Hdiff].
  - rewrite <- Hsame in *.
    assert (Hnn : n <= n').
    { subst n n'. apply round_half_even_monotone.
      apply Qmult_le_compat_r; [apply Qmult_le_compat_r; lra |].
      apply Qlt_le_weak, Qinv_lt_0_compat, HS. }
    apply Qmult_le_compat_r; [rewrite <- Zle_Qle; exact Hnn | lra].
  - assert (Hlt : s < s') by lia.
    assert (Ht' : 0 < t') by (destruct (Z.eq_dec t' 0) as [E | E]; [| lia];
                              exfalso; unfold s' in Hlt; rewrite E in Hlt;
                              change (Z.log2 0) with 0 in Hlt; lia).
    assert (Hs' : s' = Z.log2 t' + 1 - prec) by (unfold s' in *; lia).
    set (b := s' + prec - 1) in *.
    assert (Hb : 0 <= b - s) by (unfold b; lia).
    (* the power of two between the two numbers *)
    assert (Hlow : 2 ^ b <= t').
    { unfold b. rewrite Hs'. replace (Z.log2 t' + 1 - prec + prec - 1) with (Z.log2 t') by lia.
      apply Z.log2_spec, Ht'. }
    assert (Hhigh : t + 1 <= 2 ^ b).
    { assert (t < 2 ^ (Z.log2 t + 1)).
      { destruct (Z.eq_dec t 0) as [-> | Hne]; [reflexivity |].
        apply Z.log2_spec. lia. }
      assert (2 ^ (Z.log2 t + 1) <= 2 ^ b).
      { apply Z.pow_le_mono_r; [lia |]. unfold b, s in *. lia. }
      lia. }
    destruct (floor_bounds (q * inject_Z (2 ^ least))) as [_ Hqhi]. fold t in Hqhi.
    destruct (floor_bounds (q' * inject_Z (2 ^ least))) as [Hqlo' _]. fold t' in Hqlo'.
    assert (Hn1 : n <= 2 ^ (b - s)).
    { rewrite <- (round_half_even_Z (2 ^ (b - s))). subst n.
      apply round_half_even_monotone.
      apply Qle_shift_div_r; [exact HS |].
      rewrite <- inject_Z_mult, <- Z.pow_add_r by lia.
      replace (b - s + s) with b by lia.
      apply Qle_trans with (inject_Z (t + 1)).
      - rewrite inject_Z_plus. apply Qlt_le_weak, Hqhi.
      - rewrite <- Zle_Qle. exact Hhigh. }
    assert (Hn2 : 2 ^ (prec - 1) <= n').
    { rewrite <- (round_half_even_Z (2 ^ (prec - 1))). subst n'.
      apply round_half_even_monotone.
      apply Qle_shift_div_l; [exact HS' |].
      rewrite <- inject_Z_mult, <- Z.pow_add_r by lia.
      replace (prec - 1 + s') with b by (unfold b; lia).
      eapply Qle_trans; [| exact Hqlo']. rewrite <- Zle_Qle. exact Hlow. }
    apply Qle_trans with (inject_Z (2 ^ b) / inject_Z (2 ^ least))%Q.
    + apply Qle_trans with (inject_Z (2 ^ (b - s)) * (inject_Z (2 ^ s) / inject_Z (2 ^ least)))%Q.
      * apply Qmult_le_compat_r; [rewrite <- Zle_Qle; exact Hn1 | lra].
      * apply Qle_lteq. right. symmetry.
        apply Qdiv_inject_multiple; [exact Hpl | exact Hpl |].
        f_equal. rewrite <- Z.pow_add_r by lia. f_equal. lia.
    + apply Qle_trans with (inject_Z (2 ^ (prec - 1)) * (inject_Z (2 ^ s') / inject_Z (2 ^ least)))%Q.
      * apply Qle_lteq. right.
        apply Qdiv_inject_multiple; [exact Hpl | exact Hpl |].
        f_equal. rewrite <- Z.pow_add_r by lia. f_equal. unfold b. lia.
      * apply Qmult_le_compat_r; [rewrite <- Zle_Qle; exact Hn2 | lra].
Qed.

(** A number between 0 and a number of the format is rounded to a number
    between them. *)
Lemma round_bounded (q : Q) (m k : Z) :
  Z.abs m < 2 ^ prec -> 0 <= k ->
  (0 <= q)%Q -> (q <= inject_Z (m * 2 ^ k))%Q ->
  (0 <= Np.round prec least q)%Q /\ (Np.round prec least q <= inject_Z (m * 2 ^ k))%Q.
Proof.
  intros Hm Hk Hlo Hhi. split.
  - rewrite <- round_zero. apply round_monotone; [lra | exact Hlo].
  - pose proof (round_representable m k 0 Hm Hk ltac:(lia)) as Hexact.
    change (2 ^ 0) with 1 in Hexact.
    assert (Hone : (inject_Z (m * 2 ^ k) / inject_Z 1 == inject_Z (m * 2 ^ k))%Q)
      by (field; discriminate).
    rewrite (round_Qeq _ _ Hone), Hone in Hexact.
    rewrite <- Hexact. apply round_monotone; assumption.
Qed.

End Format.

(** ** SymbolBuilder *)

(** [int] on a float drops the fraction: the result is the integer next to
    the argument on the side of zero. *)
Lemma int_of_float_truncates (q : Q) :
  ((0 <= q)%Q -> (inject_Z (Py.int_of_float q) <= q)%Q
                 /\ (q < inject_Z (Py.int_of_float q) + 1)%Q)
  /\ ((q <= 0)%Q -> (inject_Z (Py.int_of_float q) - 1 < q)%Q
                    /\ (q <= inject_Z (Py.int_of_float q))%Q).
Proof.
  destruct q as [n d]. unfold Py.int_of_float, Qle, Qlt. cbn.
  pose proof (Z.quot_rem' n (Z.pos d)) as Hdiv.
  split; intros Hsign.
  - assert (Hn : 0 <= n) by lia.
    pose proof (Z.rem_bound_pos n (Z.pos d) Hn ltac:(lia)). nia.
  - assert (Hn : n <= 0) by lia.
    pose proof (Z.rem_bound_pos (- n) (Z.pos d) ltac:(lia) ltac:(lia)) as Hrem.
    rewrite Z.rem_opp_l in Hrem by lia. nia.
Qed.

(** The symbol table and the two bar-line tests of [group_symbols_by_measure]. *)
Lemma bar_line_tests_agree (id : Z) (name : string) (s : Symbol) :
  MUSICAL_SYMBOL_CLASSES !! id = Some name -> class s = name ->
  not_bar_line_class s = negb (is_bar_line s).
Proof.
  intros Hname <-. unfold not_bar_line_class, is_bar_line. f_equal.
  apply (symbol_class_cases
           (fun _ name => Bool.eqb (Py.str_contains "bar_line" name)
                             (Py.str_in name ["bar_line"; "double_bar_line"]))) in Hname.
  - apply Bool.eqb_prop, Hname.
  - vm_compute. reflexivity.
Qed.

Lemma float_div_ok (a : Q) (height : Z) :
  height <> 0 ->
  Py.float_div a (inject_Z height / 4) = Ok (a / (inject_Z height / 4))%Q.
Proof.
  intros Hheight. unfold Py.float_div.
  destruct (Qeq_bool (inject_Z height / 4) 0) eqn:Hzero; [| reflexivity].
  exfalso. apply Qeq_bool_eq in Hzero. apply Hheight.
  unfold Qeq, Qdiv, Qmult, Qinv, inject_Z in Hzero. cbn in Hzero. lia.
Qed.

Lemma divide_finite (a : Q) (height : Z) :
  height <> 0 ->
  Np.divide a (inject_Z height / 4) = Np.finite (a / (inject_Z height / 4)).
Proof.
  intros Hheight. unfold Np.divide.
  destruct (Qeq_bool (inject_Z height / 4) 0) eqn:Hzero; [| reflexivity].
  exfalso. apply Qeq_bool_eq in Hzero. apply Hheight.
  unfold Qeq, Qdiv, Qmult, Qinv, inject_Z in Hzero. cbn in Hzero. lia.
Qed.

(** The pitch function of the pipeline, case by case on the staff. *)
Lemma calculate_pitch_from_staff_position_cases (y_pos : Q) (staff_lines : list Z) :
  (staff_lines = [] -> calculate_pitch_from_staff_position y_pos staff_lines = Ok "C4")
  /\ (Py.min staff_lines <> Py.max staff_lines ->
      calculate_pitch_from_staff_position y_pos staff_lines
      = Ok (Spec.ladder_lookup pitches
              (Py.int_of_float
                 ((y_pos - inject_Z (Py.min staff_lines))
                  / (inject_Z (Py.max staff_lines - Py.min staff_lines) / 4))%Q)))
  /\ (staff_lines <> [] -> Py.min staff_lines = Py.max staff_lines ->
      calculate_pitch_from_staff_position y_pos staff_lines
      = Raise (flat_staff_error y_pos staff_lines)).
Proof.
  split; [intros ->; reflexivity | split].
  - intros Hheight.
    destruct staff_lines as [| l0 staff_lines]; [contradiction Hheight; reflexivity |].
    unfold calculate_pitch_from_staff_position.
    rewrite divide_finite by lia.
    unfold Np.int, mbind, result_bind, Spec.ladder_lookup.
    match goal with |- context [if ?c then _ else _] => destruct c end; reflexivity.
  - intros Hne Hflat.
    destruct staff_lines as [| l0 staff_lines]; [contradiction |].
    unfold calculate_pitch_from_staff_position, flat_staff_error.
    rewrite <- Hflat, Z.sub_diag. unfold Np.divide.
    change (Qeq_bool (inject_Z 0 / 4) 0) with true. cbv iota.
    destruct (Qeq_bool _ 0); reflexivity.
Qed.

Lemma mapM_result_ok {A B} (f : A -> result B) (g : A -> B) (xs : list A) :
  (forall x, In x xs -> f x = Ok (g x)) ->
  mapM_result f xs = Ok (map g xs).
Proof.
  induction xs as [| x xs IH]; intros Hok; [reflexivity |].
  cbn [mapM_result map]. rewrite (Hok x (or_introl eq_refl)).
  unfold mbind, result_bind. rewrite IH; [reflexivity |].
  intros x' Hx'. apply Hok. right. exact Hx'.
Qed.

Lemma mapM_result_total {A B} (f : A -> result B) (xs : list A) :
  (forall x, In x xs -> exists y, f x = Ok y) ->
  exists ys, mapM_result f xs = Ok ys /\ length ys = length xs.
Proof.
  induction xs as [| x xs IH]; intros Hok; [exists []; split; reflexivity |].
  destruct (Hok x (or_introl eq_refl)) as [y Hy].
  destruct IH as (ys & Hys & Hlen); [intros x' Hx'; apply Hok; right; exact Hx' |].
  exists (y :: ys). cbn [mapM_result]. rewrite Hy. unfold mbind, result_bind.
  rewrite Hys. split; [reflexivity | cbn; congruence].
Qed.

Lemma process_detection_note (d : Detection) (name : string) (staff_lines : list Z) :
  MUSICAL_SYMBOL_CLASSES !! cls d = Some name ->
  is_note_class name = true ->
  process_detection d staff_lines
  = symbol_of d name <$> calculate_pitch_from_staff_position (center_of d) staff_lines.
Proof.
  intros Hname Hnote. unfold process_detection. fold (center_of d). rewrite Hname.
  cbn [default from_option id]. unfold id. rewrite Hnote.
  destruct (calculate_pitch_from_staff_position (center_of d) staff_lines);
    reflexivity.
Qed.

Lemma process_detection_other (d : Detection) (staff_lines : list Z) :
  is_note_class (default "unknown" (MUSICAL_SYMBOL_CLASSES !! cls d)) = false ->
  process_detection d staff_lines
  = Ok (symbol_of d (default "unknown" (MUSICAL_SYMBOL_CLASSES !! cls d)) "C4").
Proof.
  intros Hother. unfold process_detection. rewrite Hother. reflexivity.
Qed.

Lemma unknown_class_not_note (id : Z) :
  MUSICAL_SYMBOL_CLASSES !! id = None ->
  is_note_class (default "unknown" (MUSICAL_SYMBOL_CLASSES !! id)) = false.
Proof. intros ->. reflexivity. Qed.

(** On a staff of non-zero height no detection raises. *)
Lemma process_detection_total (d : Detection) (staff_lines : list Z) :
  Py.min staff_lines <> Py.max staff_lines ->
  exists s, process_detection d staff_lines = Ok s.
Proof.
  intros Hheight.
  destruct (MUSICAL_SYMBOL_CLASSES !! cls d) as [name |] eqn:Hname.
  - destruct (is_note_class name) eqn:Hnote.
    + rewrite (process_detection_note d name staff_lines Hname Hnote).
      destruct (calculate_pitch_from_staff_position_cases
                  (center_of d) staff_lines) as (_ & Hok & _).
      rewrite (Hok Hheight). eexists. reflexivity.
    + eexists. apply process_detection_other. rewrite Hname. exact Hnote.
  - eexists. apply process_detection_other, unknown_class_not_note, Hname.
Qed.

Lemma process_detections_total (results : option (list Detection)) (staff_lines : list Z) :
  Py.min staff_lines <> Py.max staff_lines ->
  exists symbols, process_detections_enhanced results staff_lines = Ok symbols.
Proof.
  intros Hheight. destruct results as [boxes |]; [| exists []; reflexivity].
  destruct (mapM_result_total (fun d => process_detection d staff_lines) boxes)
    as (symbols & Hok & _); [| exists symbols; exact Hok].
  intros d _. apply process_detection_total, Hheight.
Qed.


(** [min] and [max] of a list of heights. *)
Lemma fold_min_foldr (l : list Z) (a : Z) : fold_left Z.min l a = foldr Z.min a l.
Proof.
  revert a. induction l as [| x l IH]; intros a; [reflexivity |].
  cbn [fold_left foldr]. rewrite IH. clear IH.
  induction l as [| z l IH]; cbn [foldr]; lia.
Qed.

Lemma fold_max_foldr (l : list Z) (a : Z) : fold_left Z.max l a = foldr Z.max a l.
Proof.
  revert a. induction l as [| x l IH]; intros a; [reflexivity |].
  cbn [fold_left foldr]. rewrite IH. clear IH.
  induction l as [| z l IH]; cbn [foldr]; lia.
Qed.

Lemma foldr_min_spec (line : Z) (lines : list Z) :
  In (foldr Z.min line lines) (line :: lines)
  /\ forall a, In a (line :: lines) -> foldr Z.min line lines <= a.
Proof.
  induction lines as [| x lines [IHin IHle]]; cbn [foldr].
  - split; [left; reflexivity | intros a [<- | []]; lia].
  - split.
    + destruct (Z.min_spec x (foldr Z.min line lines)) as [[_ ->] | [_ ->]].
      * right. left. reflexivity.
      * destruct IHin as [E | Hin]; [left; exact E | right; right; exact Hin].
    + intros a [<- | [<- | Ha]].
      * specialize (IHle line (or_introl eq_refl)). lia.
      * lia.
      * specialize (IHle a (or_intror Ha)). lia.
Qed.

Lemma foldr_max_spec (line : Z) (lines : list Z) :
  In (foldr Z.max line lines) (line :: lines)
  /\ forall a, In a (line :: lines) -> a <= foldr Z.max line lines.
Proof.
  induction lines as [| x lines [IHin IHle]]; cbn [foldr].
  - split; [left; reflexivity | intros a [<- | []]; lia].
  - split.
    + destruct (Z.max_spec x (foldr Z.max line lines)) as [[_ ->] | [_ ->]].
      * destruct IHin as [E | Hin]; [left; exact E | right; right; exact Hin].
      * right. left. reflexivity.
    + intros a [<- | [<- | Ha]].
      * specialize (IHle line (or_introl eq_refl)). lia.
      * lia.
      * specialize (IHle a (or_intror Ha)). lia.
Qed.

Lemma min_max_spec (staff_lines : list Z) :
  staff_lines <> [] ->
  In (Py.min staff_lines) staff_lines /\ In (Py.max staff_lines) staff_lines
  /\ forall a, In a staff_lines -> Py.min staff_lines <= a <= Py.max staff_lines.
Proof.
  destruct staff_lines as [| line lines]; [contradiction |]. intros _.
  unfold Py.min, Py.max. rewrite fold_min_foldr, fold_max_foldr.
  destruct (foldr_min_spec line lines) as [Hmin Hle].
  destruct (foldr_max_spec line lines) as [Hmax Hge].
  split; [exact Hmin | split; [exact Hmax |]].
  intros a Ha. split; [apply Hle, Ha | apply Hge, Ha].
Qed.

(** Two lines at different heights: the staff has a height. *)
Lemma staff_height_positive (staff_lines : list Z) :
  (exists a b, In a staff_lines /\ In b staff_lines /\ a < b) ->
  Py.min staff_lines < Py.max staff_lines.
Proof.
  intros (a & b & Ha & Hb & Hlt).
  assert (Hne : staff_lines <> []) by (intros ->; contradiction).
  destruct (min_max_spec staff_lines Hne) as (_ & _ & Hbounds).
  pose proof (Hbounds a Ha). pose proof (Hbounds b Hb). lia.
Qed.

(** All lines at one height. *)
Lemma staff_height_zero (staff_lines : list Z) (line : Z) :
  In line staff_lines -> (forall a, In a staff_lines -> a = line) ->
  staff_lines <> [] /\ Py.min staff_lines = line /\ Py.max staff_lines = line.
Proof.
  intros Hin Hall.
  assert (Hne : staff_lines <> []) by (intros ->; contradiction).
  destruct (min_max_spec staff_lines Hne) as (Hmin & Hmax & _).
  split; [exact Hne | split; apply Hall; assumption].
Qed.

(** [int] on a float is the truncation towards zero. *)
Lemma floor_unique (q : Q) (i : Z) :
  (inject_Z i <= q)%Q -> (q < inject_Z i + 1)%Q -> Qfloor q = i.
Proof.
  intros Hlo Hhi. destruct (floor_bounds q) as [Hlo' Hhi'].
  assert (Qfloor q <= i) by (apply inject_Z_lt_succ; lra).
  assert (i <= Qfloor q) by (apply inject_Z_lt_succ; lra).
  lia.
Qed.

Lemma int_of_float_truncate (q : Q) : Py.int_of_float q = Spec.truncate q.
Proof.
  unfold Spec.truncate.
  destruct (int_of_float_truncates q) as [Hpos Hneg].
  destruct (Qle_bool 0 q) eqn:Hsign.
  - apply Qle_bool_iff in Hsign. destruct (Hpos Hsign) as [Hlo Hhi].
    symmetry. apply floor_unique; assumption.
  - assert (Hq : (q <= 0)%Q).
    { destruct (Qlt_le_dec q 0) as [Hlt | Hge]; [lra |].
      apply Qle_bool_iff in Hge. congruence. }
    destruct (Hneg Hq) as [Hlo Hhi].
    unfold Qceiling.
    rewrite (floor_unique (- q) (- Py.int_of_float q)); [lia | |];
      rewrite inject_Z_opp; lra.
Qed.

Lemma lookup_total_nth (l : list string) (n : nat) :
  (n < length l)%nat -> l !!! n = nth n l "C4".
Proof.
  revert n. induction l as [| x l IH]; intros n Hn; [cbn in Hn; lia |].
  destruct n as [| n]; [reflexivity |]. cbn in Hn. cbn. apply IH. lia.
Qed.

Lemma ladder_lookup_nth (index : Z) :
  Spec.ladder_lookup pitches index
  = if index <? 0 then "C4" else nth (Z.to_nat index) Spec.staff_ladder "C4".
Proof.
  unfold Spec.ladder_lookup. change Spec.staff_ladder with pitches.
  change (Z.of_nat (length pitches)) with 11.
  destruct (Z.ltb_spec index 0) as [Hneg | Hpos].
  - destruct (Z.leb_spec 0 index); [lia | reflexivity].
  - destruct (Z.leb_spec 0 index); [| lia]. cbn [andb].
    destruct (Z.ltb_spec index 11) as [Hin | Hout].
    + apply lookup_total_nth. change (length pitches) with 11%nat. lia.
    + symmetry. apply nth_overflow. change (length pitches) with 11%nat. lia.
Qed.

(** The pitch function of the pipeline against the corrected rule. *)
Lemma calculate_pitch_staff_pitch (y : Q) (staff_lines : list Z) :
  staff_lines = [] \/ Py.min staff_lines <> Py.max staff_lines ->
  calculate_pitch_from_staff_position y staff_lines = Ok (Spec.staff_pitch y staff_lines).
Proof.
  intros [-> | Hheight]; [reflexivity |].
  destruct (calculate_pitch_from_staff_position_cases y staff_lines) as (_ & Hok & _).
  rewrite (Hok Hheight), ladder_lookup_nth, int_of_float_truncate.
  destruct staff_lines as [| line lines]; [contradiction Hheight; reflexivity |].
  unfold Spec.staff_pitch, Py.min, Py.max. rewrite fold_min_foldr, fold_max_foldr.
  reflexivity.
Qed.

Lemma Qeq_bool_comp (a a' b b' : Q) :
  (a == a')%Q -> (b == b')%Q -> Qeq_bool a b = Qeq_bool a' b'.
Proof.
  intros Ha Hb. destruct (Qeq_bool a' b') eqn:Heq.
  - apply Qeq_bool_iff in Heq. apply Qeq_bool_iff. rewrite Ha, Hb. exact Heq.
  - apply Qeq_bool_neq in Heq. destruct (Qeq_bool a b) eqn:Heq'; [| reflexivity].
    apply Qeq_bool_iff in Heq'. exfalso. apply Heq. rewrite <- Ha, <- Hb. exact Heq'.
Qed.

Lemma Qeq_bool_minus (a b : Q) : Qeq_bool (a - b) 0 = Qeq_bool a b.
Proof.
  destruct (Qeq_bool a b) eqn:Heq.
  - apply Qeq_bool_iff in Heq. apply Qeq_bool_iff. lra.
  - apply Qeq_bool_neq in Heq. destruct (Qeq_bool (a - b) 0) eqn:Heq'; [| reflexivity].
    apply Qeq_bool_iff in Heq'. exfalso. apply Heq. lra.
Qed.

(** The centre of a box with integer corners is computed exactly. *)
Lemma center_of_integer_corners (d : Detection) (a b : Z) :
  y1 d = inject_Z a -> y2 d = inject_Z b -> Z.abs (a + b) < 2 ^ 24 ->
  (center_of d == inject_Z (a + b) / 2)%Q.
Proof.
  intros Ha Hb Hsum. unfold center_of, Np.float32. rewrite Ha, Hb.
  rewrite (round_Qeq 24 149 (inject_Z a + inject_Z b) (inject_Z (a + b)))
    by (rewrite inject_Z_plus; reflexivity).
  rewrite (round_Qeq 24 149 (Np.round 24 149 (inject_Z (a + b)) / 2)
             (inject_Z ((a + b) * 2 ^ 0) / inject_Z (2 ^ 1))).
  - rewrite (round_representable 24 149) by lia.
    change (2 ^ 0) with 1. rewrite Z.mul_1_r. reflexivity.
  - rewrite (round_Z 24 149) by lia.
    change (2 ^ 0) with 1. rewrite Z.mul_1_r. reflexivity.
Qed.

(** Where the rounding of the centre shows: the corners 100 and
    200 - 2^-16 add up to 300 in single precision, so the centre is 150 and
    the pitch E5, where the exact centre is in the band of F5. *)
Lemma center_of_rounded_sum :
  let d := mkDetection 40 100 60 (200 - (1 # 65536)) (9 # 10) 2 in
  (center_of d == 150)%Q
  /\ pitch <$> process_detection d Ex.staff_100 = Ok "E5"
  /\ calculate_pitch_from_staff_position ((y1 d + y2 d) / 2) Ex.staff_100 = Ok "F5".
Proof. vm_compute. repeat split. Qed.



Lemma staff_lines_of_nonempty (env : Env) :
  exists first others, staff_lines_of env = first :: others.
Proof.
  unfold staff_lines_of.
  destruct (detect_staff_lines_enhanced (hough env) (image_height env)) as [| first others];
    unfold fallback_staff; eauto.
Qed.

(** C5, the claim at fault: on a page with the staff systems 100..300 and
    500..700, a note centred at 550 lies inside the second system, which is
    the nearest one, and would be "E5" there; the pipeline reads it against
    the first system and makes it "D4". *)
Lemma nearest_staff_counterexample :
  staff_lines_of Ex.two_staff_page = [Ex.staff_100; Ex.staff_500]
  /\ Spec.nearest_staff 550 Ex.staff_100 [Ex.staff_500] = Ex.staff_500
  /\ calculate_pitch_from_staff_position 550 Ex.staff_500 = Ok "E5"
  /\ map pitch <$> detect_symbols Ex.two_staff_page (staff_lines_of Ex.two_staff_page)
     = Ok ["D4"].
Proof. vm_compute. repeat split. Qed.

(** C5, amended: for every detection processed by SymbolBuilder, the pitch is
    computed relative to the first StaffSystem of the detected list (the
    fallback staff when none was detected), whatever the detection's
    vertical position and whatever other systems were detected. *)
Theorem symbols_use_first_staff
  (env : Env) (results : option (list Detection)) (first : list Z) (others : list (list Z)) :
  model env = Some results ->
  staff_lines_of env = first :: others ->
  detect_symbols env (staff_lines_of env) = process_detections_enhanced results first
  /\ forall d name,
       MUSICAL_SYMBOL_CLASSES !! cls d = Some name ->
       is_note_class name = true ->
       pitch <$> process_detection d first
       = calculate_pitch_from_staff_position (center_of d) first.
Proof.
  intros Hmodel Hstaff. split.
  - unfold detect_symbols. rewrite Hmodel, Hstaff. reflexivity.
  - intros d name Hname Hnote.
    rewrite (process_detection_note d name first Hname Hnote).
    destruct (calculate_pitch_from_staff_position (center_of d) first); reflexivity.
Qed.

Lemma symbols_use_first_staff_witness :
  detect_symbols Ex.two_staff_page (staff_lines_of Ex.two_staff_page)
  = process_detections_enhanced (Some [Ex.quarter_at 550]) Ex.staff_100.
Proof.
  refine (proj1 (symbols_use_first_staff Ex.two_staff_page (Some [Ex.quarter_at 550])
                   Ex.staff_100 [Ex.staff_500] eq_refl _)).
  vm_compute. reflexivity.
Defined.

(** ** The analysis as a whole *)

Lemma analyze_success (env : Env) (symbols : list Symbol) :
  imread_ok env = true ->
  write_ok env = true ->
  detect_symbols env (staff_lines_of env) = Ok symbols ->
  exists analysis,
    analyze_sheet_music env
    = Success analysis (events (midi_run (apply_accidentals_to_notes symbols)))
    /\ symbols_detected analysis = length (apply_accidentals_to_notes symbols).
Proof.
  intros Himage Hwrite Hsymbols.
  unfold analyze_sheet_music, analyze_try, generate_midi_file.
  rewrite Himage, Hsymbols, Hwrite. cbn [negb mbind result_bind mret result_ret].
  eexists. split; reflexivity.
Qed.

(** C8: the staff detector has no exception of its own: a failure of the
    image operations and an empty Hough result both give the empty list;
    and whenever the detector returns the empty list the caller goes on
    with the synthetic staff [100, 150, 200, 250, 300], on which no
    detection raises, so that the analysis of a readable image with a
    writable output ends in a success result. *)
Theorem staff_detection_soft_fail (env : Env) :
  (forall e, detect_staff_lines_enhanced (Raise e) (image_height env) = [])
  /\ detect_staff_lines_enhanced (Ok None) (image_height env) = []
  /\ (detect_staff_lines_enhanced (hough env) (image_height env) = [] ->
      staff_lines_of env = [[100; 150; 200; 250; 300]]
      /\ exists symbols,
           detect_symbols env (staff_lines_of env) = Ok symbols
           /\ (imread_ok env = true -> write_ok env = true ->
               exists analysis,
                 analyze_sheet_music env
                 = Success analysis (events (midi_run (apply_accidentals_to_notes symbols))))).
Proof.
  split; [reflexivity | split; [reflexivity |]].
  intros Hempty.
  assert (Hstaff : staff_lines_of env = [[100; 150; 200; 250; 300]]).
  { unfold staff_lines_of. rewrite Hempty. reflexivity. }
  split; [exact Hstaff |].
  assert (Hsymbols : exists symbols, detect_symbols env (staff_lines_of env) = Ok symbols).
  { rewrite Hstaff. unfold detect_symbols.
    destruct (model env) as [results |]; [| eauto].
    apply process_detections_total. vm_compute. discriminate. }
  destruct Hsymbols as [symbols Hsymbols].
  exists symbols. split; [exact Hsymbols |].
  intros Himage Hwrite.
  destruct (analyze_success env symbols Himage Hwrite Hsymbols) as (analysis & Hrun & _).
  exists analysis. exact Hrun.
Qed.

Lemma staff_detection_soft_fail_witness :
  exists analysis midi,
    analyze_sheet_music Ex.blank_page = Success analysis midi
    /\ map nv_pitch (notes analysis) = ["D5"; "D5"]
    /\ map ev_pitch midi = [74; 74].
Proof.
  destruct (staff_detection_soft_fail Ex.blank_page) as (_ & _ & Hsoft).
  destruct (Hsoft eq_refl) as (_ & symbols & Hsymbols & Hrun).
  destruct (Hrun eq_refl eq_refl) as (analysis & Hsuccess).
  exists analysis. eexists. split; [exact Hsuccess |].
  vm_compute in Hsymbols. injection Hsymbols as <-.
  vm_compute in Hsuccess. injection Hsuccess as <-.
  split; reflexivity.
Defined.

(** ** Note-like classes through the pipeline *)

(** The inner loop holds an accidental as soon as one is in the window. *)
Lemma closest_fold_some (note : Symbol) (all accidentals : list Symbol) :
  forall st,
    (forall a, In a accidentals -> In a all) ->
    closest_inv note all st ->
    fst st <> None \/ (exists a, In a accidentals /\ in_window note a = true) ->
    fst (fold_left (closest_step note) accidentals st) <> None.
Proof.
  induction accidentals as [| a accidentals IH]; intros st Hsub Hinv Hsome.
  - destruct Hsome as [Hsome | (a & [] & _)]. exact Hsome.
  - cbn [fold_left].
    assert (Hinv' : closest_inv note all (closest_step note st a)).
    { apply (closest_fold_inv note all [a] st); [| exact Hinv].
      intros a' [<- | []]. apply Hsub. left. reflexivity. }
    apply IH; [intros a' Ha'; apply Hsub; right; exact Ha' | exact Hinv' |].
    destruct (in_window note a) eqn:Hwin.
    + left. unfold closest_step. rewrite Hwin.
      destruct st as [[held |] [min_distance |]]; cbn in Hinv; try contradiction;
        cbn [snd]; [| cbn; discriminate].
      destruct (bx (box note) - bx (box a) <? min_distance); cbn; discriminate.
    + unfold closest_step. rewrite Hwin.
      destruct Hsome as [Hsome | (a' & [<- | Ha'] & Hwin')];
        [left; exact Hsome | congruence | right; eauto].
Qed.

Lemma closest_accidental_some (note : Symbol) (accidentals : list Symbol) (a : Symbol) :
  In a accidentals -> in_window note a = true ->
  exists acc, closest_accidental note accidentals = Some acc.
Proof.
  intros Ha Hwin. unfold closest_accidental.
  pose proof (closest_fold_some note accidentals accidentals (None, None)
                (fun a Ha => Ha) I (or_intror (ex_intro _ a (conj Ha Hwin)))) as Hsome.
  destruct (fst (fold_left (closest_step note) accidentals (None, None))) as [acc |];
    [eauto | contradiction].
Qed.

(** The note-like classes of the symbol table. *)
Lemma note_class_names (id : Z) (name : string) :
  MUSICAL_SYMBOL_CLASSES !! id = Some name ->
  is_note_class name = true ->
  In (name, default 1%Q (SYMBOL_DURATIONS !! name)) Spec.note_durations
  /\ (id = 45 <-> name = "grace_note").
Proof.
  intros Hname Hnote.
  rewrite (note_class_ids id name Hname) in Hnote.
  assert (Hid : (0 <= id <= 6) \/ id = 45) by lia.
  assert (Hcases : id = 0 \/ id = 1 \/ id = 2 \/ id = 3 \/ id = 4 \/ id = 5 \/ id = 6
                   \/ id = 45) by lia.
  clear Hid Hnote.
  repeat destruct Hcases as [-> | Hcases]; try subst id;
    vm_compute in Hname; injection Hname as <-;
    (split; [vm_compute; tauto | split; intros E; first [lia | discriminate E | reflexivity]]).
Qed.

(** C10, the claim at fault: a half note gets the two beats of its class in
    the duration table, not the default of one beat, in the symbol and in
    the MIDI file. *)
Lemma note_duration_counterexample :
  is_note_class (class_of (Ex2.half_at 230)) = true
  /\ duration <$> process_detection (Ex2.half_at 230) Ex.staff_100 = Ok 2%Q
  /\ exists analysis midi,
       analyze_sheet_music Ex2.half_note_page = Success analysis midi
       /\ map nv_duration (notes analysis) = ["half"]
       /\ map ev_duration midi = [2%Q].
Proof.
  split; [reflexivity | split; [vm_compute; reflexivity |]].
  eexists. eexists. vm_compute. repeat split.
Qed.

(** C10, amended: a detection whose class name contains 'note' (one of the
    seven note values or [grace_note], class 45) is a note for every stage.
    On a staff with two lines at different heights SymbolBuilder gives it
    the pitch of the staff rule at its centre, and the duration of its
    class in the duration table, 4, 2, 1, 1/2, 1/4, 1/8 or 1/16 beats, or
    the default of one beat for [grace_note], which the table does not
    have.  AccidentalBinder binds it: when an accidental lies in its
    window, the note stays in the output with the class of an accidental
    of its window recorded on it.  MidiEncoder adds one note for it, from
    the cursor on, as long as its duration, with velocity 100. *)
Theorem note_like_detection_is_note (d : Detection) (name : string) :
  MUSICAL_SYMBOL_CLASSES !! cls d = Some name ->
  is_note_class name = true ->
  (In name (map fst Spec.note_durations)
   /\ (cls d = 45 <-> name = "grace_note")
   /\ SYMBOL_DURATIONS !! "grace_note" = None)
  /\ (forall staff_lines,
         (exists a b, In a staff_lines /\ In b staff_lines /\ a < b) ->
         exists s,
           process_detection d staff_lines = Ok s
           /\ class s = name
           /\ pitch s = Spec.staff_pitch (center_of d) staff_lines
           /\ In (name, duration s) Spec.note_durations
           /\ accidental s = None)
  /\ (forall s pre post a,
         class s = name ->
         In a (pre ++ s :: post) -> is_accidental a = true -> in_window s a = true ->
         exists acc bound before after,
           In acc (pre ++ s :: post) /\ is_accidental acc = true
           /\ in_window s acc = true
           /\ apply_accidentals_to_notes (pre ++ s :: post) = before ++ bound :: after
           /\ class bound = name /\ box bound = box s /\ duration bound = duration s
           /\ accidental bound = Some (class acc))
  /\ (forall s pre,
         class s = name ->
         midi_run (pre ++ [s])
         = mkMidiState
             (events (midi_run pre)
              ++ [mkNoteEvent 0 0 (pitch_to_midi_number (pitch s))
                    (current_time (midi_run pre)) (duration s) 100])
             (current_time (midi_run pre) + duration s)%Q).
Proof.
  intros Hname Hnote.
  destruct (note_class_names (cls d) name Hname Hnote) as [Hduration Hgrace].
  split; [| split; [| split]].
  - split; [| split; [exact Hgrace | vm_compute; reflexivity]].
    apply (in_map fst) in Hduration. exact Hduration.
  - intros staff_lines Htwo.
    pose proof (staff_height_positive staff_lines Htwo) as Hheight.
    rewrite (process_detection_note d name staff_lines Hname Hnote).
    rewrite calculate_pitch_staff_pitch by (right; lia).
    eexists. split; [reflexivity |].
    cbn [class pitch duration accidental symbol_of].
    repeat split. exact Hduration.
  - intros s pre post a Hclass Ha Hacc Hwin.
    assert (Hs : is_note_class (class s) = true) by (rewrite Hclass; exact Hnote).
    destruct (closest_accidental_some s (accidentals_of (pre ++ s :: post)) a)
      as [acc Hclosest]; [apply accidentals_of_spec; split; assumption | exact Hwin |].
    destruct (closest_accidental_inside _ _ _ Hclosest) as [Hin Hwin'].
    apply accidentals_of_spec in Hin as [Hin Hacc'].
    destruct (accidental_binder_binds pre post s acc Hs Hclosest) as (Hout & Hbound & _).
    cbv zeta in Hout, Hbound.
    exists acc. eexists. eexists. eexists.
    split; [exact Hin | split; [exact Hacc' | split; [exact Hwin' |]]].
    split; [exact Hout |].
    split; [rewrite apply_accidental_class; exact Hclass |].
    split; [| split; [| exact Hbound]];
      unfold apply_accidental; rewrite Hclosest; reflexivity.
  - intros s pre Hclass. rewrite midi_run_snoc. unfold midi_step.
    rewrite Hclass, Hnote. reflexivity.
Qed.

Lemma note_like_detection_is_note_witness :
  exists s,
    process_detection (Ex.grace_at 200) Ex.staff_100 = Ok s
    /\ class s = "grace_note"
    /\ pitch s = Spec.staff_pitch (center_of (Ex.grace_at 200)) Ex.staff_100
    /\ In ("grace_note", duration s) Spec.note_durations
    /\ accidental s = None.
Proof.
  apply (proj1 (proj2 (note_like_detection_is_note (Ex.grace_at 200) "grace_note"
                         eq_refl eq_refl)) Ex.staff_100).
  exists 100, 300. cbn. intuition lia.
Defined.

(** * Further properties of the code *)

(** ** StaffLineDetector: the spacing test and the grouping loop *)

(** The float test of [validate_staff_spacing] on integers: with [S] the sum
    of the four spacings, a spacing [s] fails when [5 * |4 s - S| > S]. *)
Lemma spacing_off_Z (a b c d spacing : Z) :
  spacing_off (avg_spacing_of [a; b; c; d]) spacing
  = negb (5 * Z.abs (4 * spacing - (a + b + c + d)) <=? a + b + c + d).
Proof.
  unfold spacing_off, avg_spacing_of, Py.sum. f_equal.
  change (Z.of_nat (length [a; b; c; d])) with 4.
  unfold Qle_bool, Qabs, Qminus, Qplus, Qopp, Qmult, Qdiv, Qinv, inject_Z. cbn.
  destruct (Z.leb_spec (5 * Z.abs (4 * spacing - (a + b + c + d))) (a + b + c + d));
    [apply Z.leb_le | apply Z.leb_gt]; lia.
Qed.

Lemma validate_staff_spacing_Z (l0 l1 l2 l3 l4 : Z) :
  let total := l4 - l0 in
  validate_staff_spacing [l0; l1; l2; l3; l4]
  = (5 * Z.abs (4 * (l1 - l0) - total) <=? total)
    && (5 * Z.abs (4 * (l2 - l1) - total) <=? total)
    && (5 * Z.abs (4 * (l3 - l2) - total) <=? total)
    && (5 * Z.abs (4 * (l4 - l3) - total) <=? total).
Proof.
  intros total. unfold validate_staff_spacing. cbn [length Nat.eqb negb].
  change (spacings_of [l0; l1; l2; l3; l4])
    with [l1 - l0; l2 - l1; l3 - l2; l4 - l3].
  cbn [existsb]. rewrite !spacing_off_Z.
  replace (l1 - l0 + (l2 - l1) + (l3 - l2) + (l4 - l3)) with total by (unfold total; lia).
  rewrite orb_false_r, !negb_orb, !negb_involutive, !andb_assoc. reflexivity.
Qed.

Lemma validate_staff_spacing_five (system : list Z) :
  validate_staff_spacing system = true ->
  exists l0 l1 l2 l3 l4, system = [l0; l1; l2; l3; l4].
Proof.
  unfold validate_staff_spacing.
  destruct (Nat.eqb_spec (length system) 5) as [Hlen | _]; [| discriminate].
  intros _.
  destruct system as [| l0 [| l1 [| l2 [| l3 [| l4 [| l5 rest]]]]]]; try discriminate.
  eauto 6.
Qed.

(** X1: Five lines at equal distances [d] pass the spacing test exactly when
    they do not descend; this includes five lines at the same height. *)
Theorem validate_staff_spacing_even (y d : Z) :
  validate_staff_spacing [y; y + d; y + 2 * d; y + 3 * d; y + 4 * d] = (0 <=? d).
Proof.
  rewrite validate_staff_spacing_Z. cbv zeta.
  destruct (Z.leb_spec 0 d).
  - rewrite !andb_true_iff, !Z.leb_le. lia.
  - apply andb_false_iff. right. apply Z.leb_gt. lia.
Qed.

(** X2: A staff system of the output is five times the same height, or five
    strictly ascending heights. *)
Theorem staff_systems_ascending
  (lines : option (list Line)) (image_height : Z) (system : list Z) :
  In system (group_staff_lines lines image_height) ->
  exists l0 l1 l2 l3 l4,
    system = [l0; l1; l2; l3; l4]
    /\ ((l0 = l1 /\ l1 = l2 /\ l2 = l3 /\ l3 = l4)
        \/ (l0 < l1 /\ l1 < l2 /\ l2 < l3 /\ l3 < l4)).
Proof.
  intros Hin.
  assert (Hvalid : validate_staff_spacing system = true).
  { destruct lines as [lines |]; [| contradiction].
    exact (group_loop_valid _ _ _ Hin). }
  destruct (validate_staff_spacing_five system Hvalid) as (l0 & l1 & l2 & l3 & l4 & ->).
  exists l0, l1, l2, l3, l4. split; [reflexivity |].
  rewrite validate_staff_spacing_Z in Hvalid. cbv zeta in Hvalid.
  rewrite !andb_true_iff, !Z.leb_le in Hvalid. lia.
Qed.

Lemma staff_systems_ascending_witness :
  exists l0 l1 l2 l3 l4,
    [7; 7; 7; 7; 7] = [l0; l1; l2; l3; l4]
    /\ ((l0 = l1 /\ l1 = l2 /\ l2 = l3 /\ l3 = l4)
        \/ (l0 < l1 /\ l1 < l2 /\ l2 < l3 /\ l3 < l4)).
Proof.
  apply (staff_systems_ascending (Some (Ex.segments [7; 7; 7; 7; 7])) 1000).
  vm_compute. left. reflexivity.
Defined.

Lemma group_loop_sublist (horizontal_lines : list Z) (i : nat) :
  concat (group_loop horizontal_lines i) `sublist_of` drop i horizontal_lines
  /\ (5 * length (group_loop horizontal_lines i)
      <= length horizontal_lines - i)%nat.
Proof.
  funelim (group_loop horizontal_lines i).
  - split; [apply sublist_nil_l | cbn; lia].
  - destruct H as [Hsub Hcount]. split.
    + cbn [concat].
      rewrite <- (take_drop 5 (drop i horizontal_lines)) at 2.
      apply sublist_app; [reflexivity |].
      rewrite drop_drop. exact Hsub.
    + cbn [length]. lia.
  - destruct H as [Hsub Hcount]. split; [| lia].
    etransitivity; [exact Hsub |].
    rewrite <- (drop_drop horizontal_lines 1 i). apply sublist_drop.
Qed.

(** X3: The systems are cut out of the sorted line heights one after the other:
    joined, they are a subsequence of the sorted heights, so no detected
    line is used twice, and [n] lines give at most [n / 5] systems. *)
Theorem staff_systems_disjoint (lines : list Line) (image_height : Z) :
  let heights := Py.sorted (fun y => y) (horizontal_lines_of lines) in
  concat (group_staff_lines (Some lines) image_height) `sublist_of` heights
  /\ (5 * length (group_staff_lines (Some lines) image_height) <= length heights)%nat.
Proof.
  intros heights. unfold group_staff_lines. fold heights.
  destruct (group_loop_sublist heights 0) as [Hsub Hcount].
  split; [exact Hsub | lia].
Qed.

Lemma insert_insert (x y : Z) (l : list Z) :
  Py.insert (fun y => y) x (Py.insert (fun y => y) y l)
  = Py.insert (fun y => y) y (Py.insert (fun y => y) x l).
Proof.
  induction l as [| z l IH]; cbn [Py.insert].
  - destruct (Z.leb_spec x y), (Z.leb_spec y x); try reflexivity; try lia.
    replace y with x by lia. reflexivity.
  - destruct (Z.leb_spec y z), (Z.leb_spec x z); cbn [Py.insert].
    + destruct (Z.leb_spec x y), (Z.leb_spec y x), (Z.leb_spec x z), (Z.leb_spec y z);
        try reflexivity; try lia.
      replace y with x by lia. reflexivity.
    + destruct (Z.leb_spec x y), (Z.leb_spec y z), (Z.leb_spec x z); try reflexivity; lia.
    + destruct (Z.leb_spec y x), (Z.leb_spec y z), (Z.leb_spec x z); try reflexivity; lia.
    + destruct (Z.leb_spec y z), (Z.leb_spec x z); try lia. rewrite IH. reflexivity.
Qed.

(** Sorting integers forgets the order they came in. *)
Lemma sorted_Permutation (l1 l2 : list Z) :
  Permutation l1 l2 -> Py.sorted (fun y => y) l1 = Py.sorted (fun y => y) l2.
Proof.
  induction 1 as [| x l1 l2 _ IH | x y l | l1 l2 l3 _ IH1 _ IH2]; cbn [Py.sorted].
  - reflexivity.
  - rewrite IH. reflexivity.
  - apply insert_insert.
  - congruence.
Qed.

(** X4: The staff systems depend only on the heights of the nearly horizontal
    segments, as a multiset: not on the order in which the Hough transform
    returns the segments, not on their horizontal extent, not on segments
    tilted by 10 pixels or more, and not on the image height. *)
Theorem staff_systems_from_heights (lines lines' : list Line) (image_height image_height' : Z) :
  Permutation (horizontal_lines_of lines) (horizontal_lines_of lines') ->
  group_staff_lines (Some lines) image_height
  = group_staff_lines (Some lines') image_height'.
Proof.
  intros Hperm. unfold group_staff_lines.
  rewrite (sorted_Permutation _ _ Hperm). reflexivity.
Qed.

Lemma staff_systems_from_heights_witness :
  group_staff_lines
    (Some [mkLine 0 100 800 100; mkLine 5 150 700 152; mkLine 0 190 800 210;
           mkLine 0 200 800 200; mkLine 0 250 800 250; mkLine 0 300 800 300]) 1000
  = group_staff_lines (Some (Ex.segments [300; 250; 200; 151; 100])) 400.
Proof.
  apply staff_systems_from_heights. vm_compute.
  apply (Permutation_rev [100; 151; 200; 250; 300]).
Defined.

(** ** SymbolBuilder: the pitch bands *)

(** [lra] reads [inject_Z] of a constant only: name the other injections. *)
Lemma int_of_float_band (q : Q) (k : Z) :
  0 <= k -> (inject_Z k <= q)%Q -> (q < inject_Z k + 1)%Q -> Py.int_of_float q = k.
Proof.
  destruct q as [n d]. unfold Py.int_of_float, Qle, Qlt. cbn. intros Hk Hlo Hhi.
  assert (Hn : 0 <= n) by nia.
  rewrite Z.quot_div_nonneg by lia.
  symmetry. apply (Z.div_unique n (Z.pos d) k (n - k * Z.pos d)); lia.
Qed.

Lemma int_of_float_monotone (q q' : Q) :
  (q <= q')%Q -> Py.int_of_float q <= Py.int_of_float q'.
Proof.
  intros Hle.
  destruct (int_of_float_truncates q) as [Hpos Hneg].
  destruct (int_of_float_truncates q') as [Hpos' Hneg'].
  destruct (Qlt_le_dec q 0) as [Hq | Hq], (Qlt_le_dec q' 0) as [Hq' | Hq'].
  - destruct (Hneg ltac:(lra)), (Hneg' ltac:(lra)).
    apply inject_Z_lt_succ. name_injections. lra.
  - destruct (Hneg ltac:(lra)), (Hpos' Hq').
    assert (Py.int_of_float q <= 0)
      by (apply inject_Z_lt_succ; change (inject_Z 0) with 0%Q; name_injections; lra).
    assert (0 <= Py.int_of_float q')
      by (apply inject_Z_lt_succ; change (inject_Z 0) with 0%Q; name_injections; lra).
    lia.
  - lra.
  - destruct (Hpos Hq), (Hpos' Hq').
    apply inject_Z_lt_succ. name_injections. lra.
Qed.

(** Just above zero from below: [int] rounds (-1, 0] up to 0. *)
Lemma int_of_float_small_negative (q : Q) :
  (-1 < q)%Q -> (q <= 0)%Q -> Py.int_of_float q = 0.
Proof.
  intros Hlo Hhi.
  destruct (int_of_float_truncates q) as [_ Hneg]. destruct (Hneg Hhi) as [H1 H2].
  assert (Py.int_of_float q <= 0)
    by (apply inject_Z_lt_succ; change (inject_Z 0) with 0%Q; name_injections; lra).
  assert (0 <= Py.int_of_float q)
    by (apply inject_Z_lt_succ; change (inject_Z 0) with 0%Q; name_injections; lra).
  lia.
Qed.

Lemma spacing_positive (height : Z) : 0 < height -> (0 < inject_Z height / 4)%Q.
Proof. intros H. unfold Qlt, Qdiv, Qmult, Qinv, inject_Z. cbn. lia. Qed.

(** X5: The bands of the staff: with the top line at [top] and the line spacing
    [spacing = (max - min) / 4], a centre in
    [top + k spacing, top + (k + 1) spacing) gets entry [k] of the ladder,
    for k = 0 .. 10 (so the five lines of an evenly spaced staff are F5,
    E5, D5, C5, B4, one ladder step per full line spacing); the band of F5
    extends one spacing above the top line, because [int] truncates
    towards zero; everything else is C4. *)
Theorem pitch_bands (y : Q) (staff_lines : list Z) (k : Z) :
  Py.min staff_lines < Py.max staff_lines ->
  let top := inject_Z (Py.min staff_lines) in
  let spacing := (inject_Z (Py.max staff_lines - Py.min staff_lines) / 4)%Q in
  (0 <= k <= 10 ->
   (top + inject_Z k * spacing <= y)%Q -> (y < top + (inject_Z k + 1) * spacing)%Q ->
   calculate_pitch_from_staff_position y staff_lines = Ok (pitches !!! Z.to_nat k))
  /\ ((top - spacing < y)%Q -> (y <= top)%Q ->
      calculate_pitch_from_staff_position y staff_lines = Ok "F5")
  /\ ((y <= top - spacing)%Q ->
      calculate_pitch_from_staff_position y staff_lines = Ok "C4")
  /\ ((top + 11 * spacing <= y)%Q ->
      calculate_pitch_from_staff_position y staff_lines = Ok "C4").
Proof.
  intros Hheight top spacing.
  destruct (calculate_pitch_from_staff_position_cases y staff_lines) as (_ & Hok & _).
  rewrite Hok by lia. fold top spacing.
  assert (Hspacing : (0 < spacing)%Q) by (apply spacing_positive; lia).
  set (rel := ((y - top) / spacing)%Q).
  split; [| split; [| split]].
  - intros Hk Hlo Hhi.
    assert (Hrel : Py.int_of_float rel = k).
    { apply int_of_float_band; [lia | |].
      - apply Qle_shift_div_l; [exact Hspacing |].
        generalize dependent (inject_Z k * spacing)%Q. intros. lra.
      - apply Qlt_shift_div_r; [exact Hspacing |].
        generalize dependent ((inject_Z k + 1) * spacing)%Q. intros. lra. }
    rewrite Hrel. unfold Spec.ladder_lookup.
    change (Z.of_nat (length pitches)) with 11.
    destruct (Z.leb_spec 0 k), (Z.ltb_spec k 11); try lia. reflexivity.
  - intros Hlo Hhi.
    assert (Hrel : Py.int_of_float rel = 0).
    { apply int_of_float_small_negative.
      - apply Qlt_shift_div_l; [exact Hspacing | lra].
      - apply Qle_shift_div_r; [exact Hspacing | lra]. }
    rewrite Hrel. reflexivity.
  - intros Hhi.
    assert (Hrel : Py.int_of_float rel <= -1).
    { change (-1) with (Py.int_of_float (-1)). apply int_of_float_monotone.
      apply Qle_shift_div_r; [exact Hspacing | lra]. }
    unfold Spec.ladder_lookup.
    destruct (Z.leb_spec 0 (Py.int_of_float rel)); [lia | reflexivity].
  - intros Hlo.
    assert (Hrel : 11 <= Py.int_of_float rel).
    { change 11 with (Py.int_of_float 11). apply int_of_float_monotone.
      apply Qle_shift_div_l; [exact Hspacing | lra]. }
    unfold Spec.ladder_lookup. change (Z.of_nat (length pitches)) with 11.
    destruct (Z.ltb_spec (Py.int_of_float rel) 11); [lia |].
    rewrite andb_false_r. reflexivity.
Qed.

Lemma pitch_bands_witness :
  calculate_pitch_from_staff_position 150 Ex.staff_100 = Ok "E5"
  /\ calculate_pitch_from_staff_position 60 Ex.staff_100 = Ok "F5"
  /\ calculate_pitch_from_staff_position 50 Ex.staff_100 = Ok "C4"
  /\ calculate_pitch_from_staff_position 650 Ex.staff_100 = Ok "C4".
Proof.
  destruct (pitch_bands 150 Ex.staff_100 1 ltac:(vm_compute; reflexivity))
    as (Hband & _).
  destruct (pitch_bands 60 Ex.staff_100 0 ltac:(vm_compute; reflexivity))
    as (_ & Habove & _).
  destruct (pitch_bands 50 Ex.staff_100 0 ltac:(vm_compute; reflexivity))
    as (_ & _ & Hfar & _).
  destruct (pitch_bands 650 Ex.staff_100 0 ltac:(vm_compute; reflexivity))
    as (_ & _ & _ & Hbelow).
  split; [| split; [| split]].
  - apply Hband; [lia | vm_compute; discriminate | vm_compute; reflexivity].
  - apply Habove; [vm_compute; reflexivity | vm_compute; discriminate].
  - apply Hfar. vm_compute. discriminate.
  - apply Hbelow. vm_compute. discriminate.
Defined.

(** An index of the ladder is one of its eleven positions. *)
Lemma ladder_position (n : Z) :
  0 <= n <= 10 -> exists k : nat, (k < 11)%nat /\ n = Z.of_nat k.
Proof. intros Hn. exists (Z.to_nat n). lia. Qed.

Tactic Notation "each_position" ident(k) tactic3(tac) :=
  do 11 (destruct k as [| k]; [solve [tac] |]); lia.

Ltac by_evaluation :=
  first [lia | vm_compute; first [reflexivity | discriminate]].

(** Down the ladder the MIDI number falls, and outside it is the lowest. *)
Lemma ladder_midi_falls (i j : Z) :
  0 <= i <= j ->
  pitch_to_midi_number (Spec.ladder_lookup pitches j)
  <= pitch_to_midi_number (Spec.ladder_lookup pitches i).
Proof.
  intros Hij.
  assert (Hout : forall n, 11 <= n -> Spec.ladder_lookup pitches n = "C4").
  { intros n Hn. unfold Spec.ladder_lookup. change (Z.of_nat (length pitches)) with 11.
    destruct (Z.ltb_spec n 11); [lia |]. rewrite andb_false_r. reflexivity. }
  assert (Hlow : forall n, 0 <= n ->
                   60 <= pitch_to_midi_number (Spec.ladder_lookup pitches n)).
  { intros n Hn. destruct (Z.le_gt_cases 11 n) as [Hn' | Hn'].
    - rewrite Hout by exact Hn'. vm_compute. discriminate.
    - destruct (ladder_position n) as (k & Hk & ->); [lia |].
      each_position k by_evaluation. }
  destruct (Z.le_gt_cases 11 j) as [Hj | Hj].
  - rewrite (Hout j Hj). change (pitch_to_midi_number "C4") with 60. apply Hlow. lia.
  - destruct (ladder_position i) as (a & Ha & ->); [lia |].
    destruct (ladder_position j) as (b & Hb & ->); [lia |].
    assert (Hab : (a <= b)%nat) by lia. clear Hij Hj Hout Hlow.
    each_position a (each_position b by_evaluation).
Qed.

(** X6: Lower on the page is never higher in pitch: from one line spacing above
    the top line downwards, the MIDI number of the assigned pitch does not
    rise with [y]. *)
Theorem pitch_monotone (y y' : Q) (staff_lines : list Z) :
  Py.min staff_lines < Py.max staff_lines ->
  let top := inject_Z (Py.min staff_lines) in
  let spacing := (inject_Z (Py.max staff_lines - Py.min staff_lines) / 4)%Q in
  (top - spacing < y)%Q -> (y <= y')%Q ->
  exists p p',
    calculate_pitch_from_staff_position y staff_lines = Ok p
    /\ calculate_pitch_from_staff_position y' staff_lines = Ok p'
    /\ pitch_to_midi_number p' <= pitch_to_midi_number p.
Proof.
  intros Hheight top spacing Habove Hle.
  destruct (calculate_pitch_from_staff_position_cases y staff_lines) as (_ & Hok & _).
  destruct (calculate_pitch_from_staff_position_cases y' staff_lines) as (_ & Hok' & _).
  rewrite Hok, Hok' by lia. fold top spacing.
  assert (Hspacing : (0 < spacing)%Q) by (apply spacing_positive; lia).
  eexists. eexists. split; [reflexivity | split; [reflexivity |]].
  apply ladder_midi_falls. split.
  - destruct (Qlt_le_dec y top) as [Hy | Hy].
    + rewrite int_of_float_small_negative; [lia | |].
      * apply Qlt_shift_div_l; [exact Hspacing | lra].
      * apply Qle_shift_div_r; [exact Hspacing | lra].
    + assert (Hrel : (0 <= (y - top) / spacing)%Q)
        by (apply Qle_shift_div_l; [exact Hspacing | lra]).
      apply int_of_float_monotone in Hrel. exact Hrel.
  - apply int_of_float_monotone. unfold Qdiv.
    apply Qmult_le_compat_r; [lra |].
    apply Qlt_le_weak, Qinv_lt_0_compat, Hspacing.
Qed.

Lemma pitch_monotone_witness :
  exists p p',
    calculate_pitch_from_staff_position 120 Ex.staff_100 = Ok p
    /\ calculate_pitch_from_staff_position 290 Ex.staff_100 = Ok p'
    /\ pitch_to_midi_number p' <= pitch_to_midi_number p.
Proof.
  apply pitch_monotone; vm_compute; (reflexivity || discriminate).
Defined.

Lemma int_of_float_Qeq (q q' : Q) :
  (q == q')%Q -> Py.int_of_float q = Py.int_of_float q'.
Proof.
  intros Heq. apply Z.le_antisymm; apply int_of_float_monotone; rewrite Heq; apply Qle_refl.
Qed.

Lemma min_shift (c : Z) (l : list Z) :
  l <> [] -> Py.min (map (Z.add c) l) = c + Py.min l.
Proof.
  destruct l as [| x l]; [contradiction |]. intros _. cbn [Py.min map].
  revert x. induction l as [| z l IH]; intros x; [reflexivity |].
  cbn [map fold_left]. rewrite Z.add_min_distr_l. apply IH.
Qed.

Lemma max_shift (c : Z) (l : list Z) :
  l <> [] -> Py.max (map (Z.add c) l) = c + Py.max l.
Proof.
  destruct l as [| x l]; [contradiction |]. intros _. cbn [Py.max map].
  revert x. induction l as [| z l IH]; intros x; [reflexivity |].
  cbn [map fold_left]. rewrite Z.add_max_distr_l. apply IH.
Qed.

Lemma min_le_max (l : list Z) : Py.min l <= Py.max l.
Proof.
  destruct l as [| x l]; [reflexivity |]. cbn [Py.min Py.max].
  assert (Hgen : forall a b, a <= b -> fold_left Z.min l a <= fold_left Z.max l b).
  { induction l as [| z l IH]; intros a b Hab; [exact Hab |].
    cbn [fold_left]. apply IH. lia. }
  apply Hgen. lia.
Qed.

(** X7: The pitch depends on the position relative to the staff only: moving
    the staff and the note by the same number of pixels changes nothing,
    whether the result is a pitch or the failure on a staff of height zero. *)
Theorem pitch_translation (y : Q) (c : Z) (staff_lines : list Z) :
  calculate_pitch_from_staff_position (y + inject_Z c) (map (Z.add c) staff_lines)
  = calculate_pitch_from_staff_position y staff_lines.
Proof.
  destruct staff_lines as [| l0 staff_lines]; [reflexivity |].
  set (staff := l0 :: staff_lines).
  assert (Hne : staff <> []) by discriminate.
  assert (Hne' : map (Z.add c) staff <> []) by discriminate.
  clearbody staff. clear l0 staff_lines.
  destruct (calculate_pitch_from_staff_position_cases y staff) as (_ & Hok & Hflat).
  destruct (calculate_pitch_from_staff_position_cases (y + inject_Z c) (map (Z.add c) staff))
    as (_ & Hok' & Hflat').
  rewrite (min_shift c staff Hne), (max_shift c staff Hne) in Hok', Hflat'.
  destruct (Z.eq_dec (Py.min staff) (Py.max staff)) as [Heq | Hneq].
  - rewrite Hflat, Hflat' by (assumption || lia). f_equal.
    unfold flat_staff_error. rewrite (min_shift c staff Hne).
    rewrite (Qeq_bool_comp (y + inject_Z c - inject_Z (c + Py.min staff))
               (y - inject_Z (Py.min staff)) 0 0);
      [reflexivity | rewrite inject_Z_plus; ring | reflexivity].
  - rewrite Hok, Hok' by lia. do 2 f_equal.
    apply int_of_float_Qeq.
    replace (c + Py.max staff - (c + Py.min staff)) with (Py.max staff - Py.min staff) by lia.
    rewrite inject_Z_plus.
    assert (Hheight : ~ (inject_Z (Py.max staff - Py.min staff) == 0)%Q).
    { pose proof (min_le_max staff).
      unfold Qeq, inject_Z. cbn. lia. }
    field. exact Hheight.
Qed.

(** ** SymbolBuilder: the detections *)

(** A property of every entry of a table, checked entry by entry. *)
Lemma table_cases `{Countable K} {V : Type} (m : gmap K V) (P : K -> V -> bool) :
  forallb (fun e => P (fst e) (snd e)) (map_to_list m) = true ->
  forall k v, m !! k = Some v -> P k v = true.
Proof.
  intros Hall k v Hlookup.
  rewrite forallb_forall in Hall.
  apply (Hall (k, v)).
  apply list_elem_of_In, elem_of_map_to_list, Hlookup.
Qed.

(** The class table has the ids 0 .. 46 and no other. *)
Lemma class_ids (id : Z) :
  (0 <= id <= 46 -> exists name, MUSICAL_SYMBOL_CLASSES !! id = Some name)
  /\ (id < 0 \/ 46 < id -> MUSICAL_SYMBOL_CLASSES !! id = None).
Proof.
  split.
  - intros Hid.
    destruct (MUSICAL_SYMBOL_CLASSES !! id) as [name |] eqn:Hname; [eauto |].
    exfalso. apply not_elem_of_list_to_map_2 in Hname.
    apply Hname. apply list_elem_of_In. vm_compute. lia.
  - intros Hid. apply not_elem_of_list_to_map_1.
    rewrite list_elem_of_In. vm_compute. lia.
Qed.

Lemma Ok_inj {A} (a b : A) : Ok a = Ok b -> a = b.
Proof.
  intros H. exact (f_equal (fun r => match r with Ok x => x | Raise _ => a end) H).
Qed.

Lemma process_detection_fields (d : Detection) (staff_lines : list Z) (s : Symbol) :
  process_detection d staff_lines = Ok s ->
  class s = class_of d /\ box s = box_of d /\ confidence s = conf d
  /\ duration s = default 1%Q (SYMBOL_DURATIONS !! class_of d)
  /\ accidental s = None
  /\ (is_note_class (class_of d) = false -> pitch s = "C4").
Proof.
  unfold process_detection. fold (class_of d) (box_of d).
  destruct (is_note_class (class_of d)).
  - destruct (calculate_pitch_from_staff_position _ staff_lines) as [p |];
      unfold mbind, result_bind, mret, result_ret; [| discriminate].
    intros H. apply Ok_inj in H. subst s.
    cbn [class box confidence duration accidental pitch].
    repeat split. discriminate.
  - unfold mbind, result_bind, mret, result_ret.
    intros H. apply Ok_inj in H. subst s.
    cbn [class box confidence duration accidental pitch].
    repeat split.
Qed.

Lemma process_detection_raise (d : Detection) (staff_lines : list Z) :
  staff_lines <> [] -> Py.min staff_lines = Py.max staff_lines ->
  is_note_class (class_of d) = true ->
  process_detection d staff_lines = Raise (flat_staff_error (center_of d) staff_lines).
Proof.
  intros Hne Hflat Hnote. unfold process_detection.
  fold (class_of d) (center_of d). rewrite Hnote.
  destruct (calculate_pitch_from_staff_position_cases (center_of d) staff_lines)
    as (_ & _ & Hraise).
  rewrite (Hraise Hne Hflat). reflexivity.
Qed.

Lemma flat_staff_error_cases (y : Q) (staff_lines : list Z) :
  flat_staff_error y staff_lines
  = if Qeq_bool y (inject_Z (Py.min staff_lines))
    then ValueError "cannot convert float NaN to integer"
    else OverflowError "cannot convert float infinity to integer".
Proof. unfold flat_staff_error. rewrite Qeq_bool_minus. reflexivity. Qed.

Lemma process_detection_ok (d : Detection) (staff_lines : list Z) :
  staff_lines = [] \/ Py.min staff_lines <> Py.max staff_lines
  \/ is_note_class (class_of d) = false ->
  exists s, process_detection d staff_lines = Ok s.
Proof.
  intros [-> | [Hheight | Hother]].
  - unfold process_detection. destruct (is_note_class _); eexists; reflexivity.
  - apply process_detection_total, Hheight.
  - eexists. apply process_detection_other. exact Hother.
Qed.

(** The loop stops at the first element that raises. *)
Lemma mapM_result_find {A B} (f : A -> result B) (p : A -> bool) (xs : list A)
  (x : A) (e : exn) :
  (forall y, p y = false -> exists b, f y = Ok b) ->
  List.find p xs = Some x -> f x = Raise e ->
  mapM_result f xs = Raise e.
Proof.
  intros Hok. induction xs as [| y xs IH]; cbn [List.find mapM_result]; [discriminate |].
  destruct (p y) eqn:Hy.
  - intros [= ->] ->. reflexivity.
  - intros Hfind Hx. destruct (Hok y Hy) as [b ->].
    unfold mbind, result_bind. rewrite (IH Hfind Hx). reflexivity.
Qed.

Lemma mapM_result_Forall2 {A B} (f : A -> result B) (xs : list A) (ys : list B) :
  mapM_result f xs = Ok ys -> Forall2 (fun x y => f x = Ok y) xs ys.
Proof.
  revert ys. induction xs as [| x xs IH]; intros ys; cbn [mapM_result].
  - intros [= <-]. constructor.
  - destruct (f x) as [y |] eqn:Hx; [| discriminate].
    unfold mbind, result_bind.
    destruct (mapM_result f xs) as [ys' |]; [| discriminate].
    cbn. intros [= <-]. constructor; [exact Hx | apply IH; reflexivity].
Qed.

(** X8: When the symbol list is built and when it is not.  On a staff that is
    not empty and whose lines are all at one height, the conversion stops
    at the first note-like detection with the error of [int] on nan, when
    the centre of that detection is on the line, or on an infinity; in
    every other case there is one symbol per detection, in the order of
    the detections, with the class, box, confidence and table duration of
    its detection, no accidental, and the pitch C4 when it is not
    note-like. *)
Theorem process_detections_outcome (boxes : list Detection) (staff_lines : list Z) :
  let flat := staff_lines <> [] /\ Py.min staff_lines = Py.max staff_lines in
  let first_note := List.find (fun d => is_note_class (class_of d)) boxes in
  (forall d,
      flat -> first_note = Some d ->
      process_detections_enhanced (Some boxes) staff_lines
      = Raise (if Qeq_bool (center_of d) (inject_Z (Py.min staff_lines))
               then ValueError "cannot convert float NaN to integer"
               else OverflowError "cannot convert float infinity to integer"))
  /\ (~ flat \/ first_note = None ->
      exists symbols,
        process_detections_enhanced (Some boxes) staff_lines = Ok symbols
        /\ Forall2 (fun d s =>
                      class s = class_of d /\ box s = box_of d /\ confidence s = conf d
                      /\ duration s = default 1%Q (SYMBOL_DURATIONS !! class_of d)
                      /\ accidental s = None
                      /\ (is_note_class (class_of d) = false -> pitch s = "C4"))
                   boxes symbols).
Proof.
  intros flat first_note. cbn [process_detections_enhanced]. split.
  - intros d [Hne Hflat] Hfirst.
    rewrite <- flat_staff_error_cases.
    apply (mapM_result_find _ (fun d => is_note_class (class_of d)) boxes d).
    + intros x Hx. apply process_detection_ok. auto.
    + exact Hfirst.
    + apply find_some in Hfirst as [_ Hnote].
      apply process_detection_raise; assumption.
  - intros Hnot.
    destruct (mapM_result_total (fun d => process_detection d staff_lines) boxes)
      as (symbols & Hok & _).
    { intros d Hd. apply process_detection_ok.
      destruct staff_lines as [| l0 staff_lines]; [left; reflexivity | right].
      destruct (Z.eq_dec (Py.min (l0 :: staff_lines)) (Py.max (l0 :: staff_lines)))
        as [Hflat | Hheight]; [right | left; exact Hheight].
      destruct Hnot as [Hnot | Hnone].
      - exfalso. apply Hnot. split; [discriminate | exact Hflat].
      - destruct (is_note_class (class_of d)) eqn:Hnote; [| reflexivity].
        exfalso. apply (find_none _ _ Hnone) in Hd. cbv beta in Hd. congruence. }
    exists symbols. split; [exact Hok |].
    apply mapM_result_Forall2 in Hok.
    eapply Forall2_impl; [exact Hok |].
    intros d s Hs. apply (process_detection_fields d staff_lines s Hs).
Qed.

Lemma process_detections_outcome_witness :
  process_detections_enhanced (Some [Ex.quarter_at 7; Ex.quarter_at 8]) [7; 7; 7; 7; 7]
  = Raise (ValueError "cannot convert float NaN to integer")
  /\ process_detections_enhanced (Some [Ex.quarter_at 8; Ex.quarter_at 7]) [7; 7; 7; 7; 7]
     = Raise (OverflowError "cannot convert float infinity to integer").
Proof.
  split.
  - apply (proj1 (process_detections_outcome [Ex.quarter_at 7; Ex.quarter_at 8]
                    [7; 7; 7; 7; 7]) (Ex.quarter_at 7));
      [split; [discriminate | reflexivity] | reflexivity].
  - apply (proj1 (process_detections_outcome [Ex.quarter_at 8; Ex.quarter_at 7]
                    [7; 7; 7; 7; 7]) (Ex.quarter_at 8));
      [split; [discriminate | reflexivity] | reflexivity].
Defined.

(** X9: A class id outside the table is no error: whatever the staff, the
    detection becomes a symbol of class 'unknown' with pitch C4 and duration
    1.0, which is no note, no accidental and no bar line for the later
    stages. *)
Theorem unknown_class_id (d : Detection) (staff_lines : list Z) :
  cls d < 0 \/ 46 < cls d ->
  process_detection d staff_lines
  = Ok (mkSymbol "unknown" (conf d) (box_of d) "C4" 1 None)
  /\ is_note_class "unknown" = false
  /\ Py.str_in "unknown" accidental_classes = false
  /\ Py.str_in "unknown" ["bar_line"; "double_bar_line"] = false.
Proof.
  intros Hid. split; [| repeat split].
  destruct (class_ids (cls d)) as [_ Hnone]. specialize (Hnone Hid).
  rewrite process_detection_other by (rewrite Hnone; reflexivity).
  rewrite Hnone. unfold symbol_of, box_of.
  assert (Hduration : SYMBOL_DURATIONS !! "unknown" = None) by (vm_compute; reflexivity).
  cbn [default from_option]. rewrite Hduration. reflexivity.
Qed.

Lemma unknown_class_id_witness :
  process_detection (mkDetection 1 2 3 4 (1 # 2) 47) [7; 7; 7; 7; 7]
  = Ok (mkSymbol "unknown" (1 # 2) (mkBox 1 2 2 2) "C4" 1 None).
Proof.
  apply (proj1 (unknown_class_id (mkDetection 1 2 3 4 (1 # 2) 47) [7; 7; 7; 7; 7]
                  ltac:(right; reflexivity))).
Defined.

(** X10: The table of the training labels is the inverse of the class table of
    the server: a name has id [i] for training exactly when the server
    reads id [i] as that name. *)
Theorem class_tables_inverse (id : Z) (name : string) :
  MUSICAL_SYMBOL_CLASSES !! id = Some name
  <-> PrepareDataset.CLASS_MAPPING !! name = Some id.
Proof.
  split; intros Hlookup.
  - apply (table_cases MUSICAL_SYMBOL_CLASSES
             (fun id name => bool_decide (PrepareDataset.CLASS_MAPPING !! name = Some id)))
      in Hlookup; [apply bool_decide_eq_true in Hlookup; exact Hlookup |].
    vm_compute. reflexivity.
  - apply (table_cases PrepareDataset.CLASS_MAPPING
             (fun name id => bool_decide (MUSICAL_SYMBOL_CLASSES !! id = Some name)))
      in Hlookup; [apply bool_decide_eq_true in Hlookup; exact Hlookup |].
    vm_compute. reflexivity.
Qed.

(** ** AccidentalBinder, further *)

Lemma closest_fold_min (note : Symbol) (accidentals : list Symbol) :
  forall seen st,
    closest_min_inv note seen st ->
    closest_min_inv note (seen ++ accidentals)
      (fold_left (closest_step note) accidentals st).
Proof.
  induction accidentals as [| a accidentals IH]; intros seen st Hinv.
  - rewrite app_nil_r. exact Hinv.
  - cbn [fold_left].
    replace (seen ++ a :: accidentals) with ((seen ++ [a]) ++ accidentals)
      by (rewrite <- app_assoc; reflexivity).
    apply IH. unfold closest_step.
    destruct (in_window note a) eqn:Hwin.
    + destruct st as [[acc |] [distance |]]; cbn [snd]; cbn in Hinv; try contradiction.
      * destruct Hinv as (Hacc & Hacc_win & Hdist & Hmin).
        destruct (Z.ltb_spec (bx (box note) - bx (box a)) distance) as [Hnearer | Hfar].
        -- cbn. split; [apply in_or_app; right; left; reflexivity |].
           split; [exact Hwin |]. split; [reflexivity |].
           intros a' Ha' Hwin'. apply in_app_or in Ha' as [Ha' | [<- | []]]; [| lia].
           specialize (Hmin a' Ha' Hwin'). lia.
        -- cbn. split; [apply in_or_app; left; exact Hacc |].
           split; [exact Hacc_win |]. split; [exact Hdist |].
           intros a' Ha' Hwin'. apply in_app_or in Ha' as [Ha' | [<- | []]]; [| lia].
           apply Hmin; assumption.
      * cbn. split; [apply in_or_app; right; left; reflexivity |].
        split; [exact Hwin |]. split; [reflexivity |].
        intros a' Ha' Hwin'. apply in_app_or in Ha' as [Ha' | [<- | []]]; [| lia].
        rewrite (Hinv a' Ha') in Hwin'. discriminate.
    + destruct st as [[acc |] [distance |]]; cbn in Hinv |- *; try contradiction.
      * destruct Hinv as (Hacc & Hacc_win & Hdist & Hmin).
        split; [apply in_or_app; left; exact Hacc |].
        split; [exact Hacc_win |]. split; [exact Hdist |].
        intros a' Ha' Hwin'. apply in_app_or in Ha' as [Ha' | [<- | []]];
          [apply Hmin; assumption | congruence].
      * intros a' Ha'. apply in_app_or in Ha' as [Ha' | [<- | []]];
          [apply Hinv, Ha' | exact Hwin].
Qed.

(** X11: The accidental bound to a note is the nearest one on its left at about
    its height: it is in the window and no accidental of the window starts
    further right; and no accidental is bound only when none is in the
    window. *)
Theorem closest_accidental_nearest (note : Symbol) (accidentals : list Symbol) :
  match closest_accidental note accidentals with
  | Some acc =>
      In acc accidentals /\ in_window note acc = true
      /\ forall a, In a accidentals -> in_window note a = true ->
                   bx (box a) <= bx (box acc)
  | None => forall a, In a accidentals -> in_window note a = false
  end.
Proof.
  unfold closest_accidental.
  pose proof (closest_fold_min note accidentals [] (None, None)) as Hinv.
  cbn [app] in Hinv. specialize (Hinv (fun a Ha => match Ha with end)).
  destruct (fold_left (closest_step note) accidentals (None, None))
    as [[acc |] [distance |]]; cbn in Hinv |- *; try contradiction.
  - destruct Hinv as (Hacc & Hwin & Hdist & Hmin).
    split; [exact Hacc | split; [exact Hwin |]].
    intros a Ha Hwin'. specialize (Hmin a Ha Hwin'). lia.
  - exact Hinv.
Qed.

Lemma resolve_symbol_frame (accidentals : list Symbol) (s : Symbol) :
  class (resolve_symbol accidentals s) = class s
  /\ confidence (resolve_symbol accidentals s) = confidence s
  /\ box (resolve_symbol accidentals s) = box s
  /\ duration (resolve_symbol accidentals s) = duration s
  /\ (is_note_class (class s) = false -> resolve_symbol accidentals s = s).
Proof.
  unfold resolve_symbol, apply_accidental.
  destruct (is_accidental s); [repeat split |].
  destruct (is_note_class (class s)); [| repeat split].
  destruct (closest_accidental s accidentals); repeat split; discriminate.
Qed.

Lemma filter_map_resolve (accidentals symbols : list Symbol) :
  filter (fun s => is_accidental s = false) (map (resolve_symbol accidentals) symbols)
  = map (resolve_symbol accidentals)
      (List.filter (fun s => negb (is_accidental s)) symbols).
Proof.
  induction symbols as [| s symbols IH]; [reflexivity |].
  cbn [map List.filter]. rewrite filter_cons, IH.
  assert (Hacc : is_accidental (resolve_symbol accidentals s) = is_accidental s).
  { destruct (resolve_symbol_frame accidentals s) as (Hclass & _).
    unfold is_accidental. rewrite Hclass. reflexivity. }
  destruct (decide (is_accidental (resolve_symbol accidentals s) = false)) as [H | H];
    rewrite Hacc in H; destruct (is_accidental s); try congruence; reflexivity.
Qed.

(** X12: What the binder may touch: the output is the input without the sharp,
    flat and natural symbols, in the same order, where every symbol keeps
    its class, confidence, box and duration, and a symbol that is not
    note-like is not changed at all. *)
Theorem accidental_binder_frame (symbols : list Symbol) :
  Forall (fun s => is_accidental s = false) (apply_accidentals_to_notes symbols)
  /\ Forall2 (fun s s' =>
                class s' = class s /\ confidence s' = confidence s
                /\ box s' = box s /\ duration s' = duration s
                /\ (is_note_class (class s) = false -> s' = s))
       (List.filter (fun s => negb (is_accidental s)) symbols)
       (apply_accidentals_to_notes symbols).
Proof.
  unfold apply_accidentals_to_notes. split.
  - apply List.Forall_forall. intros s Hs.
    apply list_elem_of_In, list_elem_of_filter in Hs. apply Hs.
  - rewrite filter_map_resolve.
    induction (List.filter (fun s => negb (is_accidental s)) symbols) as [| s l IH];
      cbn [map]; constructor; [apply resolve_symbol_frame | exact IH].
Qed.

Lemma filter_all {A} (f : A -> bool) (l : list A) :
  Forall (fun x => f x = true) l -> List.filter f l = l.
Proof.
  induction 1 as [| x l Hx _ IH]; [reflexivity |].
  cbn [List.filter]. rewrite Hx, IH. reflexivity.
Qed.

Lemma filter_none {A} (f : A -> bool) (l : list A) :
  Forall (fun x => f x = false) l -> List.filter f l = [].
Proof.
  induction 1 as [| x l Hx _ IH]; [reflexivity |].
  cbn [List.filter]. rewrite Hx, IH. reflexivity.
Qed.

Lemma resolve_without_accidentals (s : Symbol) : resolve_symbol [] s = s.
Proof.
  unfold resolve_symbol, apply_accidental, closest_accidental. cbn [fold_left fst].
  destruct (is_accidental s), (is_note_class (class s)); reflexivity.
Qed.

(** X13: Binding twice is binding once: the output holds no accidental symbol
    any more, so a second pass changes nothing. *)
Theorem accidental_binder_idempotent (symbols : list Symbol) :
  apply_accidentals_to_notes (apply_accidentals_to_notes symbols)
  = apply_accidentals_to_notes symbols.
Proof.
  set (out := apply_accidentals_to_notes symbols).
  assert (Hout : Forall (fun s => is_accidental s = false) out).
  { apply List.Forall_forall. intros s Hs. unfold out, apply_accidentals_to_notes in Hs.
    apply list_elem_of_In, list_elem_of_filter in Hs. apply Hs. }
  clearbody out. unfold apply_accidentals_to_notes, accidentals_of.
  rewrite (filter_bool is_accidental), (filter_none _ _ Hout).
  rewrite (map_ext _ (fun s => s) resolve_without_accidentals), map_id.
  rewrite (list_filter_iff _ (fun s => negb (is_accidental s) = true)),
    (filter_bool (fun s => negb (is_accidental s))).
  - apply filter_all. eapply List.Forall_impl; [| exact Hout].
    intros s Hs. cbn beta in Hs. rewrite Hs. reflexivity.
  - intros s. destruct (is_accidental s); cbn; intuition congruence.
Qed.

(** ** MeasureSegmenter, further *)

Lemma measures_partition_witness :
  concat (group_symbols_by_measure [Ex.bar_at_100; Ex.note_at_100; Ex.bar_at_200]
            [Ex.staff_100])
  = [Ex.note_at_100].
Proof.
  rewrite measures_partition; [reflexivity | | |].
  - intros s [<- | [<- | [<- | []]]]; vm_compute; discriminate.
  - intros s [<- | [<- | [<- | []]]]; reflexivity.
  - intros s b Hs Hb Hs_class Hb_class Hsame.
    destruct Hs as [<- | [<- | [<- | []]]]; try discriminate Hs_class.
    destruct Hb as [<- | [<- | [<- | []]]]; try discriminate Hb_class;
      [| discriminate Hsame].
    exists Ex.bar_at_200. split; [right; right; left; reflexivity |].
    split; reflexivity.
Defined.

(** The function on its sorted input and bar lines. *)
Lemma group_symbols_unfold (symbols : list Symbol) (staff_lines : list (list Z)) :
  let sorted_symbols := Py.sorted (fun s => bx (box s)) symbols in
  let bar_lines := List.filter is_bar_line sorted_symbols in
  group_symbols_by_measure symbols staff_lines
  = match last bar_lines with
    | None => [sorted_symbols]
    | Some last_bar =>
        fst (fold_left (measure_step sorted_symbols) bar_lines ([], 0))
        ++ match measure_after sorted_symbols (bx (box last_bar)) with
           | [] => []
           | m => [m]
           end
    end.
Proof.
  intros sorted_symbols bar_lines. unfold group_symbols_by_measure.
  fold sorted_symbols. rewrite filter_bool. fold bar_lines.
  destruct (last bar_lines) as [last_bar |]; [| reflexivity].
  destruct (fold_left (measure_step sorted_symbols) bar_lines ([], 0)) as [measures stop].
  change (filter _ sorted_symbols) with (measure_after sorted_symbols (bx (box last_bar))).
  cbn [fst].
  destruct (measure_after sorted_symbols (bx (box last_bar)));
    [rewrite app_nil_r |]; reflexivity.
Qed.

Lemma measure_between_sublist (symbols : list Symbol) (lo hi : Z) :
  measure_between symbols lo hi `sublist_of` List.filter not_bar_line_class symbols.
Proof.
  induction symbols as [| s symbols IH]; [constructor |].
  rewrite measure_between_cons. cbn [List.filter].
  destruct (not_bar_line_class s).
  - destruct ((lo <=? bx (box s)) && (bx (box s) <? hi)); cbn [andb app];
      [apply sublist_skip | apply sublist_cons]; exact IH.
  - rewrite andb_false_r. exact IH.
Qed.

Lemma measure_after_sublist (symbols : list Symbol) (lo : Z) :
  measure_after symbols lo `sublist_of` List.filter not_bar_line_class symbols.
Proof.
  induction symbols as [| s symbols IH]; [constructor |].
  rewrite measure_after_cons. cbn [List.filter].
  destruct (not_bar_line_class s).
  - destruct (lo <? bx (box s)); cbn [andb app];
      [apply sublist_skip | apply sublist_cons]; exact IH.
  - rewrite andb_false_r. exact IH.
Qed.

Lemma measures_fold_Forall (P : list Symbol -> Prop) (sorted_symbols bar_lines : list Symbol) :
  (forall lo hi, measure_between sorted_symbols lo hi <> [] ->
                 P (measure_between sorted_symbols lo hi)) ->
  forall measures measure_start,
    Forall P measures ->
    Forall P (fst (fold_left (measure_step sorted_symbols) bar_lines
                     (measures, measure_start))).
Proof.
  intros Hbetween.
  induction bar_lines as [| b bar_lines IH]; intros measures measure_start Hall;
    [exact Hall |].
  cbn [fold_left]. unfold measure_step at 2.
  change (filter _ sorted_symbols)
    with (measure_between sorted_symbols measure_start (bx (box b))).
  destruct (measure_between sorted_symbols measure_start (bx (box b))) as [| s m] eqn:Hm.
  - apply IH, Hall.
  - apply IH. apply Forall_app. split; [exact Hall |].
    constructor; [| constructor]. rewrite <- Hm. apply Hbetween. rewrite Hm. discriminate.
Qed.

(** X15: The measures themselves.  Without a bar line there is exactly one
    measure, all the symbols from left to right, also when there is no
    symbol at all.  With a bar line no measure is empty, and every measure
    is a run of the sorted symbols without the bar lines: its symbols are
    symbols of the input, not bar lines, in left-to-right order. *)
Theorem measures_wellformed (symbols : list Symbol) (staff_lines : list (list Z)) :
  let sorted_symbols := Py.sorted (fun s => bx (box s)) symbols in
  ((forall s, In s symbols -> is_bar_line s = false) ->
   group_symbols_by_measure symbols staff_lines = [sorted_symbols])
  /\ ((exists b, In b symbols /\ is_bar_line b = true) ->
      Forall (fun m => m <> []
                       /\ m `sublist_of` List.filter not_bar_line_class sorted_symbols)
             (group_symbols_by_measure symbols staff_lines)).
Proof.
  intros sorted_symbols. rewrite group_symbols_unfold. fold sorted_symbols.
  set (bar_lines := List.filter is_bar_line sorted_symbols).
  split.
  - intros Hnone.
    assert (Hbars : bar_lines = []).
    { apply filter_none, List.Forall_forall. intros s Hs.
      apply Hnone, (sorted_In (fun s => bx (box s))), Hs. }
    rewrite Hbars. reflexivity.
  - intros (b & Hb & Hb_class).
    assert (Hb_in : In b bar_lines).
    { apply filter_In. split; [apply sorted_In, Hb | exact Hb_class]. }
    destruct (last bar_lines) as [last_bar |] eqn:Hlast;
      [| apply last_None in Hlast; rewrite Hlast in Hb_in; contradiction].
    apply Forall_app. split.
    + apply measures_fold_Forall; [| constructor].
      intros lo hi Hne. split; [exact Hne | apply measure_between_sublist].
    + pose proof (measure_after_sublist sorted_symbols (bx (box last_bar))) as Hsub.
      destruct (measure_after sorted_symbols (bx (box last_bar))) as [| s m];
        constructor; [| constructor].
      split; [discriminate | exact Hsub].
Qed.

Lemma measures_wellformed_witness :
  group_symbols_by_measure [Ex.note_E5; Ex.note_G4_left] [Ex.staff_100]
  = [[Ex.note_G4_left; Ex.note_E5]]
  /\ Forall (fun m => m <> [])
       (group_symbols_by_measure [Ex.bar_at_100; Ex.note_at_100; Ex.bar_at_200]
          [Ex.staff_100]).
Proof.
  split.
  - apply (proj1 (measures_wellformed [Ex.note_E5; Ex.note_G4_left] [Ex.staff_100])).
    intros s [<- | [<- | []]]; reflexivity.
  - eapply List.Forall_impl;
      [| apply (proj2 (measures_wellformed [Ex.bar_at_100; Ex.note_at_100; Ex.bar_at_200]
                         [Ex.staff_100]))].
    + intros m [Hne _]. exact Hne.
    + exists Ex.bar_at_100. split; [left; reflexivity | reflexivity].
Defined.

Lemma measure_between_after_exact (symbols : list Symbol) (lo mid : Z) :
  left_to_right symbols -> lo <= mid ->
  measure_between symbols lo mid ++ measure_after symbols mid
  = List.filter (fun s => (lo <=? bx (box s)) && negb (bx (box s) =? mid)
                          && not_bar_line_class s)
                symbols.
Proof.
  intros Hsorted Hlo.
  induction Hsorted as [| s symbols Hsorted IH Hs]; [reflexivity |].
  rewrite measure_between_cons, measure_after_cons. cbn [List.filter].
  rewrite <- IH.
  destruct (not_bar_line_class s); [| rewrite !andb_false_r; reflexivity].
  rewrite !andb_true_r.
  destruct (Z.leb_spec lo (bx (box s))), (Z.ltb_spec (bx (box s)) mid),
    (Z.ltb_spec mid (bx (box s))), (Z.eqb_spec (bx (box s)) mid);
    try lia; cbn [andb negb app]; try reflexivity.
  assert (Hall : Forall (fun t => mid <= bx (box t)) symbols).
  { rewrite List.Forall_forall in Hs |- *. intros t Ht. specialize (Hs t Ht).
    cbn beta in Hs. lia. }
  rewrite (measure_between_none _ lo mid Hall). reflexivity.
Qed.

(** X16: What is kept and what is lost when there is a bar line (and the bar
    lines are at pixel positions, not left of 0): the measures, joined in
    order, are the sorted symbols without those of a bar-line class, those
    left of x = 0, and those that start exactly at the x of the last bar
    line; nothing appears twice. *)
Theorem measures_content
  (symbols : list Symbol) (staff_lines : list (list Z)) (last_bar : Symbol) :
  let sorted_symbols := Py.sorted (fun s => bx (box s)) symbols in
  last (List.filter is_bar_line sorted_symbols) = Some last_bar ->
  (forall b, In b symbols -> is_bar_line b = true -> 0 <= bx (box b)) ->
  concat (group_symbols_by_measure symbols staff_lines)
  = List.filter (fun s => (0 <=? bx (box s)) && negb (bx (box s) =? bx (box last_bar))
                          && not_bar_line_class s)
                sorted_symbols.
Proof.
  intros sorted_symbols Hlast Hpixel.
  rewrite group_symbols_unfold. fold sorted_symbols. rewrite Hlast.
  assert (Hsorted : left_to_right sorted_symbols) by apply sorted_ascending.
  set (bar_lines := List.filter is_bar_line sorted_symbols) in *.
  assert (Hbars : left_to_right bar_lines) by apply left_to_right_filter, Hsorted.
  assert (Hnonneg : Forall (fun b => 0 <= bx (box b)) bar_lines).
  { apply List.Forall_forall. intros b Hb. apply filter_In in Hb as [Hb Hb_class].
    apply Hpixel; [apply (sorted_In (fun s => bx (box s))), Hb | exact Hb_class]. }
  destruct (measures_fold sorted_symbols bar_lines Hsorted Hbars [] 0 Hnonneg)
    as (Hend & Hle & Hjoin).
  rewrite Hlast in Hend. cbn [from_option] in Hend.
  rewrite concat_app, Hjoin, Hend. cbn [concat app].
  rewrite <- (measure_between_after_exact sorted_symbols 0 (bx (box last_bar)) Hsorted)
    by lia.
  f_equal.
  destruct (measure_after sorted_symbols (bx (box last_bar)));
    [reflexivity | cbn [concat]; apply app_nil_r].
Qed.

Lemma measures_content_witness :
  concat (group_symbols_by_measure
            [Ex.note_E5; Ex.bar_at_200; Ex.note_at_100; Ex.bar_at_100] [Ex.staff_100])
  = [Ex.note_at_100].
Proof.
  rewrite (measures_content _ _ Ex.bar_at_200); [reflexivity | reflexivity |].
  intros b [<- | [<- | [<- | [<- | []]]]] _; vm_compute; discriminate.
Defined.

(** ** MidiEncoder, further *)

Lemma midi_fold_notes (symbols : list Symbol) :
  forall st,
    fold_left midi_step symbols st
    = fold_left midi_step (List.filter (fun s => is_note_class (class s)) symbols) st.
Proof.
  induction symbols as [| s symbols IH]; intros st; [reflexivity |].
  cbn [fold_left List.filter].
  destruct (is_note_class (class s)) eqn:Hnote; cbn [fold_left]; rewrite IH.
  - reflexivity.
  - unfold midi_step at 2. rewrite Hnote. reflexivity.
Qed.

Lemma midi_fold_all_notes (notes : list Symbol) :
  Forall (fun s => is_note_class (class s) = true) notes ->
  forall st,
    Forall2 (fun s e => ev_pitch e = pitch_to_midi_number (pitch s)
                        /\ ev_duration e = duration s)
            notes (drop (length (events st)) (events (fold_left midi_step notes st)))
    /\ take (length (events st)) (events (fold_left midi_step notes st)) = events st
    /\ current_time (fold_left midi_step notes st)
       = fold_left Qplus (map duration notes) (current_time st).
Proof.
  induction 1 as [| s notes Hs _ IH]; intros st.
  - cbn [fold_left map]. rewrite drop_all, firstn_all. repeat split. constructor.
  - cbn [fold_left map]. unfold midi_step at 2 4 6. rewrite Hs.
    set (e := mkNoteEvent 0 0 (pitch_to_midi_number (pitch s)) (current_time st)
                (duration s) 100).
    destruct (IH (mkMidiState (events st ++ [e]) (current_time st + duration s)%Q))
      as (Hrest & Hkeep & Htime).
    cbn [events current_time] in Hrest, Hkeep, Htime.
    rewrite length_app in Hrest, Hkeep. cbn [length] in Hrest, Hkeep.
    set (out := events (fold_left midi_step notes
                          {| events := events st ++ [e];
                             current_time := current_time st + duration s |})) in *.
    assert (Hout : out = (events st ++ [e]) ++ drop (length (events st) + 1) out).
    { rewrite <- Hkeep at 1. rewrite take_drop. reflexivity. }
    split; [| split; [| exact Htime]].
    + rewrite Hout at 1. rewrite <- app_assoc, drop_app_length. cbn [app].
      constructor; [split; reflexivity | exact Hrest].
    + rewrite Hout, <- app_assoc, take_app_length. reflexivity.
Qed.

(** X17: Only the note-like symbols count for the MIDI track: leaving out every
    other symbol gives the same state, there is one note per note-like
    symbol, in their order, with its MIDI number and its duration, and the
    cursor ends at the sum of their durations. *)
Theorem midi_notes_only (symbols : list Symbol) :
  let notes := List.filter (fun s => is_note_class (class s)) symbols in
  midi_run symbols = midi_run notes
  /\ Forall2 (fun s e => ev_pitch e = pitch_to_midi_number (pitch s)
                         /\ ev_duration e = duration s)
       notes (events (midi_run symbols))
  /\ current_time (midi_run symbols) = fold_left Qplus (map duration notes) 0%Q.
Proof.
  intros notes. unfold midi_run.
  rewrite (midi_fold_notes symbols midi_init). fold notes.
  split; [reflexivity |].
  destruct (midi_fold_all_notes notes) with (st := midi_init) as (Hall & _ & Htime).
  { apply List.Forall_forall. intros s Hs. apply filter_In in Hs. apply Hs. }
  split; [exact Hall | exact Htime].
Qed.

Lemma chained_snoc (start stop : Q) (events : list NoteEvent) (e : NoteEvent) :
  chained start events stop -> ev_time e = stop ->
  chained start (events ++ [e]) (note_off e).
Proof.
  revert start. induction events as [| e0 events IH]; intros start Hchain He; cbn in *.
  - subst. split; reflexivity.
  - destruct Hchain as [H0 Hchain]. split; [exact H0 | apply IH; assumption].
Qed.

(** X18: The track is one voice: the first note starts at 0, each note starts
    exactly where the note before it ends, and the cursor is the end of the
    last note; every note is on track 0 and channel 0, with velocity 100
    and a MIDI number from 0 to 127. *)
Theorem midi_one_voice (symbols : list Symbol) :
  chained 0%Q (events (midi_run symbols)) (current_time (midi_run symbols))
  /\ Forall (fun e => ev_track e = 0 /\ ev_channel e = 0 /\ ev_velocity e = 100
                      /\ 0 <= ev_pitch e <= 127)
       (events (midi_run symbols)).
Proof.
  induction symbols as [| s symbols [IHchain IHall]] using rev_ind.
  - split; [reflexivity | constructor].
  - rewrite midi_run_snoc. unfold midi_step.
    destruct (is_note_class (class s)); [| split; assumption].
    cbn [events current_time]. split.
    + apply (chained_snoc 0 (current_time (midi_run symbols))); [exact IHchain | reflexivity].
    + apply Forall_app. split; [exact IHall |].
      constructor; [| constructor]. cbn.
      repeat split; apply pitch_to_midi_number_range.
Qed.

(** ** The analysis, further *)

Lemma process_detection_raise_inv (d : Detection) (staff_lines : list Z) (e : exn) :
  process_detection d staff_lines = Raise e ->
  e = flat_staff_error (center_of d) staff_lines /\ staff_lines <> []
  /\ Py.min staff_lines = Py.max staff_lines /\ is_note_class (class_of d) = true.
Proof.
  intros Hraise.
  destruct staff_lines as [| l0 staff_lines].
  { destruct (process_detection_ok d []) as [s Hs]; [auto | congruence]. }
  destruct (Z.eq_dec (Py.min (l0 :: staff_lines)) (Py.max (l0 :: staff_lines)))
    as [Hflat | Hheight].
  - destruct (is_note_class (class_of d)) eqn:Hnote.
    + rewrite process_detection_raise in Hraise by (assumption || discriminate).
      repeat split; congruence.
    + destruct (process_detection_ok d (l0 :: staff_lines)) as [s Hs]; [auto | congruence].
  - destruct (process_detection_ok d (l0 :: staff_lines)) as [s Hs]; [auto | congruence].
Qed.

Lemma mapM_result_raise_inv {A B} (f : A -> result B) (xs : list A) (e : exn) :
  mapM_result f xs = Raise e -> exists x, In x xs /\ f x = Raise e.
Proof.
  induction xs as [| x xs IH]; cbn [mapM_result]; [discriminate |].
  destruct (f x) as [y |] eqn:Hx; unfold mbind, result_bind.
  - destruct (mapM_result f xs) as [ys |] eqn:Hxs; [discriminate |].
    intros [= <-]. destruct (IH eq_refl) as (x' & Hin & Hx'). exists x'. split; [right |]; assumption.
  - intros [= <-]. exists x. split; [left; reflexivity | exact Hx].
Qed.

(** Every staff system the analysis works with has five lines. *)
Lemma staff_lines_of_five (env : Env) (system : list Z) :
  In system (staff_lines_of env) -> length system = 5%nat.
Proof.
  unfold staff_lines_of, detect_staff_lines_enhanced.
  destruct (hough env) as [lines | e].
  - destruct (group_staff_lines lines (image_height env)) as [| first others] eqn:Hgroup.
    + intros [<- | []]. reflexivity.
    + intros Hin. rewrite <- Hgroup in Hin.
      destruct lines as [lines |]; [| contradiction].
      apply group_loop_valid, validate_staff_spacing_five in Hin
        as (l0 & l1 & l2 & l3 & l4 & ->).
      reflexivity.
  - intros [<- | []]. reflexivity.
Qed.

Lemma first_staff_nonempty (env : Env) (first : list Z) (others : list (list Z)) :
  staff_lines_of env = first :: others -> first <> [].
Proof.
  intros Hstaff. pose proof (staff_lines_of_five env first) as Hlen.
  rewrite Hstaff in Hlen. specialize (Hlen (or_introl eq_refl)).
  intros ->. discriminate.
Qed.

(** On a first staff system of height zero the symbol stage stops at the
    first note-like detection. *)
Lemma detect_symbols_flat (env : Env) (boxes : list Detection)
  (first : list Z) (others : list (list Z)) (d : Detection) :
  model env = Some (Some boxes) -> staff_lines_of env = first :: others ->
  Py.min first = Py.max first ->
  List.find (fun d => is_note_class (class_of d)) boxes = Some d ->
  detect_symbols env (staff_lines_of env) = Raise (flat_staff_error (center_of d) first).
Proof.
  intros Hmodel Hstaff Hflat Hfirst.
  pose proof (first_staff_nonempty env first others Hstaff) as Hne.
  unfold detect_symbols. rewrite Hstaff, Hmodel.
  change ((first :: others) !!! 0%nat) with first.
  cbn [process_detections_enhanced].
  apply (mapM_result_find _ (fun d => is_note_class (class_of d)) boxes d).
  - intros x Hx. apply process_detection_ok. auto.
  - exact Hfirst.
  - apply find_some in Hfirst as [_ Hnote].
    apply process_detection_raise; assumption.
Qed.

Lemma detect_symbols_outcome (env : Env) :
  match detect_symbols env (staff_lines_of env) with
  | Ok symbols => ~ zero_height_note env
  | Raise e => zero_height_note env
  end.
Proof.
  destruct (staff_lines_of_nonempty env) as (first & others & Hstaff).
  destruct (detect_symbols env (staff_lines_of env)) as [symbols | e] eqn:Hdetect.
  - intros (boxes & first' & others' & d & Hmodel & Hstaff' & Hflat & Hd & Hnote).
    destruct (List.find (fun d => is_note_class (class_of d)) boxes) as [d' |] eqn:Hfind.
    + rewrite (detect_symbols_flat env boxes first' others' d' Hmodel Hstaff' Hflat Hfind)
        in Hdetect.
      discriminate.
    + apply (find_none _ _ Hfind) in Hd. cbv beta in Hd. congruence.
  - unfold detect_symbols in Hdetect. rewrite Hstaff in Hdetect.
    change ((first :: others) !!! 0%nat) with first in Hdetect.
    destruct (model env) as [[boxes |] |] eqn:Hmodel; try discriminate.
    cbn [process_detections_enhanced] in Hdetect.
    apply mapM_result_raise_inv in Hdetect as (d & Hd & Hraise).
    apply process_detection_raise_inv in Hraise as (_ & _ & Hflat & Hnote).
    exists boxes, first, others, d. repeat split; assumption.
Qed.

Lemma analyze_unreadable (env : Env) :
  imread_ok env = false ->
  analyze_sheet_music env = Error (ValueError "Could not load image").
Proof.
  intros Himage. unfold analyze_sheet_music, analyze_try. rewrite Himage. reflexivity.
Qed.

Lemma analyze_symbols_raise (env : Env) (e : exn) :
  imread_ok env = true ->
  detect_symbols env (staff_lines_of env) = Raise e ->
  analyze_sheet_music env = Error e.
Proof.
  intros Himage Hsymbols. unfold analyze_sheet_music, analyze_try.
  rewrite Himage, Hsymbols. reflexivity.
Qed.

Lemma analyze_write_fails (env : Env) (symbols : list Symbol) :
  imread_ok env = true ->
  detect_symbols env (staff_lines_of env) = Ok symbols ->
  write_ok env = false ->
  analyze_sheet_music env = Error OSError.
Proof.
  intros Himage Hsymbols Hwrite.
  unfold analyze_sheet_music, analyze_try, generate_midi_file.
  rewrite Himage, Hsymbols, Hwrite. reflexivity.
Qed.


Lemma Forall2_filter {A B} (R : A -> B -> Prop) (f : A -> bool) (g : B -> bool)
  (l : list A) (k : list B) :
  (forall x y, R x y -> f x = g y) ->
  Forall2 R l k -> Forall2 R (List.filter f l) (List.filter g k).
Proof.
  intros Hsame. induction 1 as [| x y l k Hxy _ IH]; [constructor |].
  cbn [List.filter]. rewrite (Hsame x y Hxy).
  destruct (g y); [constructor; assumption | exact IH].
Qed.

Lemma filter_note_resolve (accidentals symbols : list Symbol) :
  List.filter (fun s => is_note_class (class s)) (map (resolve_symbol accidentals) symbols)
  = map (resolve_symbol accidentals)
      (List.filter (fun s => is_note_class (class s)) symbols).
Proof.
  induction symbols as [| s symbols IH]; [reflexivity |].
  cbn [map List.filter]. rewrite IH.
  destruct (resolve_symbol_frame accidentals s) as (-> & _).
  destruct (is_note_class (class s)); reflexivity.
Qed.

Lemma filter_note_not_accidental (symbols : list Symbol) :
  List.filter (fun s => is_note_class (class s))
    (List.filter (fun s => negb (is_accidental s)) symbols)
  = List.filter (fun s => is_note_class (class s)) symbols.
Proof.
  induction symbols as [| s symbols IH]; [reflexivity |].
  cbn [List.filter].
  destruct (is_note_class (class s)) eqn:Hnote.
  - rewrite (note_class_not_accidental s Hnote). cbn [negb List.filter].
    rewrite Hnote, IH. reflexivity.
  - destruct (is_accidental s); cbn [negb List.filter]; rewrite ?Hnote; exact IH.
Qed.

Lemma midi_events_length (symbols : list Symbol) :
  length (events (midi_run symbols))
  = length (List.filter (fun s => is_note_class (class s)) symbols).
Proof.
  unfold midi_run. rewrite midi_fold_notes.
  destruct (midi_fold_all_notes
              (List.filter (fun s => is_note_class (class s)) symbols))
    with (st := midi_init) as (Hall & _).
  { apply List.Forall_forall. intros s Hs. apply filter_In in Hs. apply Hs. }
  cbn [midi_init events length drop] in Hall.
  symmetry. apply (Forall2_length _ _ _ Hall).
Qed.

(** X20: The numbers of a successful analysis, in terms of the detections of the
    predictor: [symbols_detected] counts the detections that are not a
    sharp, flat or natural sign; the note list has one entry, with the box
    of the detection, for each note-like detection, and the MIDI track one
    note for each of them. *)
Theorem analysis_counts
  (env : Env) (boxes : list Detection) (analysis : Analysis) (midi : list NoteEvent) :
  model env = Some (Some boxes) ->
  analyze_sheet_music env = Success analysis midi ->
  let notes_detected := List.filter (fun d => is_note_class (class_of d)) boxes in
  symbols_detected analysis
  = length (List.filter (fun d => negb (Py.str_in (class_of d) accidental_classes)) boxes)
  /\ map nv_box (notes analysis) = map box_of notes_detected
  /\ length midi = length notes_detected.
Proof.
  intros Hmodel Hrun notes_detected.
  assert (Himage : imread_ok env = true).
  { destruct (imread_ok env) eqn:Himage; [reflexivity |].
    rewrite (analyze_unreadable env Himage) in Hrun. discriminate. }
  destruct (detect_symbols env (staff_lines_of env)) as [symbols | e] eqn:Hdetect;
    [| rewrite (analyze_symbols_raise env e Himage Hdetect) in Hrun; discriminate].
  assert (Hwrite : write_ok env = true).
  { destruct (write_ok env) eqn:Hwrite; [reflexivity |].
    rewrite (analyze_write_fails env symbols Himage Hdetect Hwrite) in Hrun. discriminate. }
  assert (Hbuilt : Forall2 (fun d s => class s = class_of d /\ box s = box_of d)
                     boxes symbols).
  { unfold detect_symbols in Hdetect. rewrite Hmodel in Hdetect.
    cbn [process_detections_enhanced] in Hdetect.
    apply mapM_result_Forall2 in Hdetect.
    eapply Forall2_impl; [exact Hdetect |].
    intros d s Hs. cbn beta in Hs.
    destruct (process_detection_fields d _ s Hs) as (H1 & H2 & _). split; assumption. }
  unfold analyze_sheet_music, analyze_try, generate_midi_file in Hrun.
  rewrite Himage, Hdetect, Hwrite in Hrun.
  cbn [negb mbind result_bind mret result_ret] in Hrun.
  injection Hrun as <- <-.
  cbn [symbols_detected notes].
  set (accidentals := accidentals_of symbols).
  assert (Hout : apply_accidentals_to_notes symbols
                 = map (resolve_symbol accidentals)
                     (List.filter (fun s => negb (is_accidental s)) symbols))
    by apply filter_map_resolve.
  assert (Hkept : Forall2 (fun d s => class s = class_of d /\ box s = box_of d)
                    (List.filter (fun d => negb (Py.str_in (class_of d) accidental_classes))
                       boxes)
                    (List.filter (fun s => negb (is_accidental s)) symbols)).
  { apply Forall2_filter; [| exact Hbuilt].
    intros d s [Hclass _]. unfold is_accidental. rewrite Hclass. reflexivity. }
  assert (Hnotes : Forall2 (fun d s => class s = class_of d /\ box s = box_of d)
                     notes_detected
                     (List.filter (fun s => is_note_class (class s)) symbols)).
  { apply Forall2_filter; [| exact Hbuilt].
    intros d s [Hclass _]. rewrite Hclass. reflexivity. }
  rewrite filter_bool, Hout, filter_note_resolve, filter_note_not_accidental.
  split; [| split].
  - rewrite length_map. symmetry. apply (Forall2_length _ _ _ Hkept).
  - transitivity (map box (List.filter (fun s => is_note_class (class s)) symbols)).
    + rewrite !map_map. apply map_ext. intros s. cbn [nv_box].
      apply resolve_symbol_frame.
    + clear - Hnotes.
      induction Hnotes as [| d s l k [_ Hbox] _ IH]; [reflexivity |].
      cbn [map]. rewrite IH, Hbox. reflexivity.
  - rewrite midi_events_length, filter_note_resolve, filter_note_not_accidental,
      length_map.
    symmetry. apply (Forall2_length _ _ _ Hnotes).
Qed.

Lemma analysis_counts_witness :
  exists analysis midi,
    analyze_sheet_music Ex2.four_symbols = Success analysis midi
    /\ symbols_detected analysis = 3%nat
    /\ length midi = 2%nat.
Proof.
  destruct (analyze_sheet_music Ex2.four_symbols) as [analysis midi | e] eqn:Hrun;
    [| vm_compute in Hrun; discriminate Hrun].
  exists analysis, midi. split; [reflexivity |].
  destruct (analysis_counts Ex2.four_symbols _ analysis midi eq_refl Hrun)
    as (Hcount & _ & Hmidi).
  split; [rewrite Hcount | rewrite Hmidi]; vm_compute; reflexivity.
Defined.

(** X21: Without a loaded model the analysis does not look at the image beyond
    reading it: whatever the line detector finds or raises, the result is the
    analysis of the two built-in symbols, a quarter E4 and a half G4, played
    one after the other. *)
Theorem analysis_without_model (env : Env) :
  model env = None -> imread_ok env = true -> write_ok env = true ->
  analyze_sheet_music env
  = Success
      (mkAnalysis 120 "4/4" "C major"
         [mkNoteView "E4" "quarter" (mkBox 150 180 20 25);
          mkNoteView "G4" "half" (mkBox 200 160 20 25)]
         1 2)
      [mkNoteEvent 0 0 64 0 1 100; mkNoteEvent 0 0 67 1 2 100].
Proof.
  intros Hmodel Himage Hwrite.
  unfold analyze_sheet_music, analyze_try, detect_symbols, generate_midi_file.
  rewrite Hmodel, Himage, Hwrite.
  cbn [negb mbind result_bind mret result_ret].
  vm_compute. reflexivity.
Qed.

Lemma analysis_without_model_witness :
  analyze_sheet_music (Ex2.no_model (Raise OSError))
  = analyze_sheet_music (Ex2.no_model (Ok (Some (Ex.segments [7; 7; 7; 7; 7])))).
Proof. rewrite !analysis_without_model; reflexivity. Defined.


(** ** Dataset preparation *)

Import PrepareDataset.

Lemma float_div_inject (a : Q) (n : Z) :
  n <> 0 -> Py.float_div a (inject_Z n) = Ok (a / inject_Z n)%Q.
Proof.
  intros Hn. unfold Py.float_div.
  destruct (Qeq_bool (inject_Z n) 0) eqn:Hzero; [| reflexivity].
  exfalso. apply Qeq_bool_eq in Hzero. apply Hn.
  unfold Qeq, inject_Z in Hzero. cbn in Hzero. lia.
Qed.

Lemma convert_to_yolo_format_ok (img_width img_height : Z) (x_min y_min x_max y_max : Q) :
  img_width <> 0 -> img_height <> 0 ->
  convert_to_yolo_format img_width img_height (x_min, y_min, x_max, y_max)
  = Ok (Np.float64 (Np.float64 (Np.float64 (x_min + x_max) / 2) / inject_Z img_width),
        Np.float64 (Np.float64 (Np.float64 (y_min + y_max) / 2) / inject_Z img_height),
        Np.float64 (Np.float64 (x_max - x_min) / inject_Z img_width),
        Np.float64 (Np.float64 (y_max - y_min) / inject_Z img_height)).
Proof.
  intros Hw Hh. unfold convert_to_yolo_format.
  rewrite !(float_div_inject _ img_width Hw).
  cbn [mbind result_bind fmap result_fmap].
  rewrite !(float_div_inject _ img_height Hh).
  reflexivity.
Qed.

(** X22: [convert_to_yolo_format] fails, on a division by zero, exactly when the
    image has width or height zero; no box makes it fail otherwise. *)
Theorem convert_to_yolo_format_raises (img_width img_height : Z) (bbox : Box4) :
  (convert_to_yolo_format img_width img_height bbox = Raise ArithmeticError
   <-> img_width = 0 \/ img_height = 0)
  /\ (forall e, convert_to_yolo_format img_width img_height bbox = Raise e ->
                e = ArithmeticError).
Proof.
  destruct bbox as [[[x_min y_min] x_max] y_max].
  destruct (Z.eq_dec img_width 0) as [-> | Hw].
  { assert (Hrun : convert_to_yolo_format 0 img_height (x_min, y_min, x_max, y_max)
                   = Raise ArithmeticError) by reflexivity.
    rewrite Hrun. split; [split; [left |]; reflexivity | congruence]. }
  destruct (Z.eq_dec img_height 0) as [-> | Hh].
  { assert (Hrun : convert_to_yolo_format img_width 0 (x_min, y_min, x_max, y_max)
                   = Raise ArithmeticError).
    { unfold convert_to_yolo_format.
      rewrite !(float_div_inject _ img_width Hw). reflexivity. }
    rewrite Hrun. split; [split; [right |]; reflexivity | congruence]. }
  rewrite (convert_to_yolo_format_ok _ _ _ _ _ _ Hw Hh).
  split; [split; [discriminate | intros [? | ?]; contradiction] | discriminate].
Qed.

(** The quotient by the size of the image of a number between 0 and that
    size, after rounding, is between 0 and 1. *)
Lemma normalized_unit (a : Q) (size : Z) :
  0 < size < 2 ^ 53 -> (0 <= a)%Q -> (a <= inject_Z size)%Q ->
  (0 <= Np.float64 (a / inject_Z size) <= 1)%Q.
Proof.
  intros Hsize Hlo Hhi.
  assert (HS : (0 < inject_Z size)%Q) by (rewrite <- (Zlt_Qlt 0); lia).
  pose proof (round_bounded 53 1074 ltac:(lia) ltac:(lia) (a / inject_Z size) 1 0
                ltac:(reflexivity) ltac:(lia)) as Hround.
  change (inject_Z (1 * 2 ^ 0)) with 1%Q in Hround.
  apply Hround.
  - apply Qle_shift_div_l; [exact HS | lra].
  - apply Qle_shift_div_r; [exact HS | lra].
Qed.

Lemma rounded_below (a : Q) (size : Z) :
  Z.abs size < 2 ^ 53 -> (0 <= a)%Q -> (a <= inject_Z size)%Q ->
  (0 <= Np.float64 a <= inject_Z size)%Q.
Proof.
  intros Hsize Hlo Hhi.
  pose proof (round_bounded 53 1074 ltac:(lia) ltac:(lia) a size 0 Hsize ltac:(lia))
    as Hround.
  change (2 ^ 0) with 1 in Hround. rewrite Z.mul_1_r in Hround.
  apply Hround; assumption.
Qed.

(** The centre of two numbers between 0 and the size of the image, as it is
    computed, is between 0 and that size. *)
Lemma center_below (lo hi : Q) (size : Z) :
  0 < size < 2 ^ 53 -> (0 <= lo)%Q -> (lo <= hi)%Q -> (hi <= inject_Z size)%Q ->
  (0 <= Np.float64 (Np.float64 (lo + hi) / 2) <= inject_Z size)%Q.
Proof.
  intros Hsize Hlo Hle Hhi.
  pose proof (round_bounded 53 1074 ltac:(lia) ltac:(lia) (lo + hi) size 1
                ltac:(lia) ltac:(lia)) as Hsum.
  assert (Hdouble : (inject_Z (size * 2 ^ 1) == 2 * inject_Z size)%Q).
  { change (2 ^ 1) with 2. rewrite inject_Z_mult. ring. }
  rewrite Hdouble in Hsum.
  destruct Hsum as [Hsum_lo Hsum_hi]; [name_injections; lra | name_injections; lra |].
  apply rounded_below; [lia | |]; unfold Np.float64.
  - apply Qle_shift_div_l; [reflexivity | name_injections; lra].
  - apply Qle_shift_div_r; [reflexivity | name_injections; lra].
Qed.

(** The four numbers computed for a corner box inside the image. *)
Lemma corner_box_unit (img_width img_height : Z) (x_min y_min x_max y_max : Q) :
  0 < img_width < 2 ^ 53 -> 0 < img_height < 2 ^ 53 ->
  (0 <= x_min)%Q -> (x_min <= x_max)%Q -> (x_max <= inject_Z img_width)%Q ->
  (0 <= y_min)%Q -> (y_min <= y_max)%Q -> (y_max <= inject_Z img_height)%Q ->
  (0 <= Np.float64 (Np.float64 (Np.float64 (x_min + x_max) / 2) / inject_Z img_width)
   <= 1)%Q
  /\ (0 <= Np.float64 (Np.float64 (Np.float64 (y_min + y_max) / 2) / inject_Z img_height)
      <= 1)%Q
  /\ (0 <= Np.float64 (Np.float64 (x_max - x_min) / inject_Z img_width) <= 1)%Q
  /\ (0 <= Np.float64 (Np.float64 (y_max - y_min) / inject_Z img_height) <= 1)%Q.
Proof.
  intros Hw Hh Hx0 Hx1 Hx2 Hy0 Hy1 Hy2.
  split; [| split; [| split]].
  - destruct (center_below x_min x_max img_width Hw Hx0 Hx1 Hx2) as [Hlo Hhi].
    apply normalized_unit; assumption.
  - destruct (center_below y_min y_max img_height Hh Hy0 Hy1 Hy2) as [Hlo Hhi].
    apply normalized_unit; assumption.
  - destruct (rounded_below (x_max - x_min) img_width) as [Hlo Hhi];
      [lia | name_injections; lra | name_injections; lra |].
    apply normalized_unit; assumption.
  - destruct (rounded_below (y_max - y_min) img_height) as [Hlo Hhi];
      [lia | name_injections; lra | name_injections; lra |].
    apply normalized_unit; assumption.
Qed.

(** X23: A box that lies inside an image, of a size below 2^53, is converted to
    a YOLO box whose four numbers are between 0 and 1, rounding included. *)
Theorem convert_to_yolo_format_unit_square
  (img_width img_height : Z) (x_min y_min x_max y_max : Q) :
  0 < img_width < 2 ^ 53 -> 0 < img_height < 2 ^ 53 ->
  (0 <= x_min)%Q -> (x_min <= x_max)%Q -> (x_max <= inject_Z img_width)%Q ->
  (0 <= y_min)%Q -> (y_min <= y_max)%Q -> (y_max <= inject_Z img_height)%Q ->
  exists x_center y_center width height,
    convert_to_yolo_format img_width img_height (x_min, y_min, x_max, y_max)
    = Ok (x_center, y_center, width, height)
    /\ (0 <= x_center <= 1)%Q /\ (0 <= y_center <= 1)%Q
    /\ (0 <= width <= 1)%Q /\ (0 <= height <= 1)%Q.
Proof.
  intros Hw Hh Hx0 Hx1 Hx2 Hy0 Hy1 Hy2.
  rewrite convert_to_yolo_format_ok by lia.
  do 4 eexists. split; [reflexivity |].
  apply corner_box_unit; assumption.
Qed.

Lemma convert_to_yolo_format_unit_square_witness :
  exists x_center y_center width height,
    convert_to_yolo_format 5 200 (38 # 10, 20, 5, 60)%Q
    = Ok (x_center, y_center, width, height)
    /\ (0 <= x_center <= 1)%Q /\ (0 <= y_center <= 1)%Q
    /\ (0 <= width <= 1)%Q /\ (0 <= height <= 1)%Q.
Proof.
  apply (convert_to_yolo_format_unit_square 5 200 (38 # 10) 20 5 60);
    first [lia | vm_compute; discriminate].
Defined.

(** X24: The label written for an annotation: a COCO box of floats that lies
    inside the image gets a YOLO box whose four numbers are between 0 and
    1, rounding included. *)
Theorem yolo_of_coco_unit_square
  (img_width img_height : Z) (x_min y_min width height : Q) :
  0 < img_width < 2 ^ 53 -> 0 < img_height < 2 ^ 53 ->
  (Np.float64 x_min == x_min)%Q -> (Np.float64 y_min == y_min)%Q ->
  (0 <= x_min)%Q -> (0 <= width)%Q -> (x_min + width <= inject_Z img_width)%Q ->
  (0 <= y_min)%Q -> (0 <= height)%Q -> (y_min + height <= inject_Z img_height)%Q ->
  exists x_center y_center w h,
    yolo_of_coco img_width img_height (x_min, y_min, width, height)
    = Ok (x_center, y_center, w, h)
    /\ (0 <= x_center <= 1)%Q /\ (0 <= y_center <= 1)%Q
    /\ (0 <= w <= 1)%Q /\ (0 <= h <= 1)%Q.
Proof.
  intros Hw Hh Hfx Hfy Hx0 Hwidth Hx1 Hy0 Hheight Hy1.
  unfold yolo_of_coco.
  destruct (rounded_below (x_min + width) img_width) as [_ Hxhi];
    [lia | name_injections; lra | exact Hx1 |].
  destruct (rounded_below (y_min + height) img_height) as [_ Hyhi];
    [lia | name_injections; lra | exact Hy1 |].
  rewrite convert_to_yolo_format_ok by lia.
  do 4 eexists. split; [reflexivity |].
  apply corner_box_unit; try assumption.
  - rewrite <- Hfx at 1. apply (round_monotone 53 1074); lia || lra.
  - rewrite <- Hfy at 1. apply (round_monotone 53 1074); lia || lra.
Qed.

Lemma yolo_of_coco_unit_square_witness :
  exists x_center y_center w h,
    yolo_of_coco 49 200 (10, 20, 1, 40)%Q = Ok (x_center, y_center, w, h)
    /\ (0 <= x_center <= 1)%Q /\ (0 <= y_center <= 1)%Q
    /\ (0 <= w <= 1)%Q /\ (0 <= h <= 1)%Q.
Proof.
  apply (yolo_of_coco_unit_square 49 200 10 20 1 40);
    first [lia | vm_compute; reflexivity | vm_compute; discriminate].
Defined.

Lemma group_step_lookup (ann_by_img : gmap Z (list Annotation)) (ann : Annotation)
  (img_id : Z) :
  group_step ann_by_img ann !! img_id
  = if bool_decide (image_id ann = Some img_id)
    then Some (default [] (ann_by_img !! img_id) ++ [ann])
    else ann_by_img !! img_id.
Proof.
  unfold group_step. destruct (image_id ann) as [j |].
  - destruct (decide (j = img_id)) as [-> | Hne].
    + rewrite bool_decide_eq_true_2 by reflexivity.
      rewrite lookup_insert_eq.
      destruct (ann_by_img !! img_id) eqn:Hlookup; rewrite ?Hlookup; [reflexivity |].
      rewrite lookup_insert_eq. reflexivity.
    + rewrite bool_decide_eq_false_2 by congruence.
      rewrite lookup_insert_ne by exact Hne.
      destruct (ann_by_img !! j) eqn:Hj; rewrite ?Hj; [reflexivity |].
      rewrite lookup_insert_ne by exact Hne. reflexivity.
  - rewrite bool_decide_eq_false_2 by discriminate. reflexivity.
Qed.

Lemma group_fold_lookup (annotations : list Annotation)
  (ann_by_img : gmap Z (list Annotation)) (img_id : Z) :
  fold_left group_step annotations ann_by_img !! img_id
  = match annotations_of img_id annotations with
    | [] => ann_by_img !! img_id
    | anns => Some (default [] (ann_by_img !! img_id) ++ anns)
    end.
Proof.
  revert ann_by_img.
  induction annotations as [| ann annotations IH]; intros ann_by_img; [reflexivity |].
  cbn [fold_left]. rewrite IH, group_step_lookup.
  unfold annotations_of. cbn [List.filter]. fold (annotations_of img_id annotations).
  destruct (bool_decide (image_id ann = Some img_id)).
  - cbn [default]. unfold id.
    destruct (annotations_of img_id annotations); [reflexivity |].
    rewrite <- app_assoc. reflexivity.
  - reflexivity.
Qed.

(** X25: Grouping the annotations by image loses and invents nothing: an image
    is a key of [ann_by_img] exactly when some annotation names it, and its
    entry holds the annotations that name it, in the order of the file. *)
Theorem group_annotations_lookup (annotations : list Annotation) (img_id : Z) :
  group_annotations annotations !! img_id
  = match annotations_of img_id annotations with
    | [] => None
    | anns => Some anns
    end.
Proof.
  unfold group_annotations. rewrite group_fold_lookup, lookup_empty. reflexivity.
Qed.

(** ** Upload validation *)

Import Validation.

Lemma rfind_from_range (c : ascii) (p : string) (i last : Z) :
  PyOs.rfind_from c p i last = last
  \/ i <= PyOs.rfind_from c p i last < i + Z.of_nat (String.length p).
Proof.
  revert i last. induction p as [| x p IH]; intros i last; [left; reflexivity |].
  cbn [PyOs.rfind_from String.length].
  destruct (IH (i + 1) (if Ascii.eqb x c then i else last)) as [-> | Hin].
  - destruct (Ascii.eqb x c); [right; lia | left; reflexivity].
  - right. lia.
Qed.

Lemma rfind_range (c : ascii) (p : string) :
  -1 <= PyOs.rfind c p < Z.of_nat (String.length p).
Proof.
  unfold PyOs.rfind. destruct (rfind_from_range c p 0 (-1)) as [-> | Hin]; lia.
Qed.

Lemma substring_all (p : string) : String.substring 0 (String.length p) p = p.
Proof. induction p as [| x p IH]; [reflexivity |]. cbn. rewrite IH. reflexivity. Qed.

Lemma substring_split (p : string) (n : nat) :
  (n <= String.length p)%nat ->
  String.substring 0 n p +:+ String.substring n (String.length p - n) p = p.
Proof.
  revert n. induction p as [| x p IH]; intros n Hn.
  - destruct n; [reflexivity | cbn in Hn; lia].
  - destruct n as [| n].
    + cbn. rewrite substring_all. reflexivity.
    + cbn in Hn. cbn.
      change (String x (String.substring 0 n p
                        +:+ String.substring n (String.length p - n) p) = String x p).
      f_equal. apply IH. lia.
Qed.

Lemma append_empty (p : string) : p +:+ "" = p.
Proof.
  induction p as [| x p IH]; [reflexivity |].
  change (String x (p +:+ "") = String x p). f_equal. exact IH.
Qed.

(** [os.path.splitext]: root and extension together are the path. *)
Lemma splitext_join (p : string) :
  fst (PyOs.splitext p) +:+ snd (PyOs.splitext p) = p.
Proof.
  unfold PyOs.splitext.
  pose proof (rfind_range "/" p) as Hsep. pose proof (rfind_range "." p) as Hdot.
  destruct (PyOs.rfind "/" p <? PyOs.rfind "." p) eqn:Hlt; cbn [andb].
  - destruct (PyOs.has_other _ _); cbn [fst snd].
    + apply Z.ltb_lt in Hlt. unfold PyOs.slice.
      rewrite Z.sub_0_r. change (Z.to_nat 0) with 0%nat.
      replace (Z.to_nat (Z.of_nat (String.length p) - PyOs.rfind "." p))
        with (String.length p - Z.to_nat (PyOs.rfind "." p))%nat by lia.
      apply substring_split. lia.
    + apply append_empty.
  - cbn [fst snd]. apply append_empty.
Qed.

(** X26: An accepted upload has a file name; its secured name ends in an
    extension that is, letter case apart, one of the five allowed ones; and
    it has at most 10 MiB.  The function never returns [False]. *)
Theorem validate_upload_file_accepts
  (secure_filename : string -> string) (allowed_listing : string)
  (file : option FileStorage) (answer : bool) :
  validate_upload_file secure_filename allowed_listing file = Ok answer ->
  answer = true
  /\ exists f root ext,
       file = Some f /\ filename f <> ""
       /\ secure_filename (filename f) = root +:+ ext
       /\ PyOs.lower ext ∈ ALLOWED_EXTENSIONS
       /\ stream_size f <= 10 * 1024 * 1024.
Proof.
  unfold validate_upload_file. destruct file as [f |]; [| discriminate].
  unfold truthy. rewrite negb_involutive.
  destruct (String.eqb (filename f) "") eqn:Hname; [discriminate |].
  cbv zeta.
  destruct (bool_decide (PyOs.lower (snd (PyOs.splitext (secure_filename (filename f))))
                         ∈ ALLOWED_EXTENSIONS)) eqn:Hext; cbn [negb]; [| discriminate].
  destruct (MAX_FILE_SIZE <? stream_size f) eqn:Hsize; [discriminate |].
  intros Hanswer. split; [congruence |].
  exists f, (fst (PyOs.splitext (secure_filename (filename f)))),
    (snd (PyOs.splitext (secure_filename (filename f)))).
  split; [reflexivity |]. split; [apply String.eqb_neq, Hname |].
  split; [symmetry; apply splitext_join |].
  apply bool_decide_eq_true in Hext. split; [exact Hext |].
  apply Z.ltb_ge in Hsize. exact Hsize.
Qed.

Lemma validate_upload_file_accepts_witness :
  true = true
  /\ exists f root ext,
       Some (mkFileStorage "Score.PNG" 2048) = Some f /\ filename f <> ""
       /\ (fun name => name) (filename f) = root +:+ ext
       /\ PyOs.lower ext ∈ ALLOWED_EXTENSIONS
       /\ stream_size f <= 10 * 1024 * 1024.
Proof.
  apply (validate_upload_file_accepts (fun name => name) ""
           (Some (mkFileStorage "Score.PNG" 2048)) true).
  vm_compute. reflexivity.
Defined.

(** X27: What the validation reports.  A missing file and a file without a name
    are both reported as "No file provided", so "No file selected" is never
    reported; a file whose extension is refused is reported as such whatever
    its size; and the size is reported only for a file whose extension is
    allowed. *)
Theorem validate_upload_file_reports
  (secure_filename : string -> string) (allowed_listing : string)
  (file : option FileStorage) :
  let outcome := validate_upload_file secure_filename allowed_listing file in
  let file_ext f := PyOs.lower (snd (PyOs.splitext (secure_filename (filename f)))) in
  (outcome = Raise (ValueError "No file provided")
   <-> file = None \/ exists f, file = Some f /\ filename f = "")
  /\ outcome <> Raise (ValueError "No file selected")
  /\ (forall f, file = Some f -> filename f <> "" -> file_ext f ∉ ALLOWED_EXTENSIONS ->
      outcome = Raise (ValueError ("File type " +:+ file_ext f
                                   +:+ " not supported. Allowed: " +:+ allowed_listing)))
  /\ (outcome = Raise (ValueError "File too large (max 10MB)")
      <-> exists f, file = Some f /\ filename f <> ""
                    /\ file_ext f ∈ ALLOWED_EXTENSIONS
                    /\ 10 * 1024 * 1024 < stream_size f)
  /\ (outcome = Ok true
      <-> exists f, file = Some f /\ filename f <> ""
                    /\ file_ext f ∈ ALLOWED_EXTENSIONS
                    /\ stream_size f <= 10 * 1024 * 1024).
Proof.
  cbv zeta. unfold validate_upload_file.
  destruct file as [f |].
  2:{ repeat split; try discriminate; try (intros (f & Hf & _); discriminate Hf);
        try (intros; left; reflexivity); intros f Hf; discriminate Hf. }
  unfold truthy. rewrite negb_involutive.
  destruct (String.eqb (filename f) "") eqn:Hname.
  { apply String.eqb_eq in Hname.
    repeat split; try discriminate;
      try (intros (f' & [= <-] & Hne & _); contradiction);
      try (intros f' [= <-] Hne; contradiction).
    intros _. right. exists f. split; [reflexivity | exact Hname]. }
  apply String.eqb_neq in Hname.
  destruct (bool_decide (PyOs.lower (snd (PyOs.splitext (secure_filename (filename f))))
                         ∈ ALLOWED_EXTENSIONS)) eqn:Hext; cbn [negb].
  - apply bool_decide_eq_true in Hext.
    destruct (MAX_FILE_SIZE <? stream_size f) eqn:Hsize.
    + apply Z.ltb_lt in Hsize. unfold MAX_FILE_SIZE in Hsize.
      repeat split; try discriminate.
      * intros [Hf | (f' & [= <-] & Hempty)]; [discriminate | contradiction].
      * intros f' [= <-] _ Hno. contradiction.
      * intros _. exists f. repeat split; assumption.
      * intros (f' & [= <-] & _ & _ & Hle). lia.
    + apply Z.ltb_ge in Hsize. unfold MAX_FILE_SIZE in Hsize.
      repeat split; try discriminate.
      * intros [Hf | (f' & [= <-] & Hempty)]; [discriminate | contradiction].
      * intros f' [= <-] _ Hno. contradiction.
      * intros (f' & [= <-] & _ & _ & Hlt). lia.
      * intros _. exists f. repeat split; assumption.
  - apply bool_decide_eq_false in Hext.
    repeat split; try discriminate;
      try (intros (f' & [= <-] & _ & Hin & _); contradiction).
    + intros [Hf | (f' & [= <-] & Hempty)]; [discriminate | contradiction].
    + intros f' [= <-] _ _. reflexivity.
Qed.

(** ** The endpoint *)

Import Api.

Lemma validate_upload_file_true
  (secure_filename : string -> string) (allowed_listing : string)
  (file : option FileStorage) (answer : bool) :
  validate_upload_file secure_filename allowed_listing file = Ok answer -> answer = true.
Proof.
  unfold validate_upload_file. destruct file as [f |]; [| discriminate].
  repeat match goal with
         | |- context [if ?c then _ else _] => destruct c; try discriminate
         end.
  congruence.
Qed.

(** X28: The status of the answer tells whether the upload was taken, not whether
    the analysis worked: the status is 400 when the validation, the saving
    or the hashing of the upload fails, with the error as the body, and 200
    otherwise, with the response of the analysis as the body, also when that
    response is an error. *)
Theorem endpoint_status
  (secure_filename : string -> string) (allowed_listing : string)
  (file : option FileStorage) (upload : Upload) :
  let answer := analyze_sheet_music_endpoint secure_filename allowed_listing file upload in
  let accepted :=
    validate_upload_file secure_filename allowed_listing file = Ok true
    /\ save_ok upload = true /\ exists h, image_hash upload = Ok h in
  (accepted -> answer = (AnalysisBody (analyze_sheet_music (analysis_env upload)), 200))
  /\ (~ accepted -> exists e, answer = (ErrorBody e, 400))
  /\ (forall e, validate_upload_file secure_filename allowed_listing file = Raise e ->
                answer = (ErrorBody e, 400))
  /\ (accepted -> imread_ok (analysis_env upload) = false ->
      answer = (AnalysisBody (Error (ValueError "Could not load image")), 200)).
Proof.
  cbv zeta.
  assert (Htaken :
    validate_upload_file secure_filename allowed_listing file = Ok true
    /\ save_ok upload = true /\ (exists h, image_hash upload = Ok h) ->
    analyze_sheet_music_endpoint secure_filename allowed_listing file upload
    = (AnalysisBody (analyze_sheet_music (analysis_env upload)), 200)).
  { intros (Hvalid & Hsave & h & Hhash).
    unfold analyze_sheet_music_endpoint, endpoint_try.
    rewrite Hvalid, Hsave, Hhash. reflexivity. }
  split; [exact Htaken |]. split; [| split].
  - intros Hrefused.
    unfold analyze_sheet_music_endpoint, endpoint_try.
    destruct (validate_upload_file secure_filename allowed_listing file)
      as [b | e] eqn:Hvalid; [| eexists; reflexivity].
    rewrite (validate_upload_file_true _ _ _ _ Hvalid) in *.
    destruct (save_ok upload) eqn:Hsave; [| eexists; reflexivity].
    destruct (image_hash upload) as [h | e] eqn:Hhash; [| eexists; reflexivity].
    exfalso. apply Hrefused. repeat split. exists h. reflexivity.
  - intros e Hvalid. unfold analyze_sheet_music_endpoint, endpoint_try.
    rewrite Hvalid. reflexivity.
  - intros Htake Himage. rewrite (Htaken Htake), (analyze_unreadable _ Himage).
    reflexivity.
Qed.
